(** * connect-googledrive: token lifecycle, request pipeline, change sync
      and watch channels

    A shallow embedding of the stateful core of the connector:

    - [apps/api/clients/googledrive.py]  ([AccessToken], [OAuthTokenProvider],
      [GoogleDriveClient._request] and the client calls built on it),
    - [apps/api/services/token_store.py] ([TokenRepository]),
    - [apps/api/services/sync_state.py]  ([SyncStateService]),
    - [apps/api/services/files.py]       ([DriveFileService.sync_changes]),
    - [apps/api/services/watch.py]       ([WatchService]).

    The Python code is asynchronous and effectful.  It is embedded as a
    state-and-exception monad over a [World] that holds the provider's
    in-memory cache, the three database tables, the clock and a
    chronological trace of every I/O event.  Everything outside the process
    (the OAuth token endpoint, the Drive REST API, the service-account
    identity provider, the random generator, the passage of time during
    I/O) is an [Env] of oracles that see the whole history, so a theorem
    quantified over [Env] holds for every behaviour of the outside world. *)

From Stdlib Require Import ZArith List String Bool Lia.
From stdpp Require Import base option gmap strings list.

Import ListNotations.
Local Open Scope string_scope.
Local Open Scope list_scope.
Local Open Scope Z_scope.

(** ** Python values *)

(** Timestamps are timezone-aware instants, counted in microseconds (the
    resolution of [datetime]); a [timedelta] is a difference of instants. *)
Definition datetime := Z.
Definition timedelta := Z.

Definition seconds (n : Z) : timedelta := n * 1000000.
Definition minutes (n : Z) : timedelta := seconds (60 * n).
Definition hours (n : Z) : timedelta := minutes (60 * n).

(** [timedelta.total_seconds()] followed by [int(...)]: truncation toward
    zero. *)
Definition int_total_seconds (d : timedelta) : Z := Z.quot d 1000000.

(** Truthiness of a [str | None]: [None] and the empty string are falsy. *)
Definition truthy (o : option string) : bool :=
  match o with
  | Some s => negb (String.eqb s "")
  | None => false
  end.

(** Python's [a or b] on [str | None]. *)
Definition por (a b : option string) : option string :=
  if truthy a then a else b.

(** [a or d] where the right operand is a plain [str]. *)
Definition por_str (a : option string) (d : string) : string :=
  match a with
  | Some s => if String.eqb s "" then d else s
  | None => d
  end.

(** ** Data model *)

(** [AccessToken] dataclass (googledrive.py). *)
Module AccessToken.
Record t := mk { token : string; expires_at : option datetime }.
End AccessToken.

(** [AccessToken.is_valid], with the clock reading passed in. *)
Definition is_valid (now : datetime) (tok : AccessToken.t) : bool :=
  match AccessToken.expires_at tok with
  | None => true
  | Some expires_at => now <? expires_at - seconds 60
  end.

(** Rows of [database/models.py].  The surrogate [id] and the
    created/updated timestamps are not modelled. *)
Module TokenCredential.
Record t := mk {
  account_id : string;
  access_token : option string;
  refresh_token : option string;
  expires_at : option datetime;
  scopes : option string;
  is_service_account : bool }.
End TokenCredential.

Module SyncCheckpoint.
Record t := mk {
  account_id : string;
  resource : string;
  cursor : option string;
  last_synced_at : option datetime }.
End SyncCheckpoint.

Module WatchChannel.
Record t := mk {
  channel_id : string;
  resource_id : option string;
  resource_uri : option string;
  expiration : option datetime;
  token : option string;
  account_id : string;
  kind : string }.
End WatchChannel.

(** [core/config.py], the settings the core reads. *)
Module Settings.
Record t := mk {
  googledrive_client_id : string;
  googledrive_client_secret : string;
  googledrive_refresh_token : option string;
  googledrive_service_account_key_path : option string;
  googledrive_scopes : list string;
  googledrive_default_account_id : string;
  connector_webhook_url : option string }.
End Settings.

(** ** JSON bodies

    A JSON object is read through the keys the connector looks up; a field
    is [None] when the key is missing (what [dict.get] returns). *)
Module TokenJson.
Record t := mk {
  access_token : option string;
  expires_in : option Z;
  refresh_token : option string;
  scope : option string;
  error : option string;
  error_description : option string }.
End TokenJson.

Record Change := { fileId : string }.

Module DriveJson.
Record t := mk {
  startPageToken : option string;
  newStartPageToken : option string;
  nextPageToken : option string;
  changes : option (list Change);
  resourceId : option string;
  resourceUri : option string;
  expiration : option Z }.
End DriveJson.

(** The dictionary [sync_changes] returns. *)
Module SyncResult.
Record t := mk {
  changes : list Change;
  cursor : option string;
  initialised : bool;
  has_more : bool }.
End SyncResult.

(** ** Exceptions *)

Inductive Payload :=
| PayNone
| PayText (text : string)
| PayToken (body : TokenJson.t)
| PayDrive (body : DriveJson.t).

(** [DriveRetriableError] is a subclass of [DriveAPIError]; [RetryError] is
    what tenacity raises when it gives up (no [reraise=True] is passed to
    [AsyncRetrying]), wrapping the exception of the last attempt. *)
Inductive exn :=
| DriveAPIError (message : string) (status_code : Z) (payload : Payload)
| DriveRetriableError (message : string) (status_code : Z) (payload : Payload)
| TransportError
| RetryError (last_attempt : exn)
| JSONDecodeError
| KeyError (key : string)
| ValueError (message : string)
| PermissionError (message : string)
| IntegrityError
| RefreshError.

(** [isinstance(exc, DriveAPIError)]. *)
Definition is_DriveAPIError (e : exn) : bool :=
  match e with
  | DriveAPIError _ _ _ | DriveRetriableError _ _ _ => true
  | _ => false
  end.

(** The [status_code] attribute, which only [DriveAPIError] instances have. *)
Definition exn_status_code (e : exn) : option Z :=
  match e with
  | DriveAPIError _ s _ | DriveRetriableError _ s _ => Some s
  | _ => None
  end.

(** [exc.__class__.__name__] for the two classes [_request] can catch. *)
Definition class_name (e : exn) : string :=
  match e with
  | DriveRetriableError _ _ _ => "DriveRetriableError"
  | _ => "DriveAPIError"
  end.

(** ** Requests and I/O events *)

(** The form posted to the token endpoint. *)
Module TokenForm.
Record t := mk {
  client_id : string;
  client_secret : string;
  grant_type : string;
  refresh_token : string;
  scope : option string }.
End TokenForm.

(** The body of a [changes.watch] registration. *)
Module WatchBody.
Record t := mk {
  id : string;
  type : string;
  address : string;
  token : string;
  ttl : Z }.
End WatchBody.

(** The Drive calls the core issues: method, path and parameters. *)
Inductive DriveCall :=
| GetStartPageToken
| ListChanges (pageToken : string) (pageSize : Z)
| ChangesWatch (pageToken : string) (body : WatchBody.t)
| ChannelsStop (id : string) (resourceId : option string).

Inductive DbOp :=
| SelectCredential (account_id : string)
| CommitCredential (account_id : string)
| SelectCheckpoint (account_id resource : string)
| CommitCheckpoint (account_id resource : string)
| SelectChannels
| SelectChannel (channel_id : string)
| InsertChannel (channel_id : string)
| UpdateChannel (channel_id : string)
| DeleteChannel (channel_id : string).

(** An HTTP exchange is logged with the status it received ([None]: the
    transport failed before a response arrived). *)
Inductive Event :=
| EvTokenPost (form : TokenForm.t) (status : option Z)
| EvServiceAccountRefresh (ok : bool)
| EvHttp (bearer : string) (call : DriveCall) (status : option Z)
| EvSleep (attempt_number : nat)
| EvObserve (call : DriveCall) (status_code : Z) (error_type : option string)
| EvDb (op : DbOp).

Module HttpResponse.
Record t (J : Type) := mk {
  status_code : Z;
  text : string;
  json : option J }.
Arguments mk {J}.
Arguments status_code {J}.
Arguments text {J}.
Arguments json {J}.
End HttpResponse.

(** ** The world and its environment *)

Record World := mkWorld {
  tokens : gmap string AccessToken.t;
  token_credentials : gmap string TokenCredential.t;
  sync_checkpoints : gmap (string * string) SyncCheckpoint.t;
  watch_channels : list WatchChannel.t;
  now : datetime;
  entropy_drawn : nat;
  trace : list Event }.

(** Oracles for everything outside the process.  Each sees the trace so
    far, so its answers may depend on the whole history. *)
Record Env := mkEnv {
  token_endpoint : list Event -> TokenForm.t -> option (HttpResponse.t TokenJson.t);
  service_account : list Event -> option (string * option datetime);
  drive_api : list Event -> string -> DriveCall -> option (HttpResponse.t DriveJson.t);
  token_hex : nat -> nat -> string;
  clock : list Event -> datetime -> datetime }.

(** ** The monad *)

Inductive Result (A : Type) :=
| Ok (a : A)
| Raise (e : exn).
Arguments Ok {A}.
Arguments Raise {A}.

Definition M (A : Type) : Type := World -> Result A * World.

Definition ret {A} (a : A) : M A := fun w => (Ok a, w).
Definition raise {A} (e : exn) : M A := fun w => (Raise e, w).
Definition bind {A B} (m : M A) (k : A -> M B) : M B :=
  fun w =>
    match m w with
    | (Ok a, w') => k a w'
    | (Raise e, w') => (Raise e, w')
    end.

Declare Scope drive_scope.
Delimit Scope drive_scope with drive.
Notation "x <- m ;; k" := (bind m (fun x => k))
  (at level 100, m at next level, right associativity) : drive_scope.
Notation "m ;; k" := (bind m (fun _ => k))
  (at level 100, right associativity) : drive_scope.
Local Open Scope drive_scope.

Definition gets {A} (f : World -> A) : M A := fun w => (Ok (f w), w).
Definition modify (f : World -> World) : M unit := fun w => (Ok tt, f w).

Definition set_tokens (f : gmap string AccessToken.t -> gmap string AccessToken.t)
    (w : World) : World :=
  mkWorld (f (tokens w)) (token_credentials w) (sync_checkpoints w)
          (watch_channels w) (now w) (entropy_drawn w) (trace w).

Definition set_token_credentials
    (f : gmap string TokenCredential.t -> gmap string TokenCredential.t)
    (w : World) : World :=
  mkWorld (tokens w) (f (token_credentials w)) (sync_checkpoints w)
          (watch_channels w) (now w) (entropy_drawn w) (trace w).

Definition set_sync_checkpoints
    (f : gmap (string * string) SyncCheckpoint.t -> gmap (string * string) SyncCheckpoint.t)
    (w : World) : World :=
  mkWorld (tokens w) (token_credentials w) (f (sync_checkpoints w))
          (watch_channels w) (now w) (entropy_drawn w) (trace w).

Definition set_watch_channels (f : list WatchChannel.t -> list WatchChannel.t)
    (w : World) : World :=
  mkWorld (tokens w) (token_credentials w) (sync_checkpoints w)
          (f (watch_channels w)) (now w) (entropy_drawn w) (trace w).

Definition set_now (t : datetime) (w : World) : World :=
  mkWorld (tokens w) (token_credentials w) (sync_checkpoints w)
          (watch_channels w) t (entropy_drawn w) (trace w).

Definition set_entropy_drawn (n : nat) (w : World) : World :=
  mkWorld (tokens w) (token_credentials w) (sync_checkpoints w)
          (watch_channels w) (now w) n (trace w).

Definition set_trace (f : list Event -> list Event) (w : World) : World :=
  mkWorld (tokens w) (token_credentials w) (sync_checkpoints w)
          (watch_channels w) (now w) (entropy_drawn w) (f (trace w)).

(** Log one event. *)
Definition emit (ev : Event) : M unit :=
  modify (set_trace (fun tr => tr ++ [ev])).

(** [datetime.now(timezone.utc)]. *)
Definition utcnow : M datetime := gets now.

(** [try: ... except Exception as e]: the outcome as a value. *)
Definition try {A} (m : M A) : M (Result A) :=
  fun w => let (r, w') := m w in (Ok r, w').

Definition is_some {A} (o : option A) : bool :=
  match o with Some _ => true | None => false end.

(** [" ".join(parts)]. *)
Definition join (sep : string) (parts : list string) : string :=
  String.concat sep parts.

(** [response.json()]. *)
Definition json {J} (response : HttpResponse.t J) : M J :=
  match HttpResponse.json response with
  | Some body => ret body
  | None => raise JSONDecodeError
  end.

(** The object graph of a running connector: the environment it talks to,
    its settings, whether the provider was built with a [TokenRepository],
    the [default_account_id] handed to [OAuthTokenProvider], the
    [account_id] handed to [GoogleDriveClient], and
    [email.utils.parsedate_to_datetime] ([None] when it raises). *)
Record Wiring := mkWiring {
  wiring_env : Env;
  wiring_settings : Settings.t;
  wiring_repository : bool;
  wiring_provider_account : option string;
  wiring_client_account : option string;
  wiring_parsedate : string -> option datetime }.

Section Connector.

Context (W : Wiring).
Local Abbreviation E := (wiring_env W).
Local Abbreviation settings := (wiring_settings W).
Local Abbreviation repository := (wiring_repository W).
Local Abbreviation provider_default_account_id := (wiring_provider_account W).
Local Abbreviation client_account_id := (wiring_client_account W).
Local Abbreviation parsedate_to_datetime := (wiring_parsedate W).

(** Time passes while the process waits for I/O. *)
Definition elapse : M unit :=
  fun w => (Ok tt, set_now (clock E (trace w) (now w)) w).

(** *** TokenRepository (token_store.py) *)

Definition get_credentials (account_id : string) : M (option TokenCredential.t) :=
  emit (EvDb (SelectCredential account_id));;
  gets (fun w => token_credentials w !! account_id).

Definition upsert_credentials (account_id access_token : string)
    (refresh_token : option string) (expires_in : Z)
    (scopes : option string) (is_service_account : bool) : M TokenCredential.t :=
  record <- get_credentials account_id;;
  t <- utcnow;;
  let expires_at := t + seconds expires_in in
  let record' :=
    match record with
    | Some r =>
        TokenCredential.mk
          (TokenCredential.account_id r)
          (Some access_token)
          (if truthy refresh_token then refresh_token
           else TokenCredential.refresh_token r)
          (Some expires_at)
          (if truthy scopes then scopes else TokenCredential.scopes r)
          is_service_account
    | None =>
        TokenCredential.mk account_id (Some access_token) refresh_token
          (Some expires_at) scopes is_service_account
    end in
  modify (set_token_credentials (insert account_id record'));;
  emit (EvDb (CommitCredential account_id));;
  ret record'.

Definition store_refresh_token (account_id refresh_token : string)
    (scopes : option string) : M TokenCredential.t :=
  record <- get_credentials account_id;;
  let record' :=
    match record with
    | Some r =>
        TokenCredential.mk
          (TokenCredential.account_id r)
          (TokenCredential.access_token r)
          (Some refresh_token)
          (TokenCredential.expires_at r)
          (if truthy scopes then scopes else TokenCredential.scopes r)
          (TokenCredential.is_service_account r)
    | None =>
        TokenCredential.mk account_id None (Some refresh_token) None scopes false
    end in
  modify (set_token_credentials (insert account_id record'));;
  emit (EvDb (CommitCredential account_id));;
  ret record'.

(** *** OAuthTokenProvider (googledrive.py) *)

(** [self._default_account_id], fixed by [__init__]. *)
Definition _default_account_id : string :=
  por_str provider_default_account_id
          (Settings.googledrive_default_account_id settings).

(** [acct = account_id or self._default_account_id]. *)
Definition resolve_account (account_id : option string) : string :=
  por_str account_id _default_account_id.

(** [_obtain_service_account_token]: a forced refresh against the
    identity provider. *)
Definition _obtain_service_account_token : M AccessToken.t :=
  creds <- gets (fun w => service_account E (trace w));;
  emit (EvServiceAccountRefresh (is_some creds));;
  elapse;;
  match creds with
  | Some (token, expiry) => ret (AccessToken.mk token expiry)
  | None => raise RefreshError
  end.

(** The POST to the token endpoint. *)
Definition post_token (form : TokenForm.t) : M (HttpResponse.t TokenJson.t) :=
  response <- gets (fun w => token_endpoint E (trace w) form);;
  emit (EvTokenPost form (HttpResponse.status_code <$> response));;
  elapse;;
  match response with
  | Some r => ret r
  | None => raise TransportError
  end.

(** [cached and cached.is_valid()]. *)
Definition cache_hit (t : datetime) (cached : option AccessToken.t) : option string :=
  match cached with
  | Some c => if is_valid t c then Some (AccessToken.token c) else None
  | None => None
  end.

(** [record and record.access_token and record.expires_at], then
    [access_token.is_valid()]. *)
Definition stored_hit (t : datetime) (record : option TokenCredential.t)
    : option AccessToken.t :=
  match record with
  | Some r =>
      match TokenCredential.access_token r, TokenCredential.expires_at r with
      | Some a, Some e =>
          if truthy (Some a) && is_valid t (AccessToken.mk a (Some e))
          then Some (AccessToken.mk a (Some e))
          else None
      | _, _ => None
      end
  | None => None
  end.

(** Service-account mode (lines 78-91). *)
Definition get_token_service_account (acct : string) : M string :=
  token <- _obtain_service_account_token;;
  modify (set_tokens (insert acct token));;
  match repository, AccessToken.expires_at token with
  | true, Some expires_at =>
      t <- utcnow;;
      let expires_in := int_total_seconds (expires_at - t) in
      upsert_credentials acct (AccessToken.token token) None
        (Z.max expires_in 0)
        (Some (join " " (Settings.googledrive_scopes settings))) true;;
      ret (AccessToken.token token)
  | _, _ => ret (AccessToken.token token)
  end.

Definition no_refresh_token : exn :=
  DriveAPIError "No refresh token configured for Google Drive connector" 401 PayNone.

(** The exchange itself (lines 102-169). *)
Definition exchange_refresh_token (acct : string)
    (record : option TokenCredential.t) : M string :=
  let '(refresh_token, scopes) :=
    match record with
    | Some r =>
        if truthy (TokenCredential.refresh_token r)
        then (TokenCredential.refresh_token r, TokenCredential.scopes r)
        else (None, None)
    | None => (None, None)
    end in
  let refresh_token :=
    if truthy refresh_token then refresh_token
    else Settings.googledrive_refresh_token settings in
  match refresh_token with
  | None => raise no_refresh_token
  | Some rt =>
      if String.eqb rt "" then raise no_refresh_token else
      let payload :=
        TokenForm.mk (Settings.googledrive_client_id settings)
                     (Settings.googledrive_client_secret settings)
                     "refresh_token" rt
                     (if truthy scopes then scopes else None) in
      response <- post_token payload;;
      if 400 <=? HttpResponse.status_code response then
        error_payload <- json response;;
        let error_desc :=
          match TokenJson.error_description error_payload with
          | Some d => d
          | None =>
              match TokenJson.error error_payload with
              | Some e => e
              | None => "Unknown error"
              end
          end in
        raise (DriveAPIError
                 (String.append "Failed to refresh Google Drive access token: " error_desc)
                 (HttpResponse.status_code response)
                 (PayToken error_payload))
      else
        data <- json response;;
        let expires_in := default 3600 (TokenJson.expires_in data) in
        match TokenJson.access_token data with
        | None => raise (KeyError "access_token")
        | Some access_token =>
            let refresh_from_response := por (TokenJson.refresh_token data) (Some rt) in
            let scopes_from_response := por (TokenJson.scope data) scopes in
            t <- utcnow;;
            let token := AccessToken.mk access_token (Some (t + seconds expires_in)) in
            modify (set_tokens (insert acct token));;
            (if repository
             then upsert_credentials acct access_token refresh_from_response
                    expires_in scopes_from_response false;; ret tt
             else ret tt);;
            ret (AccessToken.token token)
        end
  end.

(** Refresh-token mode (lines 93-169). *)
Definition get_token_refresh (acct : string) : M string :=
  record <- (if repository then get_credentials acct else ret None);;
  t <- utcnow;;
  match stored_hit t record with
  | Some access_token =>
      modify (set_tokens (insert acct access_token));;
      ret (AccessToken.token access_token)
  | None => exchange_refresh_token acct record
  end.

Definition get_token (account_id : option string) : M string :=
  let acct := resolve_account account_id in
  cached <- gets (fun w => tokens w !! acct);;
  t <- utcnow;;
  match cache_hit t cached with
  | Some token => ret token
  | None =>
      if truthy (Settings.googledrive_service_account_key_path settings)
      then get_token_service_account acct
      else get_token_refresh acct
  end.

Definition invalidate (account_id : option string) : M unit :=
  modify (set_tokens (delete (resolve_account account_id))).

(** *** GoogleDriveClient (googledrive.py) *)

(** [self._account_id], fixed by [__init__]. *)
Definition _account_id : string :=
  por_str client_account_id (Settings.googledrive_default_account_id settings).

(** [self._client.request(...)] with the bearer header. *)
Definition send (bearer : string) (call : DriveCall) : M (HttpResponse.t DriveJson.t) :=
  response <- gets (fun w => drive_api E (trace w) bearer call);;
  emit (EvHttp bearer call (HttpResponse.status_code <$> response));;
  elapse;;
  match response with
  | Some r => ret r
  | None => raise TransportError
  end.

(** The two locals of [_request] that outlive an attempt. *)
Record Locals := mkLocals { status_code : Z; error_type : option string }.

(** The body of [with attempt:] (lines 257-290): the outcome of one
    attempt together with the locals it leaves behind. *)
Definition attempt (bearer : string) (call : DriveCall) (loc : Locals)
    : M (Result (HttpResponse.t DriveJson.t) * Locals) :=
  r <- try (send bearer call);;
  match r with
  | Raise e => ret (Raise e, loc)
  | Ok response =>
      let status := HttpResponse.status_code response in
      if status =? 401 then
        invalidate (Some _account_id);;
        ret (Raise (DriveRetriableError "Unauthorized request" 401
                      (PayText (HttpResponse.text response))),
             mkLocals status (Some "unauthorized"))
      else if (status =? 429) || (500 <=? status) then
        ret (Raise (DriveRetriableError "Drive API throttled or server error" status
                      (PayText (HttpResponse.text response))),
             mkLocals status (Some "retryable"))
      else if 400 <=? status then
        ret (match HttpResponse.json response with
             | Some body => Raise (DriveAPIError "Drive API returned error" status (PayDrive body))
             | None => Raise JSONDecodeError
             end,
             mkLocals status (Some "client_error"))
      else ret (Ok response, mkLocals status (error_type loc))
  end.

(** [retry_if_exception_type((httpx.TransportError, DriveRetriableError))]. *)
Definition should_retry (e : exn) : bool :=
  match e with
  | TransportError | DriveRetriableError _ _ _ => true
  | _ => false
  end.

(** [stop_after_attempt(5)]. *)
Definition stop_after_attempt : nat := 5.

(** [async for attempt in retry: with attempt: ...] as tenacity runs it:
    a result is returned, an exception the predicate rejects is re-raised
    as it is, a retriable one is retried after a sleep until the stop
    condition holds, and then [RetryError] is raised around it. *)
Fixpoint retrying (retries_left attempt_number : nat) (bearer : string)
    (call : DriveCall) (loc : Locals)
    : M (Result (HttpResponse.t DriveJson.t) * Locals) :=
  outcome <- attempt bearer call loc;;
  match outcome with
  | (Ok response, loc') => ret (Ok response, loc')
  | (Raise e, loc') =>
      if should_retry e then
        match retries_left with
        | O => ret (Raise (RetryError e), loc')
        | S k =>
            emit (EvSleep attempt_number);;
            elapse;;
            retrying k (S attempt_number) bearer call loc'
        end
      else ret (Raise e, loc')
  end.

(** [_request] (lines 223-299).  The token is fetched once, before the
    retry loop; [observe_drive_request] runs in the [finally] block. *)
Definition _request (call : DriveCall) : M (HttpResponse.t DriveJson.t) :=
  token <- get_token (Some _account_id);;
  outcome <- retrying (stop_after_attempt - 1) 1 token call (mkLocals 500 None);;
  match outcome with
  | (Ok response, loc) =>
      emit (EvObserve call (status_code loc) (error_type loc));;
      ret response
  | (Raise e, loc) =>
      let loc :=
        match exn_status_code e with
        | Some s => mkLocals s (por (error_type loc) (Some (class_name e)))
        | None => loc
        end in
      emit (EvObserve call (status_code loc) (error_type loc));;
      raise e
  end.

Definition get_start_page_token : M string :=
  response <- _request GetStartPageToken;;
  data <- json response;;
  match DriveJson.startPageToken data with
  | Some t => ret t
  | None => raise (KeyError "startPageToken")
  end.

Definition list_changes (page_token : string) (page_size : Z) : M DriveJson.t :=
  response <- _request (ListChanges page_token (Z.min (Z.max page_size 1) 1000));;
  json response.

Definition start_changes_watch (page_token : string) (body : WatchBody.t)
    : M DriveJson.t :=
  response <- _request (ChangesWatch page_token body);;
  json response.

Definition stop_channel (channel_id : string) (resource_id : option string) : M unit :=
  _request (ChannelsStop channel_id (if truthy resource_id then resource_id else None));;
  ret tt.

(** *** SyncStateService (sync_state.py), bound to the default account *)

Definition sync_account_id : string := Settings.googledrive_default_account_id settings.

Definition get_checkpoint (resource : string) : M (option SyncCheckpoint.t) :=
  emit (EvDb (SelectCheckpoint sync_account_id resource));;
  gets (fun w => sync_checkpoints w !! (sync_account_id, resource)).

Definition upsert_checkpoint (resource : string) (cursor : option string)
    (last_synced_at : option datetime) : M SyncCheckpoint.t :=
  checkpoint <- get_checkpoint resource;;
  let checkpoint' :=
    match checkpoint with
    | Some c =>
        SyncCheckpoint.mk (SyncCheckpoint.account_id c) (SyncCheckpoint.resource c)
                          cursor last_synced_at
    | None => SyncCheckpoint.mk sync_account_id resource cursor last_synced_at
    end in
  modify (set_sync_checkpoints (insert (sync_account_id, resource) checkpoint'));;
  emit (EvDb (CommitCheckpoint sync_account_id resource));;
  ret checkpoint'.

(** *** DriveFileService.sync_changes (files.py) *)

(** The cursor of a checkpoint that passes
    [not (not checkpoint or not checkpoint.cursor)]. *)
Definition held_cursor (checkpoint : option SyncCheckpoint.t) : option string :=
  match checkpoint with
  | Some c => if truthy (SyncCheckpoint.cursor c) then SyncCheckpoint.cursor c else None
  | None => None
  end.

Definition sync_changes (resource : string) (page_size : Z) : M SyncResult.t :=
  checkpoint <- get_checkpoint resource;;
  match held_cursor checkpoint with
  | None =>
      start_token <- get_start_page_token;;
      t <- utcnow;;
      upsert_checkpoint resource (Some start_token) (Some t);;
      ret (SyncResult.mk [] (Some start_token) true false)
  | Some cursor =>
      payload <- list_changes cursor page_size;;
      let new_cursor :=
        por (por (DriveJson.newStartPageToken payload) (DriveJson.nextPageToken payload))
            (Some cursor) in
      t <- utcnow;;
      upsert_checkpoint resource new_cursor (Some t);;
      ret (SyncResult.mk (default [] (DriveJson.changes payload)) new_cursor false
                         (truthy (DriveJson.nextPageToken payload)))
  end.

(** *** WatchService (watch.py) *)

Definition find_channel (channel_id : string) (rows : list WatchChannel.t)
    : option WatchChannel.t :=
  List.find (fun c => String.eqb (WatchChannel.channel_id c) channel_id) rows.

Definition list_channels : M (list WatchChannel.t) :=
  emit (EvDb SelectChannels);;
  gets watch_channels.

Definition get_channel (channel_id : string) : M (option WatchChannel.t) :=
  emit (EvDb (SelectChannel channel_id));;
  gets (fun w => find_channel channel_id (watch_channels w)).

(** [secrets.token_hex(nbytes)]. *)
Definition secrets_token_hex (nbytes : nat) : M string :=
  n <- gets entropy_drawn;;
  modify (set_entropy_drawn (S n));;
  ret (token_hex E n nbytes).

(** [session.add(record); session.commit()] for a new row; [channel_id]
    is declared unique. *)
Definition add_channel (record : WatchChannel.t) : M unit :=
  existing <- gets (fun w => find_channel (WatchChannel.channel_id record) (watch_channels w));;
  match existing with
  | Some _ => raise IntegrityError
  | None =>
      modify (set_watch_channels (fun rows => rows ++ [record]));;
      emit (EvDb (InsertChannel (WatchChannel.channel_id record)))
  end.

Definition register_changes_watch (ttl_seconds : Z) : M WatchChannel.t :=
  if truthy (Settings.connector_webhook_url settings) then
    channel_id <- secrets_token_hex 16;;
    token <- secrets_token_hex 12;;
    let payload :=
      WatchBody.mk channel_id "web_hook"
                   (default "" (Settings.connector_webhook_url settings))
                   token ttl_seconds in
    start_token <- get_start_page_token;;
    response <- start_changes_watch start_token payload;;
    let expiration_ms := default 0 (DriveJson.expiration response) in
    let expiration :=
      if expiration_ms =? 0 then None else Some (expiration_ms * 1000) in
    let record :=
      WatchChannel.mk channel_id (DriveJson.resourceId response)
                      (DriveJson.resourceUri response) expiration (Some token)
                      (Settings.googledrive_default_account_id settings) "changes" in
    add_channel record;;
    ret record
  else raise (ValueError "CONNECTOR_WEBHOOK_URL must be configured to register watches").

(** The table once [session.delete(record)] is committed. *)
Definition without (channel_id : string) (rows : list WatchChannel.t)
    : list WatchChannel.t :=
  List.filter (fun c => negb (String.eqb (WatchChannel.channel_id c) channel_id)) rows.

Definition delete_watch (channel_id : string) (resource_id : option string) : M unit :=
  record <- get_channel channel_id;;
  stop_channel channel_id
    (por resource_id
         (match record with Some r => WatchChannel.resource_id r | None => None end));;
  match record with
  | Some _ =>
      modify (set_watch_channels (without channel_id));;
      emit (EvDb (DeleteChannel channel_id))
  | None => ret tt
  end.

(** The fields of a webhook delivery that [upsert_channel] reads. *)
Record Delivery := mkDelivery {
  d_id : option string;
  d_resourceId : option string;
  d_resourceUri : option string;
  d_kind : option string;
  d_expiration_header : option string }.

Definition upsert_channel (data : Delivery) : M WatchChannel.t :=
  if truthy (d_id data) then
    let channel_id := default "" (d_id data) in
    record <- get_channel channel_id;;
    let base :=
      match record with
      | Some r => r
      | None =>
          WatchChannel.mk channel_id None None None None
                          (Settings.googledrive_default_account_id settings)
                          (default "changes" (d_kind data))
      end in
    let expiration :=
      if truthy (d_expiration_header data)
      then parsedate_to_datetime (default "" (d_expiration_header data))
      else WatchChannel.expiration base in
    let record' :=
      WatchChannel.mk (WatchChannel.channel_id base) (d_resourceId data)
                      (d_resourceUri data) expiration (WatchChannel.token base)
                      (WatchChannel.account_id base) (WatchChannel.kind base) in
    modify (set_watch_channels
              (fun rows =>
                 match record with
                 | Some _ =>
                     map (fun c => if String.eqb (WatchChannel.channel_id c) channel_id
                                   then record' else c) rows
                 | None => rows ++ [record']
                 end));;
    emit (EvDb (match record with
                | Some _ => UpdateChannel channel_id
                | None => InsertChannel channel_id
                end));;
    ret record'
  else raise (ValueError "Channel id missing from webhook notification").

Definition ensure_valid_channel (channel_id : string) (token : option string)
    : M WatchChannel.t :=
  record <- get_channel channel_id;;
  match record with
  | None => raise (PermissionError "Unknown channel")
  | Some r =>
      if truthy (WatchChannel.token r)
         && negb (bool_decide (token = WatchChannel.token r))
      then raise (PermissionError "Invalid channel token")
      else ret r
  end.

(** The test that makes the scan [continue]:
    [channel.expiration is None or channel.expiration - now > threshold]. *)
Definition skip_renewal (t : datetime) (threshold : timedelta)
    (channel : WatchChannel.t) : bool :=
  match WatchChannel.expiration channel with
  | None => true
  | Some expiration => threshold <? expiration - t
  end.

(** The [for channel in channels] loop, threading the local [renewed]. *)
Fixpoint renew_loop (t : datetime) (threshold : timedelta) (ttl_seconds : Z)
    (channels : list WatchChannel.t) (renewed : list string) : M (list string) :=
  match channels with
  | [] => ret renewed
  | channel :: rest =>
      if skip_renewal t threshold channel
      then renew_loop t threshold ttl_seconds rest renewed
      else
        delete_watch (WatchChannel.channel_id channel)
                     (WatchChannel.resource_id channel);;
        new_channel <- register_changes_watch ttl_seconds;;
        renew_loop t threshold ttl_seconds rest
                   (renewed ++ [WatchChannel.channel_id new_channel])
  end.

Definition renew_channels (threshold : timedelta) (ttl_seconds : Z) : M (list string) :=
  t <- utcnow;;
  channels <- list_channels;;
  renew_loop t threshold ttl_seconds channels [].

End Connector.

(** ** Reading the trace *)

(** The HTTP exchanges with the Drive API, in order, each with the status
    it received. *)
Definition http_log (tr : list Event) : list (DriveCall * option Z) :=
  omap (fun ev => match ev with
                  | EvHttp _ call status => Some (call, status)
                  | _ => None
                  end) tr.

(** [_request] returns the response of an exchange exactly when its
    status is below 400. *)
Definition succeeded (status : option Z) : bool :=
  match status with
  | Some s => s <? 400
  | None => false
  end.

(** The calls that were answered successfully, in order. *)
Definition successful_calls (tr : list Event) : list DriveCall :=
  map fst (List.filter (fun x => succeeded (snd x)) (http_log tr)).

(** The bearer tokens presented to the Drive API, in order. *)
Definition bearers (tr : list Event) : list string :=
  omap (fun ev => match ev with
                  | EvHttp bearer _ _ => Some bearer
                  | _ => None
                  end) tr.

(** Token exchanges: posts to the token endpoint and service-account
    refreshes. *)
Definition exchange_log (tr : list Event) : list Event :=
  omap (fun ev => match ev with
                  | EvTokenPost _ _ | EvServiceAccountRefresh _ => Some ev
                  | _ => None
                  end) tr.

Definition exchanges (tr : list Event) : nat := length (exchange_log tr).

(** [m] never changes what [f] observes of the world. *)
Definition preserves {A X} (f : World -> X) (m : M A) : Prop :=
  forall w, f (snd (m w)) = f w.

(** [f] does not see an event of kind [P] being logged. *)
Definition event_blind {X} (f : World -> X) (P : Event -> Prop) : Prop :=
  forall ev w, P ev -> f (set_trace (fun tr => tr ++ [ev]) w) = f w.

Definition not_http (ev : Event) : Prop :=
  match ev with EvHttp _ _ _ => False | _ => True end.

Definition any_event (ev : Event) : Prop := True.

(** The events of a retry loop: exchanges for the one call, all with the
    one bearer token, and the sleeps between them. *)
Definition retry_event (bearer : string) (call : DriveCall) (ev : Event) : Prop :=
  match ev with
  | EvHttp b c _ => b = bearer /\ c = call
  | EvSleep _ => True
  | _ => False
  end.

Definition is_ok {A} (r : Result A) : bool :=
  match r with Ok _ => true | Raise _ => false end.

(** Between [w] and [w'] the process talked to Drive about [call] only,
    at most five times, and if [ok] holds exactly one of these exchanges
    succeeded. *)
Definition one_call (call : DriveCall) (ok : bool) (w w' : World) : Prop :=
  exists log,
    http_log (trace w') = http_log (trace w) ++ log /\
    Forall (fun x => fst x = call) log /\
    (length log <= 5)%nat /\
    (ok = true ->
     successful_calls (trace w') = successful_calls (trace w) ++ [call]).

(** The world once [get_checkpoint] has run its query. *)
Definition selected (W : Wiring) (resource : string) (w : World) : World :=
  snd (get_checkpoint W resource w).

(** The cursor rule in the words of the specification: the response's
    new-start-token if present, else its next-page-token. *)
Definition spec_new_cursor (payload : DriveJson.t) : option string :=
  match DriveJson.newStartPageToken payload with
  | Some t => Some t
  | None => DriveJson.nextPageToken payload
  end.

(** The cursor rule of [sync_changes]: an empty token counts as absent,
    and the held cursor is kept when the response carries no token. *)
Definition next_cursor (cursor : string) (payload : DriveJson.t) : option string :=
  if truthy (DriveJson.newStartPageToken payload) then DriveJson.newStartPageToken payload
  else if truthy (DriveJson.nextPageToken payload) then DriveJson.nextPageToken payload
  else Some cursor.

(** A caller asking for the account's token once at each of the given
    clock readings, one call after the other. *)
Fixpoint get_tokens (W : Wiring) (account_id : option string) (times : list datetime)
    : M (list (Result string)) :=
  match times with
  | [] => ret []
  | t :: rest =>
      modify (set_now t);;
      r <- try (get_token W account_id);;
      rs <- get_tokens W account_id rest;;
      ret (r :: rs)
  end.

(** A channel is due for renewal when it has an expiration that is already
    past or within [threshold] of the clock reading [t]. *)
Definition due_for_renewal (t : datetime) (threshold : timedelta)
    (channel : WatchChannel.t) : bool :=
  match WatchChannel.expiration channel with
  | Some expiration => expiration - t <=? threshold
  | None => false
  end.



(** The endpoint answers [status] to every exchange for [call] made with
    [bearer], whatever happened before. *)
Definition always_answers (W : Wiring) (bearer : string) (call : DriveCall)
    (status : Z) : Prop :=
  forall tr, exists response,
    drive_api (wiring_env W) tr bearer call = Some response /\
    HttpResponse.status_code response = status.

(** The exception [_request] raises for a 503 answer with body [text]. *)
Definition throttled (text : string) : exn :=
  DriveRetriableError "Drive API throttled or server error" 503 (PayText text).

(** The channels whose [channels.stop] call succeeded, and the channel
    ids whose [changes.watch] registration succeeded, in order. *)
Definition stops (calls : list DriveCall) : list string :=
  omap (fun call => match call with
                    | ChannelsStop id _ => Some id
                    | _ => None
                    end) calls.

Definition watches (calls : list DriveCall) : list string :=
  omap (fun call => match call with
                    | ChangesWatch _ body => Some (WatchBody.id body)
                    | _ => None
                    end) calls.

Definition stopped (tr : list Event) : list string := stops (successful_calls tr).
Definition watched (tr : list Event) : list string := watches (successful_calls tr).

Definition channel_ids (rows : list WatchChannel.t) : list string :=
  map WatchChannel.channel_id rows.

(** ** Scenarios

    Concrete environments and worlds on which the statements below are
    evaluated. *)

Definition demo_settings : Settings.t :=
  Settings.mk "client" "secret" (Some "refresh") None
              ["https://www.googleapis.com/auth/drive.readonly"]
              "default" (Some "https://example.com/webhook").

(** A token endpoint that issues a new access token, good for an hour,
    at every exchange: "abc123" first, "def456" from then on. *)
Definition demo_token_endpoint (tr : list Event) (form : TokenForm.t)
    : option (HttpResponse.t TokenJson.t) :=
  Some (HttpResponse.mk 200 ""
          (Some (TokenJson.mk
                   (Some (match exchanges tr with O => "abc123" | _ => "def456" end))
                   (Some 3600) None None None None))).

Definition json_body (b : DriveJson.t) : option (HttpResponse.t DriveJson.t) :=
  Some (HttpResponse.mk 200 "" (Some b)).

Definition no_fields : DriveJson.t :=
  DriveJson.mk None None None None None None None.

(** A Drive API in working order: the start token is "start-token"; the
    page after it holds one change and ends the feed at "cursor-2"; the
    page after "cursor-2" is empty and names no token; any other page
    token is unknown (404); watches are granted with an expiration;
    channels stop, except channel "b", which Drive does not know. *)
Definition demo_drive (tr : list Event) (bearer : string) (call : DriveCall)
    : option (HttpResponse.t DriveJson.t) :=
  match call with
  | GetStartPageToken =>
      json_body (DriveJson.mk (Some "start-token") None None None None None None)
  | ListChanges page_token _ =>
      if String.eqb page_token "start-token" then
        json_body (DriveJson.mk None (Some "cursor-2") None
                                (Some [{| fileId := "abc" |}]) None None None)
      else if String.eqb page_token "cursor-2" then
        json_body (DriveJson.mk None None None (Some []) None None None)
      else Some (HttpResponse.mk 404 "not found" (Some no_fields))
  | ChangesWatch _ body =>
      json_body (DriveJson.mk None None None None (Some "resource-1")
                              (Some "https://example.com") (Some 90000000))
  | ChannelsStop id _ =>
      if String.eqb id "b"
      then Some (HttpResponse.mk 404 "not found" (Some no_fields))
      else Some (HttpResponse.mk 204 "" None)
  end.

(** The random generator: a fixed supply of distinct tokens. *)
Definition demo_token_hex (drawn nbytes : nat) : string :=
  match drawn with
  | 0%nat => "c0" | 1%nat => "s0" | 2%nat => "c1" | 3%nat => "s1"
  | 4%nat => "c2" | 5%nat => "s2" | _ => "c9"
  end.

(** Every I/O takes one second. *)
Definition demo_clock (tr : list Event) (t : datetime) : datetime := t + seconds 1.

Definition demo_env : Env :=
  mkEnv demo_token_endpoint (fun _ => None) demo_drive demo_token_hex demo_clock.

(** The production wiring: refresh-token mode with a repository. *)
Definition demo : Wiring :=
  mkWiring demo_env demo_settings true None None (fun _ => None).

(** The same connector built without a repository. *)
Definition demo_no_repository : Wiring :=
  mkWiring demo_env demo_settings false None None (fun _ => None).

(** A Drive API that answers 503 to everything, and one that answers 401
    to everything. *)
Definition outage : Wiring :=
  mkWiring (mkEnv demo_token_endpoint (fun _ => None)
                  (fun _ _ _ => Some (HttpResponse.mk 503 "backend error" None))
                  demo_token_hex demo_clock)
           demo_settings true None None (fun _ => None).

Definition revoked : Wiring :=
  mkWiring (mkEnv demo_token_endpoint (fun _ => None)
                  (fun _ _ _ => Some (HttpResponse.mk 401 "unauthorized" None))
                  demo_token_hex demo_clock)
           demo_settings true None None (fun _ => None).

Definition revoked_no_repository : Wiring :=
  mkWiring (wiring_env revoked) demo_settings false None None (fun _ => None).

(** The connector with no webhook address configured. *)
Definition demo_no_webhook : Wiring :=
  mkWiring demo_env
           (Settings.mk "client" "secret" (Some "refresh") None [] "default" None)
           true None None (fun _ => None).

(** A fresh process with empty tables, at clock reading [t]. *)
Definition fresh (t : datetime) : World := mkWorld ∅ ∅ ∅ [] t 0 [].

Definition with_checkpoint (cursor : string) (w : World) : World :=
  set_sync_checkpoints
    (insert ("default", "files") (SyncCheckpoint.mk "default" "files" (Some cursor) None)) w.

Definition channel (id : string) (expiration : option datetime)
    (secret : option string) : WatchChannel.t :=
  WatchChannel.mk id (Some "resource-0") None expiration secret "default" "changes".

(** Worlds: a resource whose cursor Drive no longer knows; a resource at
    the start token; a resource at the end of the feed. *)
Definition stuck : World := with_checkpoint "gone" (fresh 0).
Definition started : World := with_checkpoint "start-token" (fresh 0).
Definition caught_up : World := with_checkpoint "cursor-2" (fresh 0).

(** The page Drive serves after "start-token", and the one after
    "cursor-2". *)
Definition first_page : DriveJson.t :=
  DriveJson.mk None (Some "cursor-2") None (Some [{| fileId := "abc" |}]) None None None.
Definition empty_page : DriveJson.t :=
  DriveJson.mk None None None (Some []) None None None.

(** At ten o'clock, three channels expiring at nine, at half past ten and
    at eight in the evening; the second has no stored secret. *)
Definition three_channels : World :=
  set_watch_channels
    (fun _ => [channel "a" (Some (hours 9)) (Some "sa");
               channel "b2" (Some (hours 10 + minutes 30)) None;
               channel "c" (Some (hours 20)) (Some "sc")])
    (fresh (hours 10)).


(** A store that holds a refresh token for the default account. *)
Definition with_credential : World :=
  set_token_credentials
    (insert "default"
       (TokenCredential.mk "default" (Some "old-access") (Some "stored-refresh")
                           (Some 0) (Some "scope") false))
    (fresh 0).


(** Whether some exchange of a log was answered 401. *)
Definition unauthorized (log : list (DriveCall * option Z)) : bool :=
  existsb (fun x => bool_decide (snd x = Some 401)) log.


(** ** Reading [get_token]

    The credential row [get_token] looks at on a cache miss, the world once
    it has looked, and the refresh token, scopes and form of the exchange
    that follows (lines 93-122). *)
Definition stored_record (W : Wiring) (acct : string) (w : World)
    : option TokenCredential.t :=
  if wiring_repository W then token_credentials w !! acct else None.

Definition looked_up (W : Wiring) (acct : string) (w : World) : World :=
  if wiring_repository W
  then set_trace (fun tr => tr ++ [EvDb (SelectCredential acct)]) w
  else w.

Definition stored_refresh_token (record : option TokenCredential.t) : option string :=
  match record with
  | Some r =>
      if truthy (TokenCredential.refresh_token r)
      then TokenCredential.refresh_token r else None
  | None => None
  end.

Definition stored_scopes (record : option TokenCredential.t) : option string :=
  match record with
  | Some r =>
      if truthy (TokenCredential.refresh_token r)
      then TokenCredential.scopes r else None
  | None => None
  end.

Definition chosen_refresh_token (W : Wiring) (record : option TokenCredential.t)
    : option string :=
  if truthy (stored_refresh_token record) then stored_refresh_token record
  else Settings.googledrive_refresh_token (wiring_settings W).

Definition refresh_form (W : Wiring) (record : option TokenCredential.t) (rt : string)
    : TokenForm.t :=
  TokenForm.mk (Settings.googledrive_client_id (wiring_settings W))
               (Settings.googledrive_client_secret (wiring_settings W))
               "refresh_token" rt
               (if truthy (stored_scopes record) then stored_scopes record else None).

(** The posts to the token endpoint, in order. *)
Definition token_posts (tr : list Event) : list (TokenForm.t * option Z) :=
  omap (fun ev => match ev with
                  | EvTokenPost form status => Some (form, status)
                  | _ => None
                  end) tr.


(** The metrics records ([observe_drive_request]), in order. *)
Definition observations (tr : list Event) : list (DriveCall * Z * option string) :=
  omap (fun ev => match ev with
                  | EvObserve call status error_type => Some (call, status, error_type)
                  | _ => None
                  end) tr.

Definition not_observe (ev : Event) : Prop :=
  match ev with EvObserve _ _ _ => False | _ => True end.


(** ** The webhook endpoint (v1/routers/webhooks.py)

    What the handler answers: the response it returns, or the
    [HTTPException] it raises, which FastAPI turns into a response with
    that status. *)
Inductive Reply :=
| Response (status_code : Z)
| HTTPException (status_code : Z) (detail : string).

(** [googledrive_webhook]: [url] is [str(request.url)], the other
    arguments are the headers; a header that is absent is [None], or the
    empty string for [X-Goog-Resource-State]. *)
Definition googledrive_webhook (W : Wiring) (url : string) (channel_id : option string)
    (resource_state : string) (resource_id channel_token channel_expiration : option string)
    : M Reply :=
  match channel_id with
  | None => ret (HTTPException 400 "Missing channel header")
  | Some channel_id =>
      r <- try (ensure_valid_channel channel_id channel_token;;
                upsert_channel W (mkDelivery (Some channel_id) resource_id (Some url)
                                             (Some resource_state) channel_expiration));;
      match r with
      | Ok _ => ret (Response 204)
      | Raise (PermissionError message) => ret (HTTPException 403 message)
      | Raise e => raise e
      end
  end.

(** The row of a known channel after a delivery has been recorded. *)
Definition delivered (W : Wiring) (r : WatchChannel.t) (url : string)
    (resource_id channel_expiration : option string) : WatchChannel.t :=
  WatchChannel.mk (WatchChannel.channel_id r) resource_id (Some url)
                  (if truthy channel_expiration
                   then wiring_parsedate W (default "" channel_expiration)
                   else WatchChannel.expiration r)
                  (WatchChannel.token r) (WatchChannel.account_id r) (WatchChannel.kind r).

(** The resource id [delete_watch] passes to [stop_channel], as Drive gets it. *)
Definition stop_resource_id (resource_id : option string) (record : option WatchChannel.t)
    : option string :=
  let rid := por resource_id
                 (match record with Some r => WatchChannel.resource_id r | None => None end) in
  if truthy rid then rid else None.


(** ** Query parameters and request bodies

    The values of the dictionaries the client sends as query parameters
    and JSON bodies. *)
Inductive pyval :=
| PInt (n : Z)
| PStr (s : string)
| PBool (b : bool).

(** Truthiness of an [Iterable[str] | None] given as a list. *)
Definition truthy_list {A} (o : option (list A)) : bool :=
  match o with
  | Some (_ :: _) => true
  | _ => false
  end.

Definition folder_filter : string := "mimeType!='application/vnd.google-apps.folder'".

Definition default_fields : list string :=
  ["files(id,name,mimeType,modifiedTime,ownedByMe,parents,size,webViewLink,iconLink)";
   "nextPageToken"].

(** [GoogleDriveClient.list_files], the [params] it builds (googledrive.py,
    lines 321-352) before the request is sent. *)
Definition list_files_params (page_size : Z) (page_token q : option string)
    (fields : option (list string)) (include_folders : bool)
    (corpora drive_id : option string) (include_items_from_all_drives : bool)
    : gmap string pyval :=
  let params : gmap string pyval :=
    {[ "pageSize" := PInt (Z.min (Z.max page_size 1) 1000) ]} in
  let params :=
    if truthy page_token then <["pageToken" := PStr (default "" page_token)]> params
    else params in
  let params :=
    if truthy q then <["q" := PStr (default "" q)]> params else params in
  let params :=
    if negb include_folders
    then <["q" := PStr (folder_filter
                          ++ (if truthy q then " and " ++ default "" q else ""))]> params
    else params in
  let params :=
    <["fields" := PStr (if truthy_list fields
                        then "files(" ++ join "," (default [] fields) ++ ")"
                        else join "," default_fields)]> params in
  let effective_corpora :=
    if truthy drive_id && negb (truthy corpora) then Some "drive" else corpora in
  let params :=
    if truthy effective_corpora
    then <["corpora" := PStr (default "" effective_corpora)]> params
    else params in
  let params :=
    if truthy drive_id then <["driveId" := PStr (default "" drive_id)]> params
    else params in
  if bool_decide (effective_corpora = Some "allDrives")
     || bool_decide (effective_corpora = Some "drive")
     || truthy drive_id || include_items_from_all_drives
  then <["includeItemsFromAllDrives" := PBool true]>
         (<["supportsAllDrives" := PBool true]> params)
  else <["includeItemsFromAllDrives" := PBool false]>
         (<["supportsAllDrives" := PBool false]> params).

(** The client call a permission method ends in, with its arguments. *)
Inductive PermissionCall :=
| ListPermissions (file_id : string)
| CreatePermission (file_id : string) (body : gmap string pyval)
                    (send_notification_email : bool)
| UpdatePermission (file_id permission_id : string) (body : gmap string pyval).

(** [{**d}] inside a dictionary display: the entries of [d] are written
    over what the display holds so far. *)
Definition unpack (d base : gmap string pyval) : gmap string pyval := d ∪ base.

(** *** DriveFileService (files.py, lines 142-181) *)
Module DriveFileService.

Definition grant_permission (file_id role type_ : string)
    (email_address domain : option string) (allow_file_discovery : option bool)
    (send_notification_email : bool) : PermissionCall :=
  CreatePermission file_id
    (unpack (match allow_file_discovery with
             | Some b => {[ "allowFileDiscovery" := PBool b ]}
             | None => ∅
             end)
       (unpack (if truthy domain then {[ "domain" := PStr (default "" domain) ]} else ∅)
          (unpack (if truthy email_address
                   then {[ "emailAddress" := PStr (default "" email_address) ]} else ∅)
             (<["type" := PStr type_]> (<["role" := PStr role]> ∅)))))
    send_notification_email.

Definition update_permission (file_id permission_id : string) (role : option string)
    (allow_file_discovery : option bool) : PermissionCall :=
  let body : gmap string pyval := ∅ in
  let body := if truthy role then <["role" := PStr (default "" role)]> body else body in
  let body :=
    match allow_file_discovery with
    | Some b => <["allowFileDiscovery" := PBool b]> body
    | None => body
    end in
  UpdatePermission file_id permission_id body.

End DriveFileService.

(** *** PermissionService (permissions.py, lines 23-68) *)
Module PermissionService.

Definition grant_permission (file_id role type_ : string)
    (email_address domain : option string) (allow_file_discovery : option bool)
    (send_notification_email : bool) : PermissionCall :=
  let body : gmap string pyval := <["type" := PStr type_]> (<["role" := PStr role]> ∅) in
  let body :=
    if truthy email_address
    then <["emailAddress" := PStr (default "" email_address)]> body else body in
  let body :=
    if truthy domain then <["domain" := PStr (default "" domain)]> body else body in
  let body :=
    match allow_file_discovery with
    | Some b => <["allowFileDiscovery" := PBool b]> body
    | None => body
    end in
  CreatePermission file_id body send_notification_email.

Definition update_permission (file_id permission_id : string) (role : option string)
    (allow_file_discovery : option bool) : PermissionCall :=
  let body : gmap string pyval := ∅ in
  let body := if truthy role then <["role" := PStr (default "" role)]> body else body in
  let body :=
    match allow_file_discovery with
    | Some b => <["allowFileDiscovery" := PBool b]> body
    | None => body
    end in
  if bool_decide (body = ∅) then ListPermissions file_id
  else UpdatePermission file_id permission_id body.

End PermissionService.

(** ** The download audit (sync_state.py, lines 50-107)

    Rows of [download_audit]; the table holds them in insertion order
    together with the next value of its autoincrement key. *)
Module DownloadAudit.
Record t := mk {
  id : Z;
  account_id : string;
  file_id : string;
  file_name : option string;
  mime_type : option string;
  bytes_downloaded : Z;
  checksum : option string;
  status : string;
  error : option string;
  completed_at : option datetime }.
End DownloadAudit.

Record AuditTable := mkAuditTable {
  audit_rows : list DownloadAudit.t;
  audit_next_id : Z }.

Definition record_download_start (account_id file_id : string)
    (file_name mime_type checksum : option string) (table : AuditTable)
    : DownloadAudit.t * AuditTable :=
  let record :=
    DownloadAudit.mk (audit_next_id table) account_id file_id file_name mime_type
                     0 checksum "started" None None in
  (record, mkAuditTable (audit_rows table ++ [record]) (audit_next_id table + 1)).

(** [update(DownloadAudit).where(DownloadAudit.id == audit_id).values(...)]. *)
Definition update_where_id (audit_id : Z) (values : DownloadAudit.t -> DownloadAudit.t)
    (table : AuditTable) : AuditTable :=
  mkAuditTable
    (map (fun r => if DownloadAudit.id r =? audit_id then values r else r)
         (audit_rows table))
    (audit_next_id table).

(** [t] is the clock reading [datetime.now(timezone.utc)] of the call. *)
Definition record_download_complete (t : datetime) (audit_id bytes_downloaded : Z)
    : AuditTable -> AuditTable :=
  update_where_id audit_id
    (fun r => DownloadAudit.mk (DownloadAudit.id r) (DownloadAudit.account_id r)
                (DownloadAudit.file_id r) (DownloadAudit.file_name r)
                (DownloadAudit.mime_type r) bytes_downloaded (DownloadAudit.checksum r)
                "completed" (DownloadAudit.error r) (Some t)).

Definition record_download_failure (t : datetime) (audit_id : Z) (error : string)
    : AuditTable -> AuditTable :=
  update_where_id audit_id
    (fun r => DownloadAudit.mk (DownloadAudit.id r) (DownloadAudit.account_id r)
                (DownloadAudit.file_id r) (DownloadAudit.file_name r)
                (DownloadAudit.mime_type r) (DownloadAudit.bytes_downloaded r)
                (DownloadAudit.checksum r) "failed" (Some error) (Some t)).

(** The rows the [delete] statement of [prune_downloads] matches. *)
Definition prunable (older_than : datetime) (r : DownloadAudit.t) : bool :=
  match DownloadAudit.completed_at r with
  | Some completed_at => completed_at <? older_than
  | None => false
  end.

Definition prune_downloads (older_than : datetime) (table : AuditTable)
    : Z * AuditTable :=
  (Z.of_nat (length (List.filter (prunable older_than) (audit_rows table))),
   mkAuditTable (List.filter (fun r => negb (prunable older_than r)) (audit_rows table))
                (audit_next_id table)).


(** What [response.aiter_bytes()] will deliver: its chunks, and then either
    the end of the stream or an exception, given by its [str]. *)
Record ByteStream := mkByteStream {
  chunks : list string;
  failure : option string }.

(** How the consumer of a generator ends: it iterates to the end, or it
    closes the generator while that is suspended at the [yield] of chunk
    number [n], counting from 0. *)
Inductive Consumer :=
| Drain
| CloseAt (n : nat).

(** The body of [audited_iterator] (files.py, lines 221-234), from the
    point where [bytes_downloaded] bytes have been yielded: the chunks it
    yields, the exception it raises if any, and the table it leaves.  A
    generator that is closed gets [GeneratorExit] at its [yield], which is
    no [Exception]: neither the [except] nor the [else] branch runs.  [t]
    is the clock reading when the stream ends. *)
Fixpoint audited_loop (t : datetime) (audit_id : Z) (remaining : list string)
    (failure : option string) (consumer : Consumer) (bytes_downloaded : Z)
    (table : AuditTable) : list string * option string * AuditTable :=
  match remaining with
  | [] =>
      match failure with
      | Some exc => ([], Some exc, record_download_failure t audit_id exc table)
      | None => ([], None, record_download_complete t audit_id bytes_downloaded table)
      end
  | chunk :: rest =>
      let bytes_downloaded := bytes_downloaded + Z.of_nat (String.length chunk) in
      match consumer with
      | CloseAt O => ([chunk], None, table)
      | _ =>
          let '(yielded, raised, table') :=
            audited_loop t audit_id rest failure
                         (match consumer with CloseAt (S n) => CloseAt n | c => c end)
                         bytes_downloaded table in
          (chunk :: yielded, raised, table')
      end
  end.

Definition audited_iterator (t : datetime) (audit_id : Z) (response : ByteStream)
    (consumer : Consumer) (table : AuditTable)
    : list string * option string * AuditTable :=
  audited_loop t audit_id (chunks response) (failure response) consumer 0 table.

(** [download_file] from the audit row on (files.py, lines 214-236), with
    the iterator consumed as [consumer] says. *)
Definition download_audit (account_id file_id : string)
    (file_name mime_type checksum : option string) (t : datetime)
    (response : ByteStream) (consumer : Consumer) (table : AuditTable)
    : list string * option string * AuditTable :=
  let (audit_record, table) :=
    record_download_start account_id file_id file_name mime_type checksum table in
  audited_iterator t (DownloadAudit.id audit_record) response consumer table.

(** The audit row with a given id. *)
Definition audit_row (audit_id : Z) (table : AuditTable) : option DownloadAudit.t :=
  List.find (fun r => DownloadAudit.id r =? audit_id) (audit_rows table).

(** [sum(len(chunk) for chunk in chunks)]. *)
Definition total_length (l : list string) : Z :=
  fold_right (fun chunk n => Z.of_nat (String.length chunk) + n) 0 l.


(** Whether the generator gets to the end of a stream of [n] chunks. *)
Definition runs_to_end (n : nat) (consumer : Consumer) : bool :=
  match consumer with
  | Drain => true
  | CloseAt k => (n <=? k)%nat
  end.

(** The chunks a consumer receives from a stream it does not exhaust. *)
Definition received (consumer : Consumer) (l : list string) : list string :=
  match consumer with
  | Drain => l
  | CloseAt k => firstn (S k) l
  end.

(** ** The drive catalog (drives.py)

    Rows of [drive_catalog]; the table is keyed by [drive_id], which is
    declared unique. *)
Module DriveCatalog.
Record t := mk {
  drive_id : string;
  name : string;
  kind : string;
  is_active : bool;
  last_synced_at : option datetime }.
End DriveCatalog.

(** [DriveKind]. *)
Definition MY_DRIVE : string := "my_drive".
Definition SHARED_DRIVE : string := "shared_drive".

(** A drive as [drives.list] reports it, read through the keys [sync]
    looks up. *)
Record DriveItem := mkDriveItem {
  item_id : option string;
  item_name : option string }.

(** An entry of [remote_drives]. *)
Record RemoteDrive := mkRemoteDrive {
  entry_drive_id : string;
  entry_name : string;
  entry_kind : string }.

(** Lines 45-63: My Drive, then the shared drives of the listing that have
    an id. *)
Definition remote_drives (listing : list DriveItem) : list RemoteDrive :=
  mkRemoteDrive "my-drive" "My Drive" MY_DRIVE
  :: omap (fun drive =>
             if truthy (item_id drive)
             then Some (mkRemoteDrive (default "" (item_id drive))
                                      (por_str (item_name drive) (default "" (item_id drive)))
                                      SHARED_DRIVE)
             else None) listing.

(** The session while [sync] runs: the rows it loaded, by drive id, which
    are changed in place; the rows handed to [session.add]; and
    [seen_ids]. *)
Record SyncSession := mkSyncSession {
  existing : gmap string DriveCatalog.t;
  added : list DriveCatalog.t;
  seen_ids : gset string }.

(** One turn of [for entry in remote_drives] (lines 69-86). *)
Definition upsert_entry (t : datetime) (s : SyncSession) (entry : RemoteDrive)
    : SyncSession :=
  let drive_id := entry_drive_id entry in
  match existing s !! drive_id with
  | Some record =>
      mkSyncSession
        (<[drive_id := DriveCatalog.mk (DriveCatalog.drive_id record) (entry_name entry)
                                       (entry_kind entry) true (Some t)]> (existing s))
        (added s) ({[ drive_id ]} ∪ seen_ids s)
  | None =>
      mkSyncSession
        (existing s)
        (added s ++ [DriveCatalog.mk drive_id (entry_name entry) (entry_kind entry)
                                     true (Some t)])
        ({[ drive_id ]} ∪ seen_ids s)
  end.

(** [for drive_id, record in existing.items()] (lines 88-91). *)
Definition deactivate_unseen (t : datetime) (s : SyncSession)
    : gmap string DriveCatalog.t :=
  map_imap (fun drive_id record =>
              Some (if bool_decide (drive_id ∈ seen_ids s) then record
                    else DriveCatalog.mk (DriveCatalog.drive_id record)
                                         (DriveCatalog.name record)
                                         (DriveCatalog.kind record) false (Some t)))
           (existing s).

(** [session.commit()] for the added rows: the unique constraint refuses a
    row whose drive id the table already holds. *)
Fixpoint insert_rows (rows : list DriveCatalog.t) (table : gmap string DriveCatalog.t)
    : Result (gmap string DriveCatalog.t) :=
  match rows with
  | [] => Ok table
  | r :: rest =>
      match table !! DriveCatalog.drive_id r with
      | Some _ => Raise IntegrityError
      | None => insert_rows rest (<[DriveCatalog.drive_id r := r]> table)
      end
  end.

(** [DriveDirectoryService.sync] up to its commit, as a function of the
    table: [t] is its clock reading, [listing] what [iter_drives] yields or
    the error it raises.  The listing that [sync] returns afterwards is a
    query of the table it leaves ([list_drives]). *)
Definition sync (t : datetime) (listing : Result (list DriveItem))
    (catalog : gmap string DriveCatalog.t) : Result (gmap string DriveCatalog.t) :=
  match listing with
  | Raise e => Raise e
  | Ok drives =>
      let s := fold_left (upsert_entry t) (remote_drives drives)
                         (mkSyncSession catalog [] ∅) in
      insert_rows (added s) (deactivate_unseen t s)
  end.

(** [select(func.max(DriveCatalog.last_synced_at))]: [None] when no row
    has a time. *)
Definition max_last_synced_at (catalog : gmap string DriveCatalog.t) : option datetime :=
  map_fold (fun _ record acc =>
              match DriveCatalog.last_synced_at record, acc with
              | Some t, Some a => Some (Z.max t a)
              | Some t, None => Some t
              | None, _ => acc
              end) None catalog.

(** [ensure_synced] up to the commit of the [sync] it may run: [t] is its
    own clock reading, [t_sync] the later one of that [sync]. *)
Definition ensure_synced (force : bool) (max_age_seconds : Z) (t t_sync : datetime)
    (listing : Result (list DriveItem)) (catalog : gmap string DriveCatalog.t)
    : Result (gmap string DriveCatalog.t) :=
  if force then sync t_sync listing catalog
  else
    match max_last_synced_at catalog with
    | Some last_synced =>
        if seconds max_age_seconds <? t - last_synced
        then sync t_sync listing catalog
        else Ok catalog
    | None => sync t_sync listing catalog
    end.

(** The drive ids of a listing as [sync] sees them. *)
Definition remote_ids (drives : list DriveItem) : list string :=
  map entry_drive_id (remote_drives drives).

(** A row that [sync] has just confirmed at time [t]. *)
Definition confirmed (t : datetime) (r : DriveCatalog.t) : Prop :=
  DriveCatalog.is_active r = true /\ DriveCatalog.last_synced_at r = Some t.


(** ** Further scenarios *)

(** A connector with no refresh token in its settings. *)
Definition demo_no_refresh_token : Wiring :=
  mkWiring demo_env (Settings.mk "client" "secret" None None [] "default" None)
           true None None (fun _ => None).

(** The answer of a token endpoint that has revoked the refresh token. *)
Definition invalid_grant : TokenJson.t :=
  TokenJson.mk None None None None (Some "invalid_grant")
               (Some "Token has been expired or revoked.").

Definition rejecting : Wiring :=
  mkWiring (mkEnv (fun _ _ => Some (HttpResponse.mk 400 "" (Some invalid_grant)))
                  (fun _ => None) demo_drive demo_token_hex demo_clock)
           demo_settings true None None (fun _ => None).

(** Service-account mode: the identity provider yields "sa-token", good
    until one o'clock. *)
Definition service_account_wiring : Wiring :=
  mkWiring (mkEnv demo_token_endpoint (fun _ => Some ("sa-token", Some (hours 1)))
                  demo_drive demo_token_hex demo_clock)
           (Settings.mk "client" "secret" None (Some "/secrets/key.json")
                        ["https://www.googleapis.com/auth/drive.readonly"]
                        "default" None)
           true None None (fun _ => None).

(** A Drive API that answers 503 to the first exchange and is in working
    order from then on. *)
Definition flaky : Wiring :=
  mkWiring (mkEnv demo_token_endpoint (fun _ => None)
                  (fun tr bearer call =>
                     match http_log tr with
                     | [] => Some (HttpResponse.mk 503 "backend error" None)
                     | _ => demo_drive tr bearer call
                     end)
                  demo_token_hex demo_clock)
           demo_settings true None None (fun _ => None).


(** An audit table with one completed download, a stream of three chunks,
    and a listing of two shared drives, one of them without an id. *)
Definition one_download : AuditTable :=
  mkAuditTable
    [DownloadAudit.mk 1 "default" "file-1" (Some "a.txt") None 3 None "completed" None
                      (Some (hours 1))] 2.

Definition three_chunks : ByteStream := mkByteStream ["ab"; "cde"; "f"] None.

Definition two_drives : list DriveItem :=
  [mkDriveItem (Some "drive-1") (Some "Team"); mkDriveItem None (Some "Ghost")].


(** The channel the production wiring registers first, and the delivery
    of a channel the table does not know. *)
Definition first_channel : WatchChannel.t :=
  WatchChannel.mk "c0" (Some "resource-1") (Some "https://example.com")
                  (Some 90000000000) (Some "s0") "default" "changes".

Definition unknown_delivery : Delivery :=
  mkDelivery (Some "zz") (Some "resource-9") None None None.

(** A catalog that knows one shared drive, synced at one o'clock. *)
Definition old_catalog : gmap string DriveCatalog.t :=
  {[ "drive-0" := DriveCatalog.mk "drive-0" "Old" SHARED_DRIVE true (Some (hours 1)) ]}.

(** The catalog after a sync at three o'clock that lists "drive-1". *)
Definition new_catalog : gmap string DriveCatalog.t :=
  <["drive-1" := DriveCatalog.mk "drive-1" "Team" SHARED_DRIVE true (Some (hours 3))]>
    (<["my-drive" := DriveCatalog.mk "my-drive" "My Drive" MY_DRIVE true (Some (hours 3))]>
       (<["drive-0" := DriveCatalog.mk "drive-0" "Old" SHARED_DRIVE false (Some (hours 3))]>
          ∅)).

(** ** Properties *)

Section Properties.

Context (W : Wiring).
Local Abbreviation E := (wiring_env W).

(** ** Frame conditions *)

Lemma preserves_ret {A X} (f : World -> X) (a : A) : preserves f (ret a).
Proof. intro w. reflexivity. Qed.

Lemma preserves_raise {A X} (f : World -> X) (e : exn) : preserves f (@raise A e).
Proof. intro w. reflexivity. Qed.

Lemma preserves_gets {A X} (f : World -> X) (g : World -> A) : preserves f (gets g).
Proof. intro w. reflexivity. Qed.

Lemma preserves_bind {A B X} (f : World -> X) (m : M A) (k : A -> M B) :
  preserves f m -> (forall a, preserves f (k a)) -> preserves f (bind m k).
Proof.
  intros Hm Hk w. unfold bind. specialize (Hm w).
  destruct (m w) as [[a|e] w1]; simpl in *.
  - rewrite Hk. exact Hm.
  - exact Hm.
Qed.

Lemma preserves_try {A X} (f : World -> X) (m : M A) :
  preserves f m -> preserves f (try m).
Proof.
  intros Hm w. unfold try. specialize (Hm w).
  destruct (m w) as [r w1]. exact Hm.
Qed.

Lemma preserves_modify {X} (f : World -> X) (g : World -> World) :
  (forall w, f (g w) = f w) -> preserves f (modify g).
Proof. intros H w. apply H. Qed.

Lemma preserves_json {J X} (f : World -> X) (r : HttpResponse.t J) :
  preserves f (json r).
Proof. intro w. unfold json. destruct (HttpResponse.json r); reflexivity. Qed.

Lemma preserves_elapse {X} (f : World -> X) :
  (forall t w, f (set_now t w) = f w) -> preserves f (elapse W).
Proof. intros H w. apply H. Qed.

Lemma preserves_emit {X} (f : World -> X) (ev : Event) :
  (forall g w, f (set_trace g w) = f w) -> preserves f (emit ev).
Proof. intros H w. apply H. Qed.

Lemma preserves_emit_blind {X} (f : World -> X) (P : Event -> Prop) (ev : Event) :
  event_blind f P -> P ev -> preserves f (emit ev).
Proof. intros H HP w. apply H, HP. Qed.

Lemma field_blind {X} (f : World -> X) (P : Event -> Prop) :
  (forall g w, f (set_trace g w) = f w) -> event_blind f P.
Proof. intros H ev w _. apply H. Qed.

Lemma omap_blind {X} (g : Event -> option X) (P : Event -> Prop) :
  (forall ev, P ev -> g ev = None) ->
  event_blind (fun w => omap g (trace w)) P.
Proof.
  intros H ev w HP. simpl. rewrite omap_app. simpl.
  rewrite (H ev HP). apply app_nil_r.
Qed.

Ltac frame_step :=
  match goal with
  | |- preserves _ (bind _ _) => apply preserves_bind; [| intro]
  | |- preserves _ (ret _) => apply preserves_ret
  | |- preserves _ (raise _) => apply preserves_raise
  | |- preserves _ (gets _) => apply preserves_gets
  | |- preserves _ (try _) => apply preserves_try
  | |- preserves _ (json _) => apply preserves_json
  | |- preserves _ (modify _) =>
      apply preserves_modify; intros;
      first [ reflexivity | match goal with H : _ |- _ => apply H end ]
  | |- preserves _ (elapse _) =>
      apply preserves_elapse; intros;
      first [ reflexivity | match goal with H : _ |- _ => apply H end ]
  | |- preserves _ (emit _) =>
      first [ apply preserves_emit; intros; reflexivity
            | match goal with
              | H : event_blind _ _ |- _ =>
                  apply (preserves_emit_blind _ _ _ H); exact I
              end ]
  | |- preserves _ (match ?x with _ => _ end) => destruct x
  | |- preserves _ _ => solve [ eauto with frame ]
  end.

Ltac frame := intros; repeat frame_step.

(** What the token path leaves alone: everything but the cache, the
    credential table, the clock and its own events. *)
Section TokenFrame.
Context {X : Type} (f : World -> X).
Hypothesis f_tokens : forall g w, f (set_tokens g w) = f w.
Hypothesis f_credentials : forall g w, f (set_token_credentials g w) = f w.
Hypothesis f_now : forall t w, f (set_now t w) = f w.
Hypothesis f_events : event_blind f not_http.

Lemma get_credentials_frame a : preserves f (get_credentials a).
Proof. unfold get_credentials. frame. Qed.

Lemma upsert_credentials_frame a at_ rt ex sc sa :
  preserves f (upsert_credentials a at_ rt ex sc sa).
Proof. unfold upsert_credentials, get_credentials, utcnow. frame. Qed.

Lemma get_token_frame a : preserves f (get_token W a).
Proof.
  unfold get_token, get_token_service_account, get_token_refresh,
    exchange_refresh_token, _obtain_service_account_token, post_token,
    upsert_credentials, get_credentials, utcnow.
  frame.
Qed.

Lemma invalidate_frame a : preserves f (invalidate W a).
Proof. unfold invalidate. frame. Qed.
End TokenFrame.

(** What the request pipeline and the client calls leave alone: the
    checkpoint and channel tables in particular. *)
Section RequestFrame.
Context {X : Type} (f : World -> X).
Hypothesis f_tokens : forall g w, f (set_tokens g w) = f w.
Hypothesis f_credentials : forall g w, f (set_token_credentials g w) = f w.
Hypothesis f_now : forall t w, f (set_now t w) = f w.
Hypothesis f_events : event_blind f any_event.

Lemma any_event_not_http : event_blind f not_http.
Proof. intros ev w _. apply f_events. exact I. Qed.

Lemma attempt_frame bearer call loc : preserves f (attempt W bearer call loc).
Proof. unfold attempt, send, invalidate. frame. Qed.

Lemma retrying_frame n : forall k bearer call loc,
  preserves f (retrying W n k bearer call loc).
Proof.
  induction n as [|n IH]; intros k bearer call loc; simpl;
    (apply preserves_bind; [apply attempt_frame |]);
    intros [[response|e] loc']; frame.
  apply IH.
Qed.

Lemma request_frame call : preserves f (_request W call).
Proof.
  unfold _request.
  apply preserves_bind; [apply get_token_frame; auto using any_event_not_http |].
  intro token.
  apply preserves_bind; [apply retrying_frame |].
  intros [[response|e] loc]; frame.
Qed.

Lemma get_start_page_token_frame : preserves f (get_start_page_token W).
Proof.
  unfold get_start_page_token.
  apply preserves_bind; [apply request_frame |]. frame.
Qed.

Lemma list_changes_frame page_token page_size :
  preserves f (list_changes W page_token page_size).
Proof.
  unfold list_changes.
  apply preserves_bind; [apply request_frame |]. frame.
Qed.

Lemma start_changes_watch_frame page_token body :
  preserves f (start_changes_watch W page_token body).
Proof.
  unfold start_changes_watch.
  apply preserves_bind; [apply request_frame |]. frame.
Qed.

Lemma stop_channel_frame channel_id resource_id :
  preserves f (stop_channel W channel_id resource_id).
Proof.
  unfold stop_channel.
  apply preserves_bind; [apply request_frame |]. frame.
Qed.
End RequestFrame.

(** ** What the request pipeline logs *)

Lemma http_log_app tr1 tr2 : http_log (tr1 ++ tr2) = http_log tr1 ++ http_log tr2.
Proof. apply omap_app. Qed.


Lemma successful_calls_app tr1 tr2 :
  successful_calls (tr1 ++ tr2) = successful_calls tr1 ++ successful_calls tr2.
Proof.
  unfold successful_calls. rewrite http_log_app, List.filter_app.
  apply map_app.
Qed.

(** One attempt W is one exchange; it yields the response exactly when the
    status is below 400. *)
Lemma attempt_log bearer call loc w :
  exists r loc' w' s,
    attempt W bearer call loc w = (Ok (r, loc'), w') /\
    trace w' = trace w ++ [EvHttp bearer call s] /\
    match r with
    | Ok response =>
        s = Some (HttpResponse.status_code response) /\ succeeded s = true
    | Raise e => succeeded s = false
    end.
Proof.
  unfold attempt, try, send, bind, gets, emit, modify, elapse, ret, raise, invalidate.
  simpl.
  destruct (drive_api E (trace w) bearer call) as [response|]; simpl.
  - destruct (Z.eqb_spec (HttpResponse.status_code response) 401) as [H401|H401].
    { simpl. do 4 eexists. split; [reflexivity|]. split; [reflexivity|].
      simpl. rewrite H401. reflexivity. }
    destruct (Z.eqb_spec (HttpResponse.status_code response) 429) as [H429|H429].
    { simpl. do 4 eexists. split; [reflexivity|]. split; [reflexivity|].
      simpl. rewrite H429. reflexivity. }
    destruct (Z.leb_spec 500 (HttpResponse.status_code response)) as [H5|H5].
    { simpl. do 4 eexists. split; [reflexivity|]. split; [reflexivity|].
      simpl. apply Z.ltb_ge. lia. }
    simpl.
    destruct (Z.leb_spec 400 (HttpResponse.status_code response)) as [H4|H4].
    { do 4 eexists. split; [reflexivity|]. split; [reflexivity|].
      destruct (HttpResponse.json response); simpl; apply Z.ltb_ge; lia. }
    do 4 eexists. split; [reflexivity|]. split; [reflexivity|].
    simpl. split; [reflexivity|]. apply Z.ltb_lt. lia.
  - do 4 eexists. split; [reflexivity|]. split; [reflexivity|]. reflexivity.
Qed.

Lemma successful_calls_one bearer call s :
  successful_calls [EvHttp bearer call s] = if succeeded s then [call] else [].
Proof. unfold successful_calls. simpl. destruct (succeeded s); reflexivity. Qed.

Lemma retrying_log n : forall k bearer call loc w,
  exists r loc' w' delta,
    retrying W n k bearer call loc w = (Ok (r, loc'), w') /\
    trace w' = trace w ++ delta /\
    Forall (retry_event bearer call) delta /\
    (length (http_log delta) <= S n)%nat /\
    successful_calls delta = match r with Ok _ => [call] | Raise _ => [] end.
Proof.
  induction n as [|n IH]; intros k bearer call loc w;
    destruct (attempt_log bearer call loc w) as (r & loc' & w1 & s & Hat & Htr & Hr);
    simpl; unfold bind at 1; rewrite Hat.
  - destruct r as [response|e].
    + exists (Ok response), loc', w1, [EvHttp bearer call s].
      destruct Hr as [_ Hs].
      repeat split; auto.
      * repeat constructor.
      * rewrite successful_calls_one, Hs. reflexivity.
    + exists (if should_retry e then Raise (RetryError e) else Raise e), loc', w1,
        [EvHttp bearer call s].
      assert (Hsc : successful_calls [EvHttp bearer call s] = [])
        by (rewrite successful_calls_one, Hr; reflexivity).
      destruct (should_retry e); repeat split; auto; repeat constructor.
  - destruct r as [response|e].
    + exists (Ok response), loc', w1, [EvHttp bearer call s].
      destruct Hr as [_ Hs].
      repeat split; auto.
      * repeat constructor.
      * simpl. lia.
      * rewrite successful_calls_one, Hs. reflexivity.
    + assert (Hsc : successful_calls [EvHttp bearer call s] = [])
        by (rewrite successful_calls_one, Hr; reflexivity).
      destruct (should_retry e).
      * unfold bind, emit, modify, elapse. simpl.
        match goal with
        | |- context [retrying W n (S k) bearer call loc' ?w2] =>
            destruct (IH (S k) bearer call loc' w2)
              as (r2 & loc2 & w3 & delta & Hrt & Htr2 & Hev & Hlen & Hsucc)
        end.
        exists r2, loc2, w3, ([EvHttp bearer call s; EvSleep k] ++ delta).
        split; [exact Hrt|].
        split.
        { rewrite Htr2. simpl. rewrite Htr. rewrite <- !app_assoc. reflexivity. }
        split.
        { apply Forall_app. split; [repeat constructor | exact Hev]. }
        split.
        { rewrite http_log_app. rewrite length_app. simpl. lia. }
        change ([EvHttp bearer call s; EvSleep k] ++ delta)
          with ([EvHttp bearer call s] ++ ([EvSleep k] ++ delta)).
        rewrite successful_calls_app, Hsc. exact Hsucc.
      * exists (Raise e), loc', w1, [EvHttp bearer call s].
        split; [reflexivity|]. split; [exact Htr|].
        split; [repeat constructor|].
        split; [simpl; lia | exact Hsc].
Qed.

Lemma http_log_retry_events bearer call delta :
  Forall (retry_event bearer call) delta ->
  Forall (fun x => fst x = call) (http_log delta).
Proof.
  induction 1 as [|ev delta Hev _ IH]; [constructor|].
  destruct ev; simpl in *; try exact IH; try contradiction.
  constructor; [apply Hev | exact IH].
Qed.

Lemma get_token_http_log a : preserves (fun w => http_log (trace w)) (get_token W a).
Proof.
  apply get_token_frame; try reflexivity.
  apply omap_blind. intros [] H; try reflexivity; contradiction.
Qed.

(** [_request W] talks to Drive about its one call only, at most five
    times, and returns a response exactly when one exchange succeeded. *)
Lemma request_log call w :
  exists r w' log,
    _request W call w = (r, w') /\
    http_log (trace w') = http_log (trace w) ++ log /\
    Forall (fun x => fst x = call) log /\
    (length log <= 5)%nat /\
    successful_calls (trace w') =
      successful_calls (trace w) ++ match r with Ok _ => [call] | Raise _ => [] end.
Proof.
  unfold _request, bind at 1.
  pose proof (get_token_http_log (Some (_account_id W)) w) as Hg.
  destruct (get_token W (Some (_account_id W)) w) as [[token|e] w1]; simpl in Hg.
  - destruct (retrying_log (stop_after_attempt - 1) 1 token call (mkLocals 500 None) w1)
      as (r & loc & w2 & delta & Hrt & Htr & Hev & Hlen & Hsucc).
    unfold bind at 1. rewrite Hrt.
    assert (Hlog : http_log (trace w2) = http_log (trace w) ++ http_log delta)
      by (rewrite Htr, http_log_app, Hg; reflexivity).
    assert (Hsc : successful_calls (trace w2) =
                  successful_calls (trace w) ++ successful_calls delta).
    { rewrite Htr, successful_calls_app. f_equal.
      unfold successful_calls. rewrite Hg. reflexivity. }
    destruct r as [response|e].
    + exists (Ok response), (set_trace (fun tr => tr ++ [EvObserve call (status_code loc) (error_type loc)]) w2),
        (http_log delta).
      split; [reflexivity|]. simpl.
      rewrite http_log_app, successful_calls_app. simpl. rewrite !app_nil_r.
      rewrite Hlog, Hsc, Hsucc.
      repeat split; eauto using http_log_retry_events.
    + eexists (Raise e), _, (http_log delta).
      split; [reflexivity|]. simpl.
      rewrite http_log_app, successful_calls_app. simpl. rewrite !app_nil_r.
      rewrite Hlog, Hsc, Hsucc.
      repeat split; eauto using http_log_retry_events.
      apply app_nil_r.
  - exists (Raise e), w1, [].
    split; [reflexivity|]. rewrite !app_nil_r.
    unfold successful_calls. rewrite Hg.
    repeat split; auto. simpl. lia.
Qed.

Lemma request_bind_log {A} call (k : HttpResponse.t DriveJson.t -> M A) w r w' :
  (forall response, preserves trace (k response)) ->
  bind (_request W call) k w = (r, w') ->
  one_call call (is_ok r) w w'.
Proof.
  intros Hk. unfold bind.
  destruct (request_log call w) as (r1 & w1 & log & Hrq & Hlog & Hall & Hlen & Hsucc).
  rewrite Hrq. destruct r1 as [response|e]; intros Hrun.
  - specialize (Hk response w1). rewrite Hrun in Hk. simpl in Hk.
    exists log. rewrite Hk. repeat split; auto.
  - inversion Hrun; subst. exists log. repeat split; auto. discriminate.
Qed.

Lemma get_start_page_token_log w r w' :
  get_start_page_token W w = (r, w') -> one_call GetStartPageToken (is_ok r) w w'.
Proof. apply request_bind_log. frame. Qed.

Lemma list_changes_log page_token page_size w r w' :
  list_changes W page_token page_size w = (r, w') ->
  one_call (ListChanges page_token (Z.min (Z.max page_size 1) 1000)) (is_ok r) w w'.
Proof. apply request_bind_log. frame. Qed.

Lemma start_changes_watch_log page_token body w r w' :
  start_changes_watch W page_token body w = (r, w') ->
  one_call (ChangesWatch page_token body) (is_ok r) w w'.
Proof. apply request_bind_log. frame. Qed.


(** ** Change sync *)

Lemma get_checkpoint_run resource w :
  get_checkpoint W resource w =
    (Ok (sync_checkpoints w !! (sync_account_id W, resource)), selected W resource w).
Proof. reflexivity. Qed.

Lemma selected_checkpoints resource w :
  sync_checkpoints (selected W resource w) = sync_checkpoints w.
Proof. reflexivity. Qed.

Lemma selected_http_log resource w :
  http_log (trace (selected W resource w)) = http_log (trace w).
Proof. unfold selected. simpl. rewrite http_log_app. apply app_nil_r. Qed.

Lemma one_call_after_select call resource w w1 :
  one_call call true (selected W resource w) w1 ->
  successful_calls (trace w1) = successful_calls (trace w) ++ [call] /\
  exists log, http_log (trace w1) = http_log (trace w) ++ log /\
              Forall (fun x => fst x = call) log.
Proof.
  intros (log & Hlog & Hall & _ & Hsucc). specialize (Hsucc eq_refl).
  rewrite selected_http_log in Hlog. split; [|eauto].
  rewrite Hsucc. unfold successful_calls. rewrite selected_http_log. reflexivity.
Qed.

(** What [upsert_checkpoint W] does to the table and to the Drive log. *)
Lemma upsert_checkpoint_run resource cursor last_synced_at w :
  exists c w',
    upsert_checkpoint W resource cursor last_synced_at w = (Ok c, w') /\
    sync_checkpoints w' = <[(sync_account_id W, resource) := c]> (sync_checkpoints w) /\
    SyncCheckpoint.cursor c = cursor /\
    SyncCheckpoint.last_synced_at c = last_synced_at /\
    http_log (trace w') = http_log (trace w).
Proof.
  unfold upsert_checkpoint, get_checkpoint, bind, gets, emit, modify, ret. simpl.
  do 2 eexists. split; [reflexivity|]. simpl.
  rewrite !http_log_app. simpl. rewrite !app_nil_r.
  destruct (sync_checkpoints w !! (sync_account_id W, resource)); auto.
Qed.

(** Any failure of [sync_changes] leaves the whole checkpoint table as it
    was: nothing can fail once the table has been written. *)
Lemma sync_changes_failure_frame resource page_size w e w' :
  sync_changes W resource page_size w = (Raise e, w') ->
  sync_checkpoints w' = sync_checkpoints w.
Proof.
  unfold sync_changes, bind at 1. rewrite get_checkpoint_run.
  destruct (held_cursor (sync_checkpoints w !! (sync_account_id W, resource))) as [cursor|].
  - unfold bind at 1.
    pose proof (list_changes_frame sync_checkpoints
                  ltac:(reflexivity) ltac:(reflexivity) ltac:(reflexivity)
                  ltac:(apply field_blind; reflexivity)
                  cursor page_size (selected W resource w)) as Hf.
    destruct (list_changes W cursor page_size (selected W resource w)) as [[payload|e1] w1];
      simpl in Hf.
    + unfold bind at 1, utcnow, gets. unfold bind at 1.
      match goal with
      | |- context [upsert_checkpoint W resource ?c ?t w1] =>
          destruct (upsert_checkpoint_run resource c t w1) as (c1 & w2 & Hup & _)
      end.
      rewrite Hup. discriminate.
    + intros Hrun. inversion Hrun; subst. exact Hf.
  - unfold bind at 1.
    pose proof (get_start_page_token_frame sync_checkpoints
                  ltac:(reflexivity) ltac:(reflexivity) ltac:(reflexivity)
                  ltac:(apply field_blind; reflexivity)
                  (selected W resource w)) as Hf.
    destruct (get_start_page_token W (selected W resource w)) as [[start_token|e1] w1];
      simpl in Hf.
    + unfold bind at 1, utcnow, gets. unfold bind at 1.
      match goal with
      | |- context [upsert_checkpoint W resource ?c ?t w1] =>
          destruct (upsert_checkpoint_run resource c t w1) as (c1 & w2 & Hup & _)
      end.
      rewrite Hup. discriminate.
    + intros Hrun. inversion Hrun; subst. exact Hf.
Qed.

(** C3.  When the checkpoint holds a cursor and the change-page fetch made
    with it raises an error, [sync_changes] raises that same error and
    does nothing more; the checkpoint table is exactly what it was before
    the call, so the resource still holds the old cursor for the next
    attempt. *)
Theorem sync_changes_failed_fetch resource page_size w cursor e w1 :
  held_cursor (sync_checkpoints w !! (sync_account_id W, resource)) = Some cursor ->
  list_changes W cursor page_size (selected W resource w) = (Raise e, w1) ->
  sync_changes W resource page_size w = (Raise e, w1) /\
  sync_checkpoints w1 = sync_checkpoints w /\
  held_cursor (sync_checkpoints w1 !! (sync_account_id W, resource)) = Some cursor.
Proof.
  intros Hheld Hfetch.
  assert (Hrun : sync_changes W resource page_size w = (Raise e, w1)).
  { unfold sync_changes, bind at 1. rewrite get_checkpoint_run, Hheld.
    unfold bind at 1. rewrite Hfetch. reflexivity. }
  split; [exact Hrun|].
  pose proof (sync_changes_failure_frame _ _ _ _ _ Hrun) as Hframe.
  split; [exact Hframe|]. rewrite Hframe. exact Hheld.
Qed.

(** C5.  From the uninitialised state (no checkpoint for the resource, or
    one without a cursor), whenever the start-page-token call answers,
    [sync_changes] persists that token as the cursor, reports
    [changes=[], cursor=token, initialised=true, has_more=false], and the
    only Drive exchanges it made are for the start-page-token endpoint,
    exactly one of them successful; no page of changes is requested.
    This holds for every world in that state, hence every time it is
    attempted from it. *)
Theorem sync_changes_initialises resource page_size w start_token w1 :
  held_cursor (sync_checkpoints w !! (sync_account_id W, resource)) = None ->
  get_start_page_token W (selected W resource w) = (Ok start_token, w1) ->
  exists w2 c,
    sync_changes W resource page_size w =
      (Ok (SyncResult.mk [] (Some start_token) true false), w2) /\
    sync_checkpoints w2 = <[(sync_account_id W, resource) := c]> (sync_checkpoints w) /\
    SyncCheckpoint.cursor c = Some start_token /\
    SyncCheckpoint.last_synced_at c = Some (now w1) /\
    successful_calls (trace w2) = successful_calls (trace w) ++ [GetStartPageToken] /\
    exists log,
      http_log (trace w2) = http_log (trace w) ++ log /\
      Forall (fun x => fst x = GetStartPageToken) log.
Proof.
  intros Hheld Hfetch.
  pose proof (get_start_page_token_frame sync_checkpoints
                ltac:(reflexivity) ltac:(reflexivity) ltac:(reflexivity)
                ltac:(apply field_blind; reflexivity)
                (selected W resource w)) as Hf.
  rewrite Hfetch in Hf. simpl in Hf.
  destruct (one_call_after_select _ _ _ _ (get_start_page_token_log _ _ _ Hfetch))
    as (Hsucc & log & Hlog & Hall).
  destruct (upsert_checkpoint_run resource (Some start_token) (Some (now w1)) w1)
    as (c & w2 & Hup & Htab & Hcur & Hts & Hhttp).
  exists w2, c. split.
  { unfold sync_changes, bind at 1. rewrite get_checkpoint_run, Hheld.
    unfold bind at 1. rewrite Hfetch.
    unfold bind at 1, utcnow, gets. unfold bind at 1. rewrite Hup. reflexivity. }
  split; [rewrite Htab, Hf; reflexivity|].
  split; [exact Hcur|]. split; [exact Hts|].
  split.
  { unfold successful_calls in *. rewrite Hhttp. exact Hsucc. }
  exists log. rewrite Hhttp. auto.
Qed.

(** C4, as amended.  When the checkpoint holds a cursor and the one page
    fetch made with it answers, the new cursor is the response's
    new-start-token if that is a non-empty string, else its
    next-page-token if that is a non-empty string, else the cursor already
    held; it is persisted with the current time whatever the change list
    is, and the result carries the changes, the new cursor,
    [initialised=false] and [has_more] = whether a non-empty
    next-page-token was in the response.  All Drive exchanges of the call
    are page fetches with the held cursor, exactly one of them
    successful. *)
Theorem sync_changes_advances resource page_size w cursor payload w1 :
  held_cursor (sync_checkpoints w !! (sync_account_id W, resource)) = Some cursor ->
  list_changes W cursor page_size (selected W resource w) = (Ok payload, w1) ->
  exists w2 c,
    sync_changes W resource page_size w =
      (Ok (SyncResult.mk (default [] (DriveJson.changes payload))
                         (next_cursor cursor payload) false
                         (truthy (DriveJson.nextPageToken payload))), w2) /\
    sync_checkpoints w2 = <[(sync_account_id W, resource) := c]> (sync_checkpoints w) /\
    SyncCheckpoint.cursor c = next_cursor cursor payload /\
    SyncCheckpoint.last_synced_at c = Some (now w1) /\
    successful_calls (trace w2) =
      successful_calls (trace w) ++ [ListChanges cursor (Z.min (Z.max page_size 1) 1000)] /\
    exists log,
      http_log (trace w2) = http_log (trace w) ++ log /\
      Forall (fun x => fst x = ListChanges cursor (Z.min (Z.max page_size 1) 1000)) log.
Proof.
  intros Hheld Hfetch.
  pose proof (list_changes_frame sync_checkpoints
                ltac:(reflexivity) ltac:(reflexivity) ltac:(reflexivity)
                ltac:(apply field_blind; reflexivity)
                cursor page_size (selected W resource w)) as Hf.
  rewrite Hfetch in Hf. simpl in Hf.
  destruct (one_call_after_select _ _ _ _ (list_changes_log _ _ _ _ _ Hfetch))
    as (Hsucc & log & Hlog & Hall).
  assert (Hnext : por (por (DriveJson.newStartPageToken payload)
                           (DriveJson.nextPageToken payload)) (Some cursor)
                  = next_cursor cursor payload).
  { unfold por, next_cursor.
    destruct (truthy (DriveJson.newStartPageToken payload)) eqn:Hn.
    - rewrite Hn. reflexivity.
    - destruct (truthy (DriveJson.nextPageToken payload)) eqn:Hp;
        rewrite ?Hp; reflexivity. }
  destruct (upsert_checkpoint_run resource (next_cursor cursor payload) (Some (now w1)) w1)
    as (c & w2 & Hup & Htab & Hcur & Hts & Hhttp).
  exists w2, c. split.
  { unfold sync_changes, bind at 1. rewrite get_checkpoint_run, Hheld.
    unfold bind at 1. rewrite Hfetch. rewrite Hnext.
    unfold bind at 1, utcnow, gets. unfold bind at 1. rewrite Hup. reflexivity. }
  split; [rewrite Htab, Hf; reflexivity|].
  split; [exact Hcur|]. split; [exact Hts|].
  split.
  { unfold successful_calls in *. rewrite Hhttp. exact Hsucc. }
  exists log. rewrite Hhttp. auto.
Qed.

(** ** The credential store *)

(** C10.  A credential upsert never clears a stored refresh token: the
    stored value after [upsert_credentials] is the old one unless the
    call passes a non-empty replacement, so passing [refresh_token=None]
    (as the service-account path does) leaves a stored refresh token
    exactly as it was, and a stored non-null refresh token stays non-null
    whatever is passed.  The other accounts are not touched. *)
Theorem upsert_credentials_keeps_refresh_token
    account_id access_token refresh_token expires_in scopes is_service_account w r old :
  token_credentials w !! account_id = Some r ->
  TokenCredential.refresh_token r = Some old ->
  exists r' w',
    upsert_credentials account_id access_token refresh_token expires_in scopes
                       is_service_account w = (Ok r', w') /\
    token_credentials w' = <[account_id := r']> (token_credentials w) /\
    (refresh_token = None -> TokenCredential.refresh_token r' = Some old) /\
    (TokenCredential.refresh_token r' = Some old \/
     (TokenCredential.refresh_token r' = refresh_token /\ truthy refresh_token = true)) /\
    TokenCredential.refresh_token r' <> None.
Proof.
  intros Hr Hold.
  unfold upsert_credentials, get_credentials, utcnow, bind, gets, emit, modify, ret.
  simpl. rewrite Hr. do 2 eexists. split; [reflexivity|]. simpl.
  split; [reflexivity|].
  destruct refresh_token as [rt|]; simpl.
  - destruct (String.eqb rt ""); simpl; rewrite ?Hold.
    + split; [reflexivity|]. split; [left; reflexivity | discriminate].
    + split; [discriminate|]. split; [right; split; reflexivity | discriminate].
  - rewrite Hold. split; [reflexivity|]. split; [left; reflexivity | discriminate].
Qed.

(** ** Webhook validation *)

(** C7.  [ensure_valid_channel] raises [PermissionError] for a channel
    that is not in the table.  For a known channel with a stored secret (a
    non-empty token) it returns the channel exactly when the presented
    token is that secret, and raises [PermissionError] for every other
    presented value, the empty string and [None] included.  For a known
    channel without a stored secret it returns the channel whatever is
    presented. *)
Theorem ensure_valid_channel_spec channel_id presented w :
  let outcome := fst (ensure_valid_channel channel_id presented w) in
  (find_channel channel_id (watch_channels w) = None ->
   outcome = Raise (PermissionError "Unknown channel")) /\
  (forall r secret,
     find_channel channel_id (watch_channels w) = Some r ->
     WatchChannel.token r = Some secret -> secret <> "" ->
     (outcome = Ok r <-> presented = Some secret) /\
     (presented <> Some secret ->
      outcome = Raise (PermissionError "Invalid channel token")) /\
     (presented = None \/ presented = Some "" ->
      outcome = Raise (PermissionError "Invalid channel token"))) /\
  (forall r,
     find_channel channel_id (watch_channels w) = Some r ->
     truthy (WatchChannel.token r) = false ->
     outcome = Ok r).
Proof.
  unfold ensure_valid_channel, get_channel, bind, gets, emit, modify, ret, raise.
  simpl. split; [|split].
  - intros ->. reflexivity.
  - intros r secret -> Htok Hne. rewrite Htok. simpl.
    assert (Hnz : String.eqb secret "" = false) by (apply String.eqb_neq; exact Hne).
    rewrite Hnz. simpl.
    destruct (decide (presented = Some secret)) as [Heq|Hp].
    + rewrite bool_decide_eq_true_2 by exact Heq. simpl.
      split; [split; auto|]. split; [intros Hp; contradiction|].
      intros [Hn | Hn]; rewrite Hn in Heq; [discriminate|].
      inversion Heq. congruence.
    + rewrite bool_decide_eq_false_2 by exact Hp. simpl.
      split; [split; [discriminate | intros Heq; contradiction]|].
      split; auto.
  - intros r -> Hfalsy. rewrite Hfalsy. reflexivity.
Qed.

(** ** Token caching *)

Lemma exchanges_app tr1 tr2 : exchanges (tr1 ++ tr2) = (exchanges tr1 + exchanges tr2)%nat.
Proof. unfold exchanges, exchange_log. rewrite omap_app. apply length_app. Qed.

(** A valid cached token is returned as it is, and the world does not
    change: no query, no exchange. *)
Lemma get_token_hit account_id w tok :
  tokens w !! resolve_account W account_id = Some tok ->
  is_valid (now w) tok = true ->
  get_token W account_id w = (Ok (AccessToken.token tok), w).
Proof.
  intros Hc Hv. unfold get_token, bind, gets, utcnow. simpl.
  rewrite Hc. simpl. rewrite Hv. reflexivity.
Qed.

Ltac split_run H :=
  repeat match type of H with
         | context [match ?x with _ => _ end] =>
             lazymatch x with
             | context [match _ with _ => _ end] => fail
             | _ => destruct x eqn:?; simpl in H; try discriminate H
             end
         end.

(** Every successful [get_token] leaves the returned token in the cache
    and has made at most one token exchange. *)
Lemma get_token_caches account_id w s w' :
  get_token W account_id w = (Ok s, w') ->
  (exists tok, tokens w' !! resolve_account W account_id = Some tok /\
               AccessToken.token tok = s) /\
  (exchanges (trace w') <= exchanges (trace w) + 1)%nat.
Proof.
  unfold get_token, get_token_service_account, get_token_refresh,
    exchange_refresh_token, _obtain_service_account_token, post_token,
    upsert_credentials, get_credentials, cache_hit, stored_hit, json,
    utcnow, elapse, emit, modify, gets, bind, ret, raise.
  simpl. intros H. split_run H.
  all: inversion H; subst; clear H; simpl.
  all: rewrite ?lookup_insert_eq.
  all: split; [eauto|].
  all: rewrite ?exchanges_app; unfold exchanges; simpl; lia.
Qed.

(** While the cached token is valid at every reading, every call of the
    sequence returns it and nothing but the clock changes. *)
Lemma get_tokens_hits account_id tok times : forall w,
  tokens w !! resolve_account W account_id = Some tok ->
  Forall (fun t => is_valid t tok = true) times ->
  exists w',
    get_tokens W account_id times w =
      (Ok (map (fun _ => Ok (AccessToken.token tok)) times), w') /\
    trace w' = trace w /\
    tokens w' = tokens w /\
    token_credentials w' = token_credentials w.
Proof.
  induction times as [|t rest IH]; intros w Hc Hv.
  - exists w. repeat split; reflexivity.
  - inversion Hv as [|? ? Ht Hrest]; subst.
    destruct (IH (set_now t w) Hc Hrest) as (w' & Hrun & Htr & Htok & Hcred).
    exists w'. split; [|auto].
    simpl. unfold bind at 1, modify. unfold bind at 1, try.
    rewrite (get_token_hit account_id (set_now t w) tok Hc Ht).
    unfold bind at 1. rewrite Hrun. reflexivity.
Qed.

(** C6.  Take any successful [get_token] call and any further calls for
    the same account at clock readings at which the token it left in the
    cache is valid (no expiry, or an expiry more than 60 seconds ahead).
    Every further call returns the identical token string and performs no
    I/O at all (the trace does not grow), so the whole sequence made at
    most one token exchange; and when the first call already found a valid
    cached token, it returned that token without any I/O either. *)
Theorem get_token_caching account_id w s w1 times :
  get_token W account_id w = (Ok s, w1) ->
  (forall tok, tokens w1 !! resolve_account W account_id = Some tok ->
               Forall (fun t => is_valid t tok = true) times) ->
  exists w2,
    get_tokens W account_id times w1 = (Ok (map (fun _ => Ok s) times), w2) /\
    trace w2 = trace w1 /\
    (exchanges (trace w2) <= exchanges (trace w) + 1)%nat /\
    (forall tok, tokens w !! resolve_account W account_id = Some tok ->
                 is_valid (now w) tok = true ->
                 trace w1 = trace w /\ s = AccessToken.token tok).
Proof.
  intros Hfirst Hvalid.
  destruct (get_token_caches _ _ _ _ Hfirst) as ((tok & Hc & Hs) & Hex).
  destruct (get_tokens_hits account_id tok times w1 Hc (Hvalid tok Hc))
    as (w2 & Hrun & Htr & _).
  exists w2. rewrite Hs in Hrun. split; [exact Hrun|].
  split; [exact Htr|]. split; [rewrite Htr; exact Hex|].
  intros tok0 Hc0 Hv0.
  rewrite (get_token_hit account_id w tok0 Hc0 Hv0) in Hfirst.
  inversion Hfirst; subst. split; reflexivity.
Qed.

(** ** Retry exhaustion *)

Lemma attempt_503 bearer call loc w :
  always_answers W bearer call 503 ->
  exists text w',
    attempt W bearer call loc w =
      (Ok (Raise (throttled text), mkLocals 503 (Some "retryable")), w') /\
    trace w' = trace w ++ [EvHttp bearer call (Some 503)] /\
    tokens w' = tokens w.
Proof.
  intros Halways. destruct (Halways (trace w)) as (response & Hresp & Hstatus).
  unfold attempt, try, send, bind, gets, emit, modify, elapse, ret, raise.
  simpl. rewrite Hresp. simpl. rewrite Hstatus. simpl.
  do 2 eexists. repeat split.
Qed.

Lemma retrying_503 bearer call n : forall k loc w,
  always_answers W bearer call 503 ->
  exists text w',
    retrying W n k bearer call loc w =
      (Ok (Raise (RetryError (throttled text)), mkLocals 503 (Some "retryable")), w') /\
    http_log (trace w') = http_log (trace w) ++ repeat (call, Some 503) (S n) /\
    tokens w' = tokens w.
Proof.
  induction n as [|n IH]; intros k loc w Halways;
    destruct (attempt_503 bearer call loc w Halways) as (text & w1 & Hat & Htr & Htok);
    simpl retrying; unfold bind at 1; rewrite Hat; simpl.
  - exists text, w1. split; [reflexivity|]. split; [|exact Htok].
    rewrite Htr, http_log_app. reflexivity.
  - unfold bind, emit, modify, elapse. simpl.
    match goal with
    | |- context [retrying W n (S k) bearer call ?l ?w2] =>
        destruct (IH (S k) l w2 Halways) as (text2 & w3 & Hrt & Hlog & Htok2)
    end.
    exists text2, w3. split; [exact Hrt|]. split.
    + rewrite Hlog. simpl. rewrite Htr, !http_log_app. simpl.
      rewrite <- !app_assoc. reflexivity.
    + rewrite Htok2. simpl. exact Htok.
Qed.

(** Against an endpoint that always answers 503, [_request] makes exactly
    five exchanges and then raises tenacity's [RetryError] around the last
    [DriveRetriableError]: an exception that is no [DriveAPIError] and has
    no [status_code]. *)
Lemma request_exhaustion call w token w1 :
  get_token W (Some (_account_id W)) w = (Ok token, w1) ->
  always_answers W token call 503 ->
  exists text w2,
    _request W call w = (Raise (RetryError (throttled text)), w2) /\
    http_log (trace w2) = http_log (trace w) ++ repeat (call, Some 503) 5 /\
    is_DriveAPIError (RetryError (throttled text)) = false /\
    exn_status_code (RetryError (throttled text)) = None.
Proof.
  intros Htoken Halways.
  pose proof (get_token_http_log (Some (_account_id W)) w) as Hg.
  rewrite Htoken in Hg. simpl in Hg.
  destruct (retrying_503 token call (stop_after_attempt - 1) 1 (mkLocals 500 None) w1 Halways)
    as (text & w2 & Hrt & Hlog & _).
  exists text. eexists. split.
  { unfold _request, bind at 1. rewrite Htoken.
    unfold bind at 1. rewrite Hrt. reflexivity. }
  simpl. rewrite http_log_app, Hlog, Hg. simpl. rewrite app_nil_r.
  repeat split.
Qed.

(** ** Watch channels *)


Lemma ok_call {A} call (r : Result A) w w' :
  one_call call (is_ok r) w w' ->
  is_ok r = true ->
  successful_calls (trace w') = successful_calls (trace w) ++ [call].
Proof. intros (log & _ & _ & _ & Hsucc) Hok. exact (Hsucc Hok). Qed.


Lemma find_channel_none (rows : list WatchChannel.t) id :
  find_channel id rows = None -> ~ In id (channel_ids rows).
Proof.
  unfold find_channel, channel_ids. intros Hf Hin.
  apply in_map_iff in Hin. destruct Hin as (c & Hid & Hin).
  pose proof (find_none _ _ Hf c Hin) as Hc. simpl in Hc.
  rewrite Hid, String.eqb_refl in Hc. discriminate.
Qed.

Lemma without_fresh (rows : list WatchChannel.t) id :
  ~ In id (channel_ids rows) -> without id rows = rows.
Proof.
  unfold without, channel_ids. induction rows as [|x rows IH]; intros Hn; [reflexivity|].
  simpl in *. destruct (String.eqb_spec (WatchChannel.channel_id x) id) as [Heq|Hne].
  - exfalso. apply Hn. left. exact Heq.
  - simpl. f_equal. apply IH. intros Hin. apply Hn. right. exact Hin.
Qed.


Lemma successful_calls_db tr op :
  successful_calls (tr ++ [EvDb op]) = successful_calls tr.
Proof. rewrite successful_calls_app. apply app_nil_r. Qed.


(** [register_changes_watch]: either it fails and the table is untouched,
    or it appends one row whose id was not in the table. *)
Lemma register_changes_watch_run ttl_seconds w :
  exists r w',
    register_changes_watch W ttl_seconds w = (r, w') /\
    match r with
    | Ok record =>
        watch_channels w' = watch_channels w ++ [record] /\
        ~ In (WatchChannel.channel_id record) (channel_ids (watch_channels w)) /\
        stopped (trace w') = stopped (trace w) /\
        watched (trace w') = watched (trace w) ++ [WatchChannel.channel_id record]
    | Raise _ => watch_channels w' = watch_channels w
    end.
Proof.
  unfold register_changes_watch.
  destruct (truthy (Settings.connector_webhook_url (wiring_settings W)));
    [| eexists (Raise _), _; split; reflexivity].
  unfold bind at 1, secrets_token_hex, bind at 1, gets, bind at 1, modify, ret.
  unfold bind at 1. unfold bind at 1. unfold bind at 1. simpl.
  unfold bind at 1.
  set (w0 := set_entropy_drawn _ (set_entropy_drawn _ w)).
  pose proof (get_start_page_token_frame watch_channels
                ltac:(reflexivity) ltac:(reflexivity) ltac:(reflexivity)
                ltac:(apply field_blind; reflexivity) w0) as Hf1.
  pose proof (get_start_page_token_log w0) as Hl1.
  destruct (get_start_page_token W w0) as [[start_token|e] w1]; simpl in Hf1;
    [| eexists (Raise e), _; split; [reflexivity | exact Hf1]].
  specialize (Hl1 _ _ eq_refl). pose proof (ok_call _ _ _ _ Hl1 eq_refl) as Hs1.
  unfold bind at 1.
  match goal with
  | |- context [start_changes_watch W start_token ?body w1] =>
      pose proof (start_changes_watch_frame watch_channels
                    ltac:(reflexivity) ltac:(reflexivity) ltac:(reflexivity)
                    ltac:(apply field_blind; reflexivity) start_token body w1) as Hf2;
      pose proof (start_changes_watch_log start_token body w1) as Hl2;
      destruct (start_changes_watch W start_token body w1) as [[response|e] w2]
  end; simpl in Hf2;
    [| eexists (Raise e), _; split; [reflexivity | rewrite Hf2; exact Hf1]].
  specialize (Hl2 _ _ eq_refl). pose proof (ok_call _ _ _ _ Hl2 eq_refl) as Hs2.
  unfold bind at 1, add_channel, bind at 1, gets. simpl.
  rewrite Hf2, Hf1. change (watch_channels w0) with (watch_channels w).
  destruct (find_channel (token_hex (wiring_env W) (entropy_drawn w) 16) (watch_channels w))
    eqn:Hfind.
  - eexists (Raise IntegrityError), _. split; [reflexivity|].
    simpl. rewrite Hf2. exact Hf1.
  - eexists (Ok _), _. split; [reflexivity|]. simpl.
    rewrite Hf2, Hf1. split; [reflexivity|].
    split; [apply find_channel_none; exact Hfind|].
    unfold stopped, watched. rewrite successful_calls_db, Hs2, Hs1.
    unfold stops, watches. rewrite !omap_app. simpl. rewrite !app_nil_r.
    split; reflexivity.
Qed.



Lemma renew_channels_run threshold ttl_seconds w :
  renew_channels W threshold ttl_seconds w =
    renew_loop W (now w) threshold ttl_seconds (watch_channels w) []
               (set_trace (fun tr => tr ++ [EvDb SelectChannels]) w).
Proof. reflexivity. Qed.



(** ** Invalidation on 401 *)

(** An attempt answered 401 drops the cache entry of the client's account;
    any other attempt leaves the cache alone. *)
Lemma attempt_tokens bearer call loc w :
  exists s,
    trace (snd (attempt W bearer call loc w)) = trace w ++ [EvHttp bearer call s] /\
    tokens (snd (attempt W bearer call loc w)) =
      if bool_decide (s = Some 401)
      then delete (resolve_account W (Some (_account_id W))) (tokens w)
      else tokens w.
Proof.
  unfold attempt, try, send, bind, gets, emit, modify, elapse, ret, raise, invalidate.
  simpl.
  destruct (drive_api E (trace w) bearer call) as [response|]; simpl.
  - exists (Some (HttpResponse.status_code response)).
    destruct (Z.eqb_spec (HttpResponse.status_code response) 401) as [H401|H401]; simpl.
    { rewrite bool_decide_eq_true_2 by (f_equal; exact H401). split; reflexivity. }
    rewrite bool_decide_eq_false_2 by (intros Heq; inversion Heq; contradiction).
    destruct ((HttpResponse.status_code response =? 429)
              || (500 <=? HttpResponse.status_code response)); simpl;
      [split; reflexivity|].
    destruct (400 <=? HttpResponse.status_code response); split; reflexivity.
  - exists None. split; reflexivity.
Qed.

Lemma retrying_step n k bearer call loc w r loc' w1 :
  attempt W bearer call loc w = (Ok (r, loc'), w1) ->
  retrying W n k bearer call loc w =
    match r with
    | Ok response => (Ok (Ok response, loc'), w1)
    | Raise e =>
        if should_retry e then
          match n with
          | O => (Ok (Raise (RetryError e), loc'), w1)
          | S m =>
              retrying W m (S k) bearer call loc'
                       (snd ((emit (EvSleep k);; elapse W) w1))
          end
        else (Ok (Raise e, loc'), w1)
    end.
Proof.
  intros Hat.
  destruct n; simpl; unfold bind at 1; rewrite Hat;
    destruct r as [response|e]; try destruct (should_retry e); reflexivity.
Qed.

Lemma retrying_invalidates n : forall k bearer call loc w,
  exists log,
    http_log (trace (snd (retrying W n k bearer call loc w))) = http_log (trace w) ++ log /\
    (tokens (snd (retrying W n k bearer call loc w)) = tokens w \/
     tokens (snd (retrying W n k bearer call loc w)) =
       delete (resolve_account W (Some (_account_id W))) (tokens w)) /\
    (unauthorized log = true ->
     tokens (snd (retrying W n k bearer call loc w)) =
       delete (resolve_account W (Some (_account_id W))) (tokens w)).
Proof.
  induction n as [|n IH]; intros k bearer call loc w;
    destruct (attempt_tokens bearer call loc w) as (s & Htr & Htok);
    destruct (attempt_log bearer call loc w) as (r & loc' & w1 & s' & Hat & _ & _);
    rewrite Hat in Htr, Htok; simpl in Htr, Htok;
    rewrite (retrying_step _ _ _ _ _ _ _ _ _ Hat);
    assert (Hone : http_log (trace w1) = http_log (trace w) ++ [(call, s)])
      by (rewrite Htr, http_log_app; reflexivity);
    assert (Hstop : tokens w1 = tokens w \/
                    tokens w1 = delete (resolve_account W (Some (_account_id W))) (tokens w))
      by (rewrite Htok; destruct (bool_decide (s = Some 401)); auto);
    assert (Hun : unauthorized [(call, s)] = true ->
                  tokens w1 = delete (resolve_account W (Some (_account_id W))) (tokens w))
      by (rewrite Htok; simpl; rewrite orb_false_r;
          destruct (bool_decide (s = Some 401)); [reflexivity | discriminate]).
  - exists [(call, s)].
    destruct r as [response|e]; [|destruct (should_retry e)]; simpl; auto.
  - destruct r as [response|e]; [exists [(call, s)]; simpl; auto|].
    destruct (should_retry e); [|exists [(call, s)]; simpl; auto].
    set (w2 := snd ((emit (EvSleep k);; elapse W) w1)).
    destruct (IH (S k) bearer call loc' w2) as (log & Hlog & Hcases & Hinv).
    set (w3 := snd (retrying W n (S k) bearer call loc' w2)) in *.
    assert (Hw2 : http_log (trace w2) = http_log (trace w1))
      by (unfold w2; simpl; rewrite http_log_app; apply app_nil_r).
    change (tokens w2) with (tokens w1) in Hcases, Hinv.
    exists ((call, s) :: log). split; [|split].
    + rewrite Hlog, Hw2, Hone, <- app_assoc. reflexivity.
    + destruct Hcases as [Hc|Hc]; rewrite Hc.
      * exact Hstop.
      * destruct Hstop as [Hs|Hs]; rewrite Hs; [auto|].
        right. apply delete_delete_eq.
    + simpl. intros Hany. apply orb_true_iff in Hany.
      destruct Hany as [H1|H2].
      * assert (Hw1 : tokens w1 = delete (resolve_account W (Some (_account_id W))) (tokens w))
          by (apply Hun; simpl; rewrite H1; reflexivity).
        destruct Hcases as [Hc|Hc]; rewrite Hc, Hw1; [reflexivity|].
        apply delete_delete_eq.
      * rewrite (Hinv H2). destruct Hstop as [Hs|Hs]; rewrite Hs; [reflexivity|].
        apply delete_delete_eq.
Qed.

(** Whenever a request through the pipeline was answered 401, the cache
    holds no token for the client's account once [_request] is over. *)
Lemma request_401_invalidates call w :
  exists log,
    http_log (trace (snd (_request W call w))) = http_log (trace w) ++ log /\
    (unauthorized log = true ->
     tokens (snd (_request W call w)) !! resolve_account W (Some (_account_id W)) = None).
Proof.
  pose proof (get_token_http_log (Some (_account_id W)) w) as Hg.
  destruct (get_token W (Some (_account_id W)) w) as [[token|e] w1] eqn:Hgt; simpl in Hg.
  - destruct (retrying_invalidates (stop_after_attempt - 1) 1 token call (mkLocals 500 None) w1)
      as (log & Hlog & _ & Hinv).
    destruct (retrying W (stop_after_attempt - 1) 1 token call (mkLocals 500 None) w1)
      as [[[r loc]|e] w2] eqn:Hrt; simpl in Hlog, Hinv.
    + assert (Hreq : exists ev, snd (_request W call w) = set_trace (fun tr => tr ++ [ev]) w2 /\
                                http_log [ev] = []).
      { unfold _request, bind at 1. rewrite Hgt. unfold bind at 1. rewrite Hrt.
        destruct r; eexists; split; reflexivity. }
      destruct Hreq as (ev & -> & Hev). exists log. simpl.
      rewrite http_log_app, Hev, app_nil_r, Hlog, Hg. split; [reflexivity|].
      intros Hun. rewrite (Hinv Hun). apply lookup_delete_eq.
    + assert (Hreq : snd (_request W call w) = w2).
      { unfold _request, bind at 1. rewrite Hgt. unfold bind at 1. rewrite Hrt.
        reflexivity. }
      rewrite Hreq. exists log. rewrite Hlog, Hg. split; [reflexivity|].
      intros Hun. rewrite (Hinv Hun). apply lookup_delete_eq.
  - assert (Hreq : snd (_request W call w) = w1).
    { unfold _request, bind at 1. rewrite Hgt. reflexivity. }
    rewrite Hreq. exists []. rewrite app_nil_r. split; [exact Hg | discriminate].
Qed.

(** With a repository and no service account, a [get_token] call that
    misses the cache returns the access token of the stored credential as
    long as the store deems it valid, without any token exchange. *)
Lemma get_token_reuses_stored_token account_id w r a e :
  wiring_repository W = true ->
  truthy (Settings.googledrive_service_account_key_path (wiring_settings W)) = false ->
  tokens w !! resolve_account W account_id = None ->
  token_credentials w !! resolve_account W account_id = Some r ->
  TokenCredential.access_token r = Some a -> a <> "" ->
  TokenCredential.expires_at r = Some e ->
  now w < e - seconds 60 ->
  exists w',
    get_token W account_id w = (Ok a, w') /\
    trace w' = trace w ++ [EvDb (SelectCredential (resolve_account W account_id))] /\
    exchanges (trace w') = exchanges (trace w).
Proof.
  intros Hrepo Hsa Hmiss Hrec Ha Hne He Hnow.
  unfold get_token, get_token_refresh, get_credentials, bind, gets, utcnow, emit, modify.
  simpl. rewrite Hmiss. simpl. rewrite Hsa, Hrepo. simpl. rewrite Hrec. simpl.
  rewrite Ha, He. simpl.
  apply String.eqb_neq in Hne. rewrite Hne. simpl.
  unfold is_valid. simpl. apply Z.ltb_lt in Hnow. rewrite Hnow. simpl.
  eexists. split; [reflexivity|]. simpl. split; [reflexivity|].
  rewrite exchanges_app. unfold exchanges at 2. simpl. lia.
Qed.


(** ** More on the token provider *)

(** On a cache miss in refresh-token mode, with no valid access token in
    the store, [get_token] is the exchange on the row it looked up. *)
Lemma get_token_miss account_id w :
  truthy (Settings.googledrive_service_account_key_path (wiring_settings W)) = false ->
  cache_hit (now w) (tokens w !! resolve_account W account_id) = None ->
  stored_hit (now w) (stored_record W (resolve_account W account_id) w) = None ->
  get_token W account_id w =
    exchange_refresh_token W (resolve_account W account_id)
      (stored_record W (resolve_account W account_id) w)
      (looked_up W (resolve_account W account_id) w).
Proof.
  intros Hsa Hmiss Hstored.
  unfold get_token, get_token_refresh, bind, gets, utcnow. simpl.
  rewrite Hmiss, Hsa. unfold stored_record, looked_up in *.
  destruct (wiring_repository W); simpl.
  - unfold get_credentials, bind, emit, modify, gets. simpl.
    rewrite Hstored. reflexivity.
  - simpl in Hstored. reflexivity.
Qed.

(** The exchange splits on the refresh token it can find and on what the
    token endpoint answers. *)
Lemma exchange_refresh_token_unfold acct record w :
  exchange_refresh_token W acct record w =
    match chosen_refresh_token W record with
    | None => (Raise no_refresh_token, w)
    | Some rt =>
        if String.eqb rt "" then (Raise no_refresh_token, w) else
        (response <- post_token W (refresh_form W record rt);;
         if 400 <=? HttpResponse.status_code response then
           error_payload <- json response;;
           raise (DriveAPIError
                    (String.append "Failed to refresh Google Drive access token: "
                       (match TokenJson.error_description error_payload with
                        | Some d => d
                        | None => match TokenJson.error error_payload with
                                  | Some e => e
                                  | None => "Unknown error"
                                  end
                        end))
                    (HttpResponse.status_code response) (PayToken error_payload))
         else
           data <- json response;;
           match TokenJson.access_token data with
           | None => raise (KeyError "access_token")
           | Some access_token =>
               t <- utcnow;;
               modify (set_tokens
                         (insert acct
                            (AccessToken.mk access_token
                               (Some (t + seconds (default 3600 (TokenJson.expires_in data)))))));;
               (if wiring_repository W
                then upsert_credentials acct access_token
                       (por (TokenJson.refresh_token data) (Some rt))
                       (default 3600 (TokenJson.expires_in data))
                       (por (TokenJson.scope data) (stored_scopes record)) false;;
                     ret tt
                else ret tt);;
               ret access_token
           end) w
    end.
Proof.
  unfold exchange_refresh_token, chosen_refresh_token, refresh_form,
    stored_refresh_token, stored_scopes.
  destruct record as [r|]; simpl.
  - destruct (truthy (TokenCredential.refresh_token r)) eqn:Hr; simpl; rewrite ?Hr.
    + destruct (TokenCredential.refresh_token r) as [rt|]; [|reflexivity].
      destruct (String.eqb rt ""); reflexivity.
    + destruct (Settings.googledrive_refresh_token (wiring_settings W)) as [rt|];
        [|reflexivity].
      destruct (String.eqb rt ""); reflexivity.
  - destruct (Settings.googledrive_refresh_token (wiring_settings W)) as [rt|];
      [|reflexivity].
    destruct (String.eqb rt ""); reflexivity.
Qed.


Lemma token_posts_app tr1 tr2 : token_posts (tr1 ++ tr2) = token_posts tr1 ++ token_posts tr2.
Proof. apply omap_app. Qed.

Lemma looked_up_frame acct w :
  tokens (looked_up W acct w) = tokens w /\
  token_credentials (looked_up W acct w) = token_credentials w /\
  now (looked_up W acct w) = now w /\
  token_posts (trace (looked_up W acct w)) = token_posts (trace w) /\
  http_log (trace (looked_up W acct w)) = http_log (trace w) /\
  exchanges (trace (looked_up W acct w)) = exchanges (trace w).
Proof.
  unfold looked_up. destruct (wiring_repository W); simpl;
    rewrite ?token_posts_app, ?http_log_app, ?exchanges_app; simpl;
    rewrite ?app_nil_r; repeat split; unfold exchanges; simpl; lia.
Qed.

(** X1.  In refresh-token mode, when the cache misses, the store holds no
    valid access token and no refresh token can be found in the store or
    in the settings, [get_token] raises the 401 [DriveAPIError] at once:
    nothing is posted to the token endpoint, and neither the cache nor the
    store changes. *)
Theorem get_token_no_refresh_token account_id w :
  truthy (Settings.googledrive_service_account_key_path (wiring_settings W)) = false ->
  cache_hit (now w) (tokens w !! resolve_account W account_id) = None ->
  stored_hit (now w) (stored_record W (resolve_account W account_id) w) = None ->
  truthy (chosen_refresh_token W (stored_record W (resolve_account W account_id) w)) = false ->
  exists w',
    get_token W account_id w =
      (Raise (DriveAPIError "No refresh token configured for Google Drive connector" 401
                            PayNone), w') /\
    tokens w' = tokens w /\
    token_credentials w' = token_credentials w /\
    token_posts (trace w') = token_posts (trace w) /\
    exchanges (trace w') = exchanges (trace w).
Proof.
  intros Hsa Hmiss Hstored Hnone.
  exists (looked_up W (resolve_account W account_id) w).
  destruct (looked_up_frame (resolve_account W account_id) w)
    as (Ht & Hc & _ & Hp & _ & Hx).
  split; [|auto].
  rewrite (get_token_miss _ _ Hsa Hmiss Hstored), exchange_refresh_token_unfold.
  destruct (chosen_refresh_token W _) as [rt|]; [|reflexivity].
  simpl in Hnone. apply negb_false_iff in Hnone. rewrite Hnone. reflexivity.
Qed.

(** X2.  When the token endpoint answers the exchange with a status of 400
    or more and a JSON body, [get_token] raises a [DriveAPIError] that
    carries that status and that body; no token is cached and the store is
    not written. *)
Theorem get_token_exchange_rejected account_id w rt response body :
  truthy (Settings.googledrive_service_account_key_path (wiring_settings W)) = false ->
  cache_hit (now w) (tokens w !! resolve_account W account_id) = None ->
  stored_hit (now w) (stored_record W (resolve_account W account_id) w) = None ->
  chosen_refresh_token W (stored_record W (resolve_account W account_id) w) = Some rt ->
  rt <> "" ->
  token_endpoint E (trace (looked_up W (resolve_account W account_id) w))
    (refresh_form W (stored_record W (resolve_account W account_id) w) rt) = Some response ->
  400 <= HttpResponse.status_code response ->
  HttpResponse.json response = Some body ->
  exists message w',
    get_token W account_id w =
      (Raise (DriveAPIError message (HttpResponse.status_code response) (PayToken body)), w') /\
    tokens w' = tokens w /\
    token_credentials w' = token_credentials w /\
    token_posts (trace w') =
      token_posts (trace w)
        ++ [(refresh_form W (stored_record W (resolve_account W account_id) w) rt,
             Some (HttpResponse.status_code response))].
Proof.
  intros Hsa Hmiss Hstored Hchosen Hne Hpost Hstatus Hjson.
  destruct (looked_up_frame (resolve_account W account_id) w)
    as (Ht & Hc & _ & Hp & _ & _).
  rewrite (get_token_miss _ _ Hsa Hmiss Hstored), exchange_refresh_token_unfold, Hchosen.
  apply String.eqb_neq in Hne. rewrite Hne.
  unfold post_token, bind, gets, emit, modify, elapse, json, raise, ret. simpl.
  rewrite Hpost. simpl.
  apply Z.leb_le in Hstatus. rewrite Hstatus, Hjson.
  do 2 eexists. split; [reflexivity|]. simpl.
  rewrite token_posts_app, Hp. auto.
Qed.



(** X4.  [get_token] for one account never changes what the cache or the
    store hold for another account, whatever the outcome. *)
Theorem get_token_other_accounts account_id w other :
  other <> resolve_account W account_id ->
  tokens (snd (get_token W account_id w)) !! other = tokens w !! other /\
  token_credentials (snd (get_token W account_id w)) !! other = token_credentials w !! other.
Proof.
  intros Hother.
  destruct (get_token W account_id w) as [r w'] eqn:H. simpl.
  revert H.
  unfold get_token, get_token_service_account, get_token_refresh,
    exchange_refresh_token, _obtain_service_account_token, post_token,
    upsert_credentials, get_credentials, cache_hit, stored_hit, json,
    utcnow, elapse, emit, modify, gets, bind, ret, raise.
  simpl. intros H. split_run H.
  all: inversion H; subst; clear H; simpl.
  all: rewrite ?lookup_insert_ne by congruence.
  all: split; reflexivity.
Qed.

(** X5.  In a connector built without a repository (and without a service
    account), a successful [get_token] right after [invalidate] has always
    made exactly one exchange, and what it returns is the access token of
    the endpoint's answer to it. *)
Theorem get_token_after_invalidate_exchanges account_id w s w2 :
  wiring_repository W = false ->
  truthy (Settings.googledrive_service_account_key_path (wiring_settings W)) = false ->
  get_token W account_id (snd (invalidate W account_id w)) = (Ok s, w2) ->
  exchanges (trace w2) = S (exchanges (trace w)) /\
  exists form response data,
    token_posts (trace w2) =
      token_posts (trace w) ++ [(form, Some (HttpResponse.status_code response))] /\
    token_endpoint E (trace w) form = Some response /\
    HttpResponse.json response = Some data /\
    TokenJson.access_token data = Some s.
Proof.
  intros Hrepo Hsa.
  unfold invalidate, modify. simpl.
  rewrite get_token_miss; simpl; rewrite ?lookup_delete_eq; try reflexivity; try exact Hsa.
  2:{ unfold stored_record. rewrite Hrepo. reflexivity. }
  rewrite exchange_refresh_token_unfold.
  unfold stored_record, looked_up. rewrite Hrepo.
  destruct (chosen_refresh_token W None) as [rt|]; [|discriminate].
  destruct (String.eqb rt ""); [discriminate|].
  unfold post_token, utcnow, bind, gets, emit, modify, elapse, json, raise, ret.
  simpl.
  destruct (token_endpoint E (trace w) (refresh_form W None rt)) as [response|] eqn:Hpost;
    simpl; [|discriminate].
  destruct (400 <=? HttpResponse.status_code response).
  { destruct (HttpResponse.json response); discriminate. }
  destruct (HttpResponse.json response) as [data|] eqn:Hjson; [|discriminate].
  destruct (TokenJson.access_token data) as [a|] eqn:Ha; [|discriminate].
  intros H. inversion H; subst; clear H. simpl.
  split.
  - rewrite exchanges_app. unfold exchanges at 2. simpl. lia.
  - exists (refresh_form W None rt), response, data.
    rewrite token_posts_app. auto.
Qed.

(** X6.  In service-account mode a cache miss makes one refresh against
    the identity provider and never posts to the token endpoint; the token
    and expiry it yields are returned and cached, a failure is raised with
    the cache as it was; and every refresh token in the store stays as it
    is. *)
Theorem get_token_service_account_mode account_id w :
  truthy (Settings.googledrive_service_account_key_path (wiring_settings W)) = true ->
  cache_hit (now w) (tokens w !! resolve_account W account_id) = None ->
  token_posts (trace (snd (get_token W account_id w))) = token_posts (trace w) /\
  exchanges (trace (snd (get_token W account_id w))) = S (exchanges (trace w)) /\
  (forall token expiry,
     service_account E (trace w) = Some (token, expiry) ->
     fst (get_token W account_id w) = Ok token /\
     tokens (snd (get_token W account_id w)) =
       <[resolve_account W account_id := AccessToken.mk token expiry]> (tokens w)) /\
  (service_account E (trace w) = None ->
   fst (get_token W account_id w) = Raise RefreshError /\
   tokens (snd (get_token W account_id w)) = tokens w) /\
  (forall a r,
     token_credentials w !! a = Some r ->
     exists r',
       token_credentials (snd (get_token W account_id w)) !! a = Some r' /\
       TokenCredential.refresh_token r' = TokenCredential.refresh_token r).
Proof.
  intros Hsa Hmiss.
  assert (Hrun : get_token W account_id w =
                 get_token_service_account W (resolve_account W account_id) w).
  { unfold get_token, bind, gets, utcnow. simpl. rewrite Hmiss, Hsa. reflexivity. }
  rewrite Hrun. clear Hrun.
  unfold get_token_service_account, _obtain_service_account_token,
    upsert_credentials, get_credentials, utcnow, bind, gets, emit, modify, elapse,
    ret, raise.
  simpl.
  destruct (service_account E (trace w)) as [[token expiry]|]; simpl.
  - destruct (wiring_repository W); [destruct expiry as [expires_at|]|]; simpl;
      rewrite ?token_posts_app, ?exchanges_app; unfold exchanges; simpl;
      rewrite ?app_nil_r.
    + split; [reflexivity|]. split; [lia|].
      split; [intros ? ? Heq; inversion Heq; subst; split; reflexivity|].
      split; [discriminate|].
      intros a r Ha.
      destruct (decide (a = resolve_account W account_id)) as [->|Hne].
      * rewrite lookup_insert_eq, Ha. simpl. eauto.
      * rewrite lookup_insert_ne by congruence. eauto.
    + split; [reflexivity|]. split; [lia|].
      split; [intros ? ? Heq; inversion Heq; subst; split; reflexivity|].
      split; [discriminate | eauto].
    + split; [reflexivity|]. split; [lia|].
      split; [intros ? ? Heq; inversion Heq; subst; split; reflexivity|].
      split; [discriminate | eauto].
  - rewrite token_posts_app, exchanges_app. unfold exchanges. simpl.
    rewrite app_nil_r. split; [reflexivity|]. split; [lia|].
    split; [discriminate|]. split; [split; reflexivity | eauto].
Qed.


(** ** More on the credential store *)

(** X7.  What [upsert_credentials] returns is what [get_credentials] then
    reads for that account, the other accounts read as before, and the
    row carries the new access token, the expiry clock + [expires_in]
    seconds and the service-account flag of the call; for an account the
    store did not know, the row is exactly the arguments. *)
Theorem upsert_then_get_credentials
    account_id access_token refresh_token expires_in scopes is_service_account w :
  exists r w1,
    upsert_credentials account_id access_token refresh_token expires_in scopes
                       is_service_account w = (Ok r, w1) /\
    fst (get_credentials account_id w1) = Ok (Some r) /\
    (forall other, other <> account_id ->
                   fst (get_credentials other w1) = fst (get_credentials other w)) /\
    TokenCredential.access_token r = Some access_token /\
    TokenCredential.expires_at r = Some (now w + seconds expires_in) /\
    TokenCredential.is_service_account r = is_service_account /\
    (token_credentials w !! account_id = None ->
     r = TokenCredential.mk account_id (Some access_token) refresh_token
                            (Some (now w + seconds expires_in)) scopes is_service_account).
Proof.
  unfold upsert_credentials, get_credentials, utcnow, bind, gets, emit, modify, ret.
  simpl. do 2 eexists. split; [reflexivity|]. simpl.
  rewrite lookup_insert_eq. split; [reflexivity|].
  split; [intros other Hne; rewrite lookup_insert_ne by congruence; reflexivity|].
  destruct (token_credentials w !! account_id); simpl; repeat split; auto; discriminate.
Qed.

(** X8.  After [store_refresh_token] for an account the store did not
    know, the credential holds no access token, so the next [get_token]
    (cache miss, refresh-token mode with a repository) goes to the token
    endpoint, and the form it posts carries exactly the stored refresh
    token and scopes, whatever refresh token the settings name. *)
Theorem stored_refresh_token_is_used account_id refresh_token scopes w :
  wiring_repository W = true ->
  truthy (Settings.googledrive_service_account_key_path (wiring_settings W)) = false ->
  tokens w !! resolve_account W account_id = None ->
  token_credentials w !! resolve_account W account_id = None ->
  refresh_token <> "" ->
  exists status,
    token_posts (trace (snd (get_token W account_id
                               (snd (store_refresh_token (resolve_account W account_id)
                                                         refresh_token scopes w))))) =
      token_posts (trace w)
        ++ [(TokenForm.mk (Settings.googledrive_client_id (wiring_settings W))
                          (Settings.googledrive_client_secret (wiring_settings W))
                          "refresh_token" refresh_token
                          (if truthy scopes then scopes else None), status)].
Proof.
  intros Hrepo Hsa Hcache Hstore Hne.
  set (acct := resolve_account W account_id) in *.
  set (w1 := snd (store_refresh_token acct refresh_token scopes w)).
  assert (Hrow : token_credentials w1 !! acct =
                 Some (TokenCredential.mk acct None (Some refresh_token) None scopes false)).
  { unfold w1, store_refresh_token, get_credentials, bind, gets, emit, modify, ret.
    simpl. rewrite Hstore, lookup_insert_eq. reflexivity. }
  assert (Hposts : token_posts (trace w1) = token_posts (trace w)).
  { unfold w1, store_refresh_token, get_credentials, bind, gets, emit, modify, ret.
    simpl. rewrite !token_posts_app. simpl. rewrite !app_nil_r. reflexivity. }
  assert (Htok : tokens w1 = tokens w) by reflexivity.
  clearbody w1.
  apply String.eqb_neq in Hne.
  rewrite get_token_miss; fold acct; rewrite ?Htok, ?Hcache; try reflexivity; try exact Hsa.
  2:{ unfold stored_record. rewrite Hrepo, Hrow. reflexivity. }
  rewrite exchange_refresh_token_unfold.
  unfold stored_record, looked_up. rewrite Hrepo, Hrow.
  unfold chosen_refresh_token, refresh_form, stored_refresh_token, stored_scopes.
  simpl. rewrite Hne. simpl. rewrite Hne.
  unfold post_token, upsert_credentials, get_credentials, utcnow, bind, gets, emit,
    modify, elapse, json, raise, ret.
  simpl. rewrite ?Hne. simpl.
  match goal with
  | |- context [token_endpoint E ?tr ?form] =>
      exists (HttpResponse.status_code <$> token_endpoint E tr form);
      destruct (token_endpoint E tr form) as [response|]
  end; simpl.
  - destruct (400 <=? HttpResponse.status_code response);
      destruct (HttpResponse.json response) as [data|]; simpl;
      try destruct (TokenJson.access_token data); simpl;
      rewrite !token_posts_app, Hposts; simpl; rewrite ?app_nil_r; reflexivity.
  - rewrite !token_posts_app, Hposts. simpl. rewrite ?app_nil_r. reflexivity.
Qed.


(** ** More on the request pipeline *)

(** What everything before the [finally] block leaves alone: in
    particular the metrics records. *)
Section QuietFrame.
Context {X : Type} (f : World -> X).
Hypothesis f_tokens : forall g w, f (set_tokens g w) = f w.
Hypothesis f_credentials : forall g w, f (set_token_credentials g w) = f w.
Hypothesis f_now : forall t w, f (set_now t w) = f w.
Hypothesis f_events : event_blind f not_observe.

Lemma get_token_quiet a : preserves f (get_token W a).
Proof.
  unfold get_token, get_token_service_account, get_token_refresh,
    exchange_refresh_token, _obtain_service_account_token, post_token,
    upsert_credentials, get_credentials, utcnow.
  frame.
Qed.

Lemma attempt_quiet bearer call loc : preserves f (attempt W bearer call loc).
Proof. unfold attempt, send, invalidate. frame. Qed.

Lemma retrying_quiet n : forall k bearer call loc,
  preserves f (retrying W n k bearer call loc).
Proof.
  induction n as [|n IH]; intros k bearer call loc; simpl;
    (apply preserves_bind; [apply attempt_quiet |]);
    intros [[response|e] loc']; frame.
  apply IH.
Qed.
End QuietFrame.

Lemma observations_app tr1 tr2 :
  observations (tr1 ++ tr2) = observations tr1 ++ observations tr2.
Proof. apply omap_app. Qed.

Lemma observations_quiet : event_blind (fun w => observations (trace w)) not_observe.
Proof. apply omap_blind. intros [] H; try reflexivity; contradiction. Qed.




(** X10.  A request whose token was obtained leaves exactly one metrics
    record, whatever its outcome; a request whose token could not be
    obtained raises that error, talks to Drive not at all and leaves no
    metrics record. *)
Theorem request_observed_once call w :
  match get_token W (Some (_account_id W)) w with
  | (Ok _, _) =>
      exists status error_type,
        observations (trace (snd (_request W call w))) =
          observations (trace w) ++ [(call, status, error_type)]
  | (Raise e, w1) =>
      _request W call w = (Raise e, w1) /\
      observations (trace w1) = observations (trace w) /\
      http_log (trace w1) = http_log (trace w)
  end.
Proof.
  assert (Hq : observations (trace (snd (get_token W (Some (_account_id W)) w))) =
               observations (trace w)).
  { apply (get_token_quiet (fun w => observations (trace w)));
      try reflexivity; apply observations_quiet. }
  pose proof (get_token_http_log (Some (_account_id W)) w) as Hg.
  destruct (get_token W (Some (_account_id W)) w) as [[token|e] w1] eqn:Hgt;
    simpl in Hq, Hg.
  - assert (Hr : observations (trace (snd (retrying W (stop_after_attempt - 1) 1 token
                                            call (mkLocals 500 None) w1))) =
                 observations (trace w1)).
    { apply (retrying_quiet (fun w => observations (trace w)));
        try reflexivity; apply observations_quiet. }
    destruct (retrying_log (stop_after_attempt - 1) 1 token call (mkLocals 500 None) w1)
      as (r & loc & w2 & delta & Hrt & _).
    rewrite Hrt in Hr. simpl in Hr.
    unfold _request, bind at 1. rewrite Hgt. unfold bind at 1. rewrite Hrt.
    destruct r as [response|e]; simpl;
      do 2 eexists; rewrite observations_app, Hr, Hq; reflexivity.
  - split; [unfold _request, bind at 1; rewrite Hgt; reflexivity|]. auto.
Qed.


Lemma get_token_observations a :
  preserves (fun w => observations (trace w)) (get_token W a).
Proof.
  apply (get_token_quiet (fun w => observations (trace w)));
    try reflexivity; apply observations_quiet.
Qed.

(** X11.  A Drive answer of 400 to 499 other than 401 and 429 is fatal at
    once: [_request] makes that one exchange and no other, raises the
    [DriveAPIError] carrying the status and the JSON body of the answer
    ([JSONDecodeError] when the body is not JSON), leaves the token cache
    as [get_token] left it, and the one metrics record carries that status
    and the label "client_error". *)
Theorem request_client_error_not_retried call w token w1 response :
  get_token W (Some (_account_id W)) w = (Ok token, w1) ->
  drive_api E (trace w1) token call = Some response ->
  400 <= HttpResponse.status_code response < 500 ->
  HttpResponse.status_code response <> 401 ->
  HttpResponse.status_code response <> 429 ->
  exists w',
    _request W call w =
      (Raise (match HttpResponse.json response with
              | Some body =>
                  DriveAPIError "Drive API returned error"
                                (HttpResponse.status_code response) (PayDrive body)
              | None => JSONDecodeError
              end), w') /\
    trace w' =
      trace w1 ++ [EvHttp token call (Some (HttpResponse.status_code response));
                   EvObserve call (HttpResponse.status_code response) (Some "client_error")] /\
    http_log (trace w') =
      http_log (trace w) ++ [(call, Some (HttpResponse.status_code response))] /\
    tokens w' = tokens w1.
Proof.
  intros Hgt Hapi [Hlo Hhi] H401 H429.
  pose proof (get_token_http_log (Some (_account_id W)) w) as Hg.
  rewrite Hgt in Hg. simpl in Hg.
  apply Z.eqb_neq in H401. apply Z.eqb_neq in H429.
  assert (H5 : (500 <=? HttpResponse.status_code response) = false)
    by (apply Z.leb_gt; lia).
  apply Z.leb_le in Hlo.
  unfold _request, bind at 1. rewrite Hgt.
  unfold stop_after_attempt. simpl.
  unfold attempt, try, send, elapse, emit, modify, gets, bind, ret, raise. simpl.
  rewrite Hapi. simpl. rewrite H401, H429, H5, Hlo. simpl.
  destruct (HttpResponse.json response) as [body|]; simpl;
    eexists; (split; [reflexivity|]); simpl; rewrite <- !app_assoc; simpl;
    (split; [reflexivity|]); rewrite !http_log_app, Hg; simpl;
    rewrite ?app_nil_r; split; reflexivity.
Qed.

(** X12.  The metrics label is not reset between attempts: when the first
    exchange is answered 429 or 5xx and the second below 400, [_request]
    returns the second response after exactly these two exchanges, and its
    one metrics record carries the status of the second answer together
    with the label "retryable" of the first. *)
Theorem request_success_after_retry_keeps_label call w token w1 first second :
  get_token W (Some (_account_id W)) w = (Ok token, w1) ->
  drive_api E (trace w1) token call = Some first ->
  HttpResponse.status_code first = 429 \/ 500 <= HttpResponse.status_code first ->
  drive_api E (trace w1 ++ [EvHttp token call (Some (HttpResponse.status_code first));
                            EvSleep 1]) token call = Some second ->
  HttpResponse.status_code second < 400 ->
  exists w',
    _request W call w = (Ok second, w') /\
    http_log (trace w') =
      http_log (trace w) ++ [(call, Some (HttpResponse.status_code first));
                             (call, Some (HttpResponse.status_code second))] /\
    observations (trace w') =
      observations (trace w)
        ++ [(call, HttpResponse.status_code second, Some "retryable")].
Proof.
  intros Hgt Hfirst Hstatus Hsecond Hok.
  pose proof (get_token_http_log (Some (_account_id W)) w) as Hg.
  pose proof (get_token_observations (Some (_account_id W)) w) as Hq.
  rewrite Hgt in Hg, Hq. simpl in Hg, Hq.
  assert (H401 : (HttpResponse.status_code first =? 401) = false)
    by (apply Z.eqb_neq; lia).
  assert (Hretry : (HttpResponse.status_code first =? 429)
                   || (500 <=? HttpResponse.status_code first) = true).
  { apply orb_true_iff. destruct Hstatus as [H|H];
      [left; apply Z.eqb_eq | right; apply Z.leb_le]; exact H. }
  assert (H401' : (HttpResponse.status_code second =? 401) = false)
    by (apply Z.eqb_neq; lia).
  assert (Hretry' : (HttpResponse.status_code second =? 429)
                    || (500 <=? HttpResponse.status_code second) = false).
  { apply orb_false_iff. split; [apply Z.eqb_neq | apply Z.leb_gt]; lia. }
  assert (H400 : (400 <=? HttpResponse.status_code second) = false)
    by (apply Z.leb_gt; lia).
  unfold _request, bind at 1. rewrite Hgt.
  unfold stop_after_attempt. simpl.
  unfold attempt, try, send, elapse, emit, modify, gets, bind, ret, raise. simpl.
  rewrite Hfirst. simpl. rewrite H401, Hretry. simpl.
  rewrite <- !app_assoc. simpl. rewrite Hsecond. simpl.
  rewrite H401', Hretry', H400. simpl.
  eexists. split; [reflexivity|]. simpl.
  rewrite !http_log_app, !observations_app, Hg, Hq. simpl.
  rewrite <- !app_assoc. split; reflexivity.
Qed.


(** ** More on change sync *)

(** X13.  What a successful [sync_changes] returns as cursor is what it
    has persisted for the resource, the other checkpoints being as they
    were; [initialised] tells whether the resource held no cursor before;
    and a resource that held a cursor holds one afterwards, so that the
    next call fetches changes again rather than starting over. *)
Theorem sync_changes_persists_returned_cursor resource page_size w result w' :
  sync_changes W resource page_size w = (Ok result, w') ->
  exists c,
    sync_checkpoints w' = <[(sync_account_id W, resource) := c]> (sync_checkpoints w) /\
    SyncCheckpoint.cursor c = SyncResult.cursor result /\
    SyncResult.initialised result =
      negb (is_some (held_cursor (sync_checkpoints w !! (sync_account_id W, resource)))) /\
    held_cursor (sync_checkpoints w' !! (sync_account_id W, resource)) =
      (if truthy (SyncResult.cursor result) then SyncResult.cursor result else None) /\
    (SyncResult.initialised result = false -> truthy (SyncResult.cursor result) = true).
Proof.
  unfold sync_changes, bind at 1. rewrite get_checkpoint_run.
  destruct (held_cursor (sync_checkpoints w !! (sync_account_id W, resource)))
    as [cursor|] eqn:Hheld.
  - unfold bind at 1.
    pose proof (list_changes_frame sync_checkpoints
                  ltac:(reflexivity) ltac:(reflexivity) ltac:(reflexivity)
                  ltac:(apply field_blind; reflexivity)
                  cursor page_size (selected W resource w)) as Hf.
    destruct (list_changes W cursor page_size (selected W resource w)) as [[payload|e1] w1];
      simpl in Hf; [|discriminate].
    unfold bind at 1, utcnow, gets. unfold bind at 1.
    match goal with
    | |- context [upsert_checkpoint W resource ?c ?t w1] =>
        destruct (upsert_checkpoint_run resource c t w1)
          as (c1 & w2 & Hup & Htab & Hcur & _)
    end.
    rewrite Hup. intros Hrun. inversion Hrun; subst; clear Hrun. simpl.
    assert (Htruthy : truthy (por (por (DriveJson.newStartPageToken payload)
                                       (DriveJson.nextPageToken payload)) (Some cursor)) = true).
    { unfold held_cursor in Hheld.
      destruct (sync_checkpoints w !! (sync_account_id W, resource)) as [c0|]; [|discriminate].
      destruct (truthy (SyncCheckpoint.cursor c0)) eqn:Hc0; [|discriminate].
      rewrite Hheld in Hc0.
      unfold por.
      destruct (truthy (DriveJson.newStartPageToken payload)) eqn:Hn; rewrite ?Hn; auto.
      destruct (truthy (DriveJson.nextPageToken payload)) eqn:Hp; rewrite ?Hp; auto. }
    exists c1. rewrite Htab, Hf, lookup_insert_eq. simpl. rewrite Hcur, Htruthy.
    repeat split; auto.
  - unfold bind at 1.
    pose proof (get_start_page_token_frame sync_checkpoints
                  ltac:(reflexivity) ltac:(reflexivity) ltac:(reflexivity)
                  ltac:(apply field_blind; reflexivity)
                  (selected W resource w)) as Hf.
    destruct (get_start_page_token W (selected W resource w)) as [[start_token|e1] w1];
      simpl in Hf; [|discriminate].
    unfold bind at 1, utcnow, gets. unfold bind at 1.
    match goal with
    | |- context [upsert_checkpoint W resource ?c ?t w1] =>
        destruct (upsert_checkpoint_run resource c t w1)
          as (c1 & w2 & Hup & Htab & Hcur & _)
    end.
    rewrite Hup. intros Hrun. inversion Hrun; subst; clear Hrun. simpl.
    exists c1. rewrite Htab, Hf, lookup_insert_eq. simpl. rewrite Hcur.
    repeat split; auto. discriminate.
Qed.

(** X14.  Whatever its outcome, [sync_changes] makes at most five Drive
    exchanges, all for one call: the start-page-token endpoint when the
    resource holds no cursor, else the change list at the held cursor with
    a page size between 1 and 1000 (the requested one when it is in that
    range). *)
Theorem sync_changes_calls resource page_size w :
  exists log,
    http_log (trace (snd (sync_changes W resource page_size w))) = http_log (trace w) ++ log /\
    (length log <= 5)%nat /\
    match held_cursor (sync_checkpoints w !! (sync_account_id W, resource)) with
    | None => Forall (fun x => fst x = GetStartPageToken) log
    | Some cursor =>
        exists size,
          1 <= size <= 1000 /\
          (1 <= page_size <= 1000 -> size = page_size) /\
          Forall (fun x => fst x = ListChanges cursor size) log
    end.
Proof.
  unfold sync_changes, bind at 1. rewrite get_checkpoint_run.
  destruct (held_cursor (sync_checkpoints w !! (sync_account_id W, resource)))
    as [cursor|].
  - unfold bind at 1.
    pose proof (list_changes_log cursor page_size (selected W resource w)) as Hl.
    destruct (list_changes W cursor page_size (selected W resource w)) as [[payload|e1] w1].
    + destruct (Hl _ _ eq_refl) as (log & Hlog & Hall & Hlen & _).
      unfold bind at 1, utcnow, gets. unfold bind at 1.
      match goal with
      | |- context [upsert_checkpoint W resource ?c ?t w1] =>
          destruct (upsert_checkpoint_run resource c t w1)
            as (c1 & w2 & Hup & _ & _ & _ & Hhttp)
      end.
      rewrite Hup. simpl. exists log.
      rewrite Hhttp, Hlog, selected_http_log.
      split; [reflexivity|]. split; [exact Hlen|].
      exists (Z.min (Z.max page_size 1) 1000). repeat split; auto; lia.
    + destruct (Hl _ _ eq_refl) as (log & Hlog & Hall & Hlen & _).
      simpl. exists log. rewrite Hlog, selected_http_log.
      split; [reflexivity|]. split; [exact Hlen|].
      exists (Z.min (Z.max page_size 1) 1000). repeat split; auto; lia.
  - unfold bind at 1.
    pose proof (get_start_page_token_log (selected W resource w)) as Hl.
    destruct (get_start_page_token W (selected W resource w)) as [[start_token|e1] w1].
    + destruct (Hl _ _ eq_refl) as (log & Hlog & Hall & Hlen & _).
      unfold bind at 1, utcnow, gets. unfold bind at 1.
      match goal with
      | |- context [upsert_checkpoint W resource ?c ?t w1] =>
          destruct (upsert_checkpoint_run resource c t w1)
            as (c1 & w2 & Hup & _ & _ & _ & Hhttp)
      end.
      rewrite Hup. simpl. exists log.
      rewrite Hhttp, Hlog, selected_http_log. auto.
    + destruct (Hl _ _ eq_refl) as (log & Hlog & Hall & Hlen & _).
      simpl. exists log. rewrite Hlog, selected_http_log. auto.
Qed.

(** X15.  What [upsert_checkpoint] returns is what [get_checkpoint] then
    reads for the resource: a row of this account and resource with the
    given cursor and time; the checkpoints of the other resources and
    accounts are as before, and a second upsert replaces the first. *)
Theorem upsert_then_get_checkpoint resource cursor last_synced_at w :
  exists c w1,
    upsert_checkpoint W resource cursor last_synced_at w = (Ok c, w1) /\
    fst (get_checkpoint W resource w1) = Ok (Some c) /\
    c = SyncCheckpoint.mk (SyncCheckpoint.account_id c) (SyncCheckpoint.resource c)
                          cursor last_synced_at /\
    (sync_checkpoints w !! (sync_account_id W, resource) = None ->
     SyncCheckpoint.account_id c = sync_account_id W /\ SyncCheckpoint.resource c = resource) /\
    (forall key, key <> (sync_account_id W, resource) ->
                 sync_checkpoints w1 !! key = sync_checkpoints w !! key) /\
    (forall cursor' last_synced_at',
       sync_checkpoints
         (snd (upsert_checkpoint W resource cursor' last_synced_at' w1)) =
       sync_checkpoints
         (snd (upsert_checkpoint W resource cursor' last_synced_at' w))).
Proof.
  unfold upsert_checkpoint, get_checkpoint, bind, gets, emit, modify, ret. simpl.
  do 2 eexists. split; [reflexivity|]. simpl. rewrite lookup_insert_eq.
  split; [reflexivity|].
  split; [destruct (sync_checkpoints w !! (sync_account_id W, resource)); reflexivity|].
  split; [intros ->; split; reflexivity|].
  split; [intros key Hne; rewrite lookup_insert_ne by congruence; reflexivity|].
  intros cursor' ts'. rewrite insert_insert_eq.
  destruct (sync_checkpoints w !! (sync_account_id W, resource)); reflexivity.
Qed.


(** ** More on watch channels *)

Lemma find_channel_id id (rows : list WatchChannel.t) r :
  find_channel id rows = Some r -> WatchChannel.channel_id r = id.
Proof.
  unfold find_channel. intros H. apply find_some in H.
  destruct H as [_ H]. apply String.eqb_eq in H. exact H.
Qed.

Lemma find_channel_app_fresh (rows : list WatchChannel.t) record :
  ~ In (WatchChannel.channel_id record) (channel_ids rows) ->
  find_channel (WatchChannel.channel_id record) (rows ++ [record]) = Some record.
Proof.
  unfold find_channel, channel_ids.
  induction rows as [|x rows IH]; simpl; intros Hn.
  - rewrite String.eqb_refl. reflexivity.
  - destruct (String.eqb_spec (WatchChannel.channel_id x) (WatchChannel.channel_id record))
      as [Heq|Hne]; [exfalso; apply Hn; left; exact Heq|].
    apply IH. intros Hin. apply Hn. right. exact Hin.
Qed.

Lemma channel_ids_replace id (rows : list WatchChannel.t) r' :
  WatchChannel.channel_id r' = id ->
  channel_ids (map (fun c => if String.eqb (WatchChannel.channel_id c) id then r' else c) rows)
  = channel_ids rows.
Proof.
  intros Hid. unfold channel_ids. induction rows as [|x rows IH]; [reflexivity|].
  simpl. rewrite IH. f_equal.
  destruct (String.eqb_spec (WatchChannel.channel_id x) id) as [Heq|Hne]; congruence.
Qed.

Lemma find_channel_replace id (rows : list WatchChannel.t) r r' :
  find_channel id rows = Some r ->
  WatchChannel.channel_id r' = id ->
  find_channel id
    (map (fun c => if String.eqb (WatchChannel.channel_id c) id then r' else c) rows)
  = Some r'.
Proof.
  unfold find_channel. intros Hfind Hid.
  induction rows as [|x rows IH]; [discriminate|].
  simpl in *.
  destruct (String.eqb (WatchChannel.channel_id x) id) eqn:Hx.
  - rewrite Hid, String.eqb_refl. reflexivity.
  - rewrite Hx. apply IH. exact Hfind.
Qed.

Lemma find_channel_replace_other id id' (rows : list WatchChannel.t) r' :
  id' <> id ->
  WatchChannel.channel_id r' = id ->
  find_channel id'
    (map (fun c => if String.eqb (WatchChannel.channel_id c) id then r' else c) rows)
  = find_channel id' rows.
Proof.
  unfold find_channel. intros Hne Hid.
  induction rows as [|x rows IH]; [reflexivity|].
  simpl.
  destruct (String.eqb_spec (WatchChannel.channel_id x) id) as [Hx|Hx].
  - rewrite Hid, Hx.
    destruct (String.eqb_spec id id') as [Heq|_]; [congruence | exact IH].
  - rewrite IH. reflexivity.
Qed.

Lemma find_channel_app_other id (rows : list WatchChannel.t) record :
  WatchChannel.channel_id record <> id ->
  find_channel id (rows ++ [record]) = find_channel id rows.
Proof.
  unfold find_channel. intros Hne.
  induction rows as [|x rows IH]; simpl.
  - destruct (String.eqb_spec (WatchChannel.channel_id record) id); [contradiction | reflexivity].
  - rewrite IH. reflexivity.
Qed.

(** X16.  The channel [register_changes_watch] has just stored validates
    with its own secret; its id and secret are the two random strings
    drawn, and Drive was given the same two in the registration; any other
    presented token is refused, as long as the secret is not empty. *)
Theorem registered_channel_validates ttl_seconds w record w' :
  register_changes_watch W ttl_seconds w = (Ok record, w') ->
  fst (ensure_valid_channel (WatchChannel.channel_id record) (WatchChannel.token record) w')
    = Ok record /\
  WatchChannel.channel_id record = token_hex E (entropy_drawn w) 16 /\
  WatchChannel.token record = Some (token_hex E (S (entropy_drawn w)) 12) /\
  (exists page_token body,
     last (successful_calls (trace w')) = Some (ChangesWatch page_token body) /\
     WatchBody.id body = WatchChannel.channel_id record /\
     Some (WatchBody.token body) = WatchChannel.token record) /\
  (forall presented,
     truthy (WatchChannel.token record) = true ->
     presented <> WatchChannel.token record ->
     fst (ensure_valid_channel (WatchChannel.channel_id record) presented w')
       = Raise (PermissionError "Invalid channel token")).
Proof.
  intros Hrun.
  destruct (register_changes_watch_run ttl_seconds w) as (r & w2 & Hreg & Hr).
  rewrite Hrun in Hreg. inversion Hreg; subst r w2. clear Hreg.
  destruct Hr as (Htab & Hfresh & _ & _).
  pose proof (find_channel_app_fresh _ _ Hfresh) as Hfind. rewrite <- Htab in Hfind.
  assert (Hval : forall presented,
             fst (ensure_valid_channel (WatchChannel.channel_id record) presented w') =
             if truthy (WatchChannel.token record)
                && negb (bool_decide (presented = WatchChannel.token record))
             then Raise (PermissionError "Invalid channel token") else Ok record).
  { intros presented.
    unfold ensure_valid_channel, get_channel, bind, gets, emit, modify, ret, raise.
    simpl. rewrite Hfind.
    destruct (truthy (WatchChannel.token record)
              && negb (bool_decide (presented = WatchChannel.token record))); reflexivity. }
  split.
  { rewrite Hval, bool_decide_eq_true_2 by reflexivity.
    rewrite andb_false_r. reflexivity. }
  revert Hrun. unfold register_changes_watch.
  destruct (truthy (Settings.connector_webhook_url (wiring_settings W))); [|discriminate].
  unfold bind at 1, secrets_token_hex, bind at 1, gets, bind at 1, modify, ret.
  unfold bind at 1. unfold bind at 1. unfold bind at 1. simpl.
  unfold bind at 1.
  set (w0 := set_entropy_drawn _ (set_entropy_drawn _ w)).
  destruct (get_start_page_token W w0) as [[start_token|e] w1]; [|discriminate].
  unfold bind at 1.
  match goal with
  | |- context [start_changes_watch W start_token ?body w1] =>
      pose proof (start_changes_watch_log start_token body w1) as Hl2;
      destruct (start_changes_watch W start_token body w1) as [[response|e] w2]
  end; [|discriminate].
  specialize (Hl2 _ _ eq_refl). pose proof (ok_call _ _ _ _ Hl2 eq_refl) as Hs2.
  unfold bind at 1, add_channel, bind at 1, gets. simpl.
  destruct (find_channel _ (watch_channels w2)); [discriminate|].
  unfold bind, modify, emit, ret. simpl.
  intros Hrun. inversion Hrun; subst; clear Hrun. simpl.
  split; [reflexivity|]. split; [reflexivity|].
  split.
  { do 2 eexists. rewrite successful_calls_db, Hs2, last_snoc.
    split; [reflexivity|]. split; reflexivity. }
  intros presented Htruthy Hne. rewrite Hval. simpl in Htruthy |- *.
  rewrite Htruthy, bool_decide_eq_false_2 by exact Hne. reflexivity.
Qed.

(** X17.  The webhook endpoint, for a delivery that names a channel.  It
    never talks to Drive and never adds or removes a channel.  For an
    unknown channel, or a token that is not the stored secret, it answers
    403 with the reason and leaves the table as it was.  Otherwise it
    answers 204 and the channel's row takes the delivery's resource id,
    the request URL and, when an expiration header came, its parsed value,
    while its secret, account and kind stay. *)
Theorem googledrive_webhook_spec
    url channel_id resource_state resource_id channel_token channel_expiration w :
  channel_id <> "" ->
  let run := googledrive_webhook W url (Some channel_id) resource_state resource_id
                                 channel_token channel_expiration w in
  http_log (trace (snd run)) = http_log (trace w) /\
  channel_ids (watch_channels (snd run)) = channel_ids (watch_channels w) /\
  match find_channel channel_id (watch_channels w) with
  | None =>
      fst run = Ok (HTTPException 403 "Unknown channel") /\
      watch_channels (snd run) = watch_channels w
  | Some r =>
      if truthy (WatchChannel.token r)
         && negb (bool_decide (channel_token = WatchChannel.token r))
      then fst run = Ok (HTTPException 403 "Invalid channel token") /\
           watch_channels (snd run) = watch_channels w
      else fst run = Ok (Response 204) /\
           find_channel channel_id (watch_channels (snd run)) =
             Some (delivered W r url resource_id channel_expiration) /\
           (forall other, other <> channel_id ->
              find_channel other (watch_channels (snd run)) =
              find_channel other (watch_channels w))
  end.
Proof.
  intros Hne. apply String.eqb_neq in Hne.
  unfold googledrive_webhook, try, ensure_valid_channel, upsert_channel, get_channel,
    bind, gets, emit, modify, ret, raise.
  simpl. rewrite Hne. simpl.
  destruct (find_channel channel_id (watch_channels w)) as [r|] eqn:Hfind; simpl.
  - destruct (truthy (WatchChannel.token r)
              && negb (bool_decide (channel_token = WatchChannel.token r))); simpl.
    + rewrite http_log_app. simpl. rewrite app_nil_r. auto.
    + rewrite Hfind. simpl.
      rewrite !http_log_app. simpl. rewrite !app_nil_r.
      pose proof (find_channel_id _ _ _ Hfind) as Hid.
      split; [reflexivity|].
      split; [apply channel_ids_replace; exact Hid|].
      split; [reflexivity|].
      split.
      * apply (find_channel_replace _ _ r); [exact Hfind | exact Hid].
      * intros other Hother. apply find_channel_replace_other; [exact Hother | exact Hid].
  - rewrite http_log_app. simpl. rewrite app_nil_r. auto.
Qed.

(** X18.  [upsert_channel] called for a channel the table does not know
    (the endpoint never does so) creates a row without a secret, which
    [ensure_valid_channel] then accepts with any token; called for a known
    channel it keeps the secret, the account and the kind.  The rows of
    the other channels are as before in both cases. *)
Theorem upsert_channel_secret data channel_id w :
  d_id data = Some channel_id ->
  channel_id <> "" ->
  exists record w',
    upsert_channel W data w = (Ok record, w') /\
    find_channel channel_id (watch_channels w') = Some record /\
    WatchChannel.channel_id record = channel_id /\
    (forall other, other <> channel_id ->
       find_channel other (watch_channels w') = find_channel other (watch_channels w)) /\
    match find_channel channel_id (watch_channels w) with
    | Some r =>
        WatchChannel.token record = WatchChannel.token r /\
        WatchChannel.account_id record = WatchChannel.account_id r /\
        WatchChannel.kind record = WatchChannel.kind r /\
        channel_ids (watch_channels w') = channel_ids (watch_channels w)
    | None =>
        WatchChannel.token record = None /\
        watch_channels w' = watch_channels w ++ [record] /\
        forall presented, fst (ensure_valid_channel channel_id presented w') = Ok record
    end.
Proof.
  intros Hid Hne. apply String.eqb_neq in Hne.
  unfold upsert_channel, get_channel, bind, gets, emit, modify, ret, raise.
  rewrite Hid. simpl. rewrite Hne. simpl.
  destruct (find_channel channel_id (watch_channels w)) as [r|] eqn:Hfind; simpl.
  - pose proof (find_channel_id _ _ _ Hfind) as Hr.
    do 2 eexists. split; [reflexivity|]. simpl.
    split; [apply (find_channel_replace _ _ r); [exact Hfind | exact Hr]|].
    split; [exact Hr|].
    split; [intros other Hother; apply find_channel_replace_other;
            [exact Hother | exact Hr]|].
    repeat split. apply channel_ids_replace. exact Hr.
  - pose proof (find_channel_none _ _ Hfind) as Hfresh.
    do 2 eexists. split; [reflexivity|]. simpl.
    match goal with
    | |- find_channel _ (_ ++ [?rec]) = _ /\ _ =>
        pose proof (find_channel_app_fresh (watch_channels w) rec Hfresh) as Hnew
    end.
    simpl in Hnew.
    split; [exact Hnew|]. split; [reflexivity|].
    split; [intros other Hother; apply find_channel_app_other; simpl; congruence|].
    split; [reflexivity|]. split; [reflexivity|].
    intros presented.
    unfold ensure_valid_channel, get_channel, bind, gets, emit, modify, ret, raise.
    simpl. rewrite Hnew. reflexivity.
Qed.


Lemma stop_channel_calls channel_id resource_id w :
  exists r w' log,
    stop_channel W channel_id resource_id w = (r, w') /\
    watch_channels w' = watch_channels w /\
    http_log (trace w') = http_log (trace w) ++ log /\
    Forall (fun x => fst x =
                     ChannelsStop channel_id
                       (if truthy resource_id then resource_id else None)) log /\
    (length log <= 5)%nat /\
    successful_calls (trace w') =
      successful_calls (trace w)
        ++ (if is_ok r
            then [ChannelsStop channel_id (if truthy resource_id then resource_id else None)]
            else []).
Proof.
  pose proof (stop_channel_frame watch_channels
                ltac:(reflexivity) ltac:(reflexivity) ltac:(reflexivity)
                ltac:(apply field_blind; reflexivity) channel_id resource_id w) as Hf.
  revert Hf. unfold stop_channel, bind.
  destruct (request_log (ChannelsStop channel_id
                           (if truthy resource_id then resource_id else None)) w)
    as (r & w' & log & Hrq & Hlog & Hall & Hlen & Hsucc).
  rewrite Hrq. destruct r as [response|e]; simpl; intros Hf.
  - exists (Ok tt), w', log. repeat split; auto.
  - exists (Raise e), w', log. repeat split; auto.
Qed.

Lemma delete_watch_unfold channel_id resource_id w :
  delete_watch W channel_id resource_id w =
    match stop_channel W channel_id
            (por resource_id
                 (match find_channel channel_id (watch_channels w) with
                  | Some r => WatchChannel.resource_id r
                  | None => None
                  end))
            (set_trace (fun tr => tr ++ [EvDb (SelectChannel channel_id)]) w) with
    | (Ok _, w1) =>
        match find_channel channel_id (watch_channels w) with
        | Some _ =>
            (Ok tt, set_trace (fun tr => tr ++ [EvDb (DeleteChannel channel_id)])
                      (set_watch_channels (without channel_id) w1))
        | None => (Ok tt, w1)
        end
    | (Raise e, w1) => (Raise e, w1)
    end.
Proof.
  unfold delete_watch, bind at 1, get_channel, bind at 1, emit, modify, gets.
  simpl. unfold bind at 1.
  destruct (stop_channel W channel_id _ _) as [[u|e] w1]; [|reflexivity].
  destruct (find_channel channel_id (watch_channels w)); reflexivity.
Qed.

(** X19.  [delete_watch] removes the row of the named channel exactly when
    the stop call went through, and never another row; when the call
    fails the table is as it was.  For a channel the table does not know
    the stop call is made all the same.  All its Drive exchanges, at most
    five, are [channels.stop] for that id, with the resource id given by
    the caller or else the stored one. *)
Theorem delete_watch_outcome channel_id resource_id w :
  let run := delete_watch W channel_id resource_id w in
  watch_channels (snd run) =
    (if is_ok (fst run) then without channel_id (watch_channels w) else watch_channels w) /\
  exists log,
    http_log (trace (snd run)) = http_log (trace w) ++ log /\
    (length log <= 5)%nat /\
    Forall (fun x => fst x =
                     ChannelsStop channel_id
                       (stop_resource_id resource_id
                          (find_channel channel_id (watch_channels w)))) log /\
    stopped (trace (snd run)) =
      stopped (trace w) ++ (if is_ok (fst run) then [channel_id] else []).
Proof.
  intros run. subst run. rewrite delete_watch_unfold. unfold stop_resource_id.
  match goal with
  | |- context [stop_channel W channel_id ?rid ?w0] =>
      destruct (stop_channel_calls channel_id rid w0)
        as (r & w1 & log & Hrun & Hf & Hlog & Hall & Hlen & Hsucc)
  end.
  rewrite Hrun.
  simpl in Hf, Hlog, Hsucc.
  rewrite http_log_app in Hlog. simpl in Hlog. rewrite app_nil_r in Hlog.
  rewrite successful_calls_db in Hsucc.
  destruct r as [u|e]; simpl in *.
  - destruct (find_channel channel_id (watch_channels w)) as [c|] eqn:Hfind; simpl.
    + rewrite Hf. split; [reflexivity|]. exists log.
      rewrite http_log_app. simpl. rewrite app_nil_r.
      repeat split; auto.
      unfold stopped. rewrite successful_calls_db, Hsucc.
      unfold stops. rewrite omap_app. reflexivity.
    + rewrite Hf. split.
      { symmetry. apply without_fresh, find_channel_none, Hfind. }
      exists log. repeat split; auto.
      unfold stopped. rewrite Hsucc. unfold stops. rewrite omap_app. reflexivity.
  - split; [exact Hf|]. exists log. repeat split; auto.
    unfold stopped. rewrite Hsucc, !app_nil_r. reflexivity.
Qed.

Lemma without_unique_ids id (rows : list WatchChannel.t) :
  List.NoDup (channel_ids rows) -> List.NoDup (channel_ids (without id rows)).
Proof.
  unfold channel_ids, without. induction rows as [|x rows IH]; simpl; intros Hnd.
  - constructor.
  - inversion Hnd as [|? ? Hnotin Hrest]; subst.
    destruct (negb (String.eqb (WatchChannel.channel_id x) id)); simpl; [|auto].
    constructor; [|auto].
    intros Hin. apply Hnotin.
    apply in_map_iff in Hin. destruct Hin as (c & Hc & Hin).
    apply filter_In in Hin. destruct Hin as [Hin _].
    apply in_map_iff. eauto.
Qed.

Lemma delete_watch_unique channel_id resource_id w :
  List.NoDup (channel_ids (watch_channels w)) ->
  List.NoDup (channel_ids (watch_channels (snd (delete_watch W channel_id resource_id w)))).
Proof.
  intros Hnd. rewrite delete_watch_unfold.
  match goal with
  | |- context [stop_channel W channel_id ?rid ?w0] =>
      destruct (stop_channel_calls channel_id rid w0) as (r & w1 & log & Hrun & Hf & _)
  end.
  rewrite Hrun. simpl in Hf.
  destruct r as [u|e]; simpl; [|rewrite Hf; exact Hnd].
  destruct (find_channel channel_id (watch_channels w)); simpl; rewrite Hf;
    [apply without_unique_ids|]; exact Hnd.
Qed.

Lemma register_changes_watch_unique ttl_seconds w :
  List.NoDup (channel_ids (watch_channels w)) ->
  List.NoDup (channel_ids (watch_channels (snd (register_changes_watch W ttl_seconds w)))).
Proof.
  intros Hnd.
  destruct (register_changes_watch_run ttl_seconds w) as (r & w' & Hrun & Hr).
  rewrite Hrun. simpl. destruct r as [record|e]; [|rewrite Hr; exact Hnd].
  destruct Hr as (Htab & Hfresh & _). rewrite Htab.
  unfold channel_ids in *. rewrite map_app. simpl.
  apply List.NoDup_app; [exact Hnd | repeat constructor; intros [] |].
  intros x Hx [Hx1|[]]. subst x. apply Hfresh. exact Hx.
Qed.

Lemma renew_loop_unique t threshold ttl_seconds : forall channels renewed w,
  List.NoDup (channel_ids (watch_channels w)) ->
  List.NoDup (channel_ids (watch_channels
                             (snd (renew_loop W t threshold ttl_seconds channels renewed w)))).
Proof.
  induction channels as [|c rest IH]; intros renewed w Hnd; [exact Hnd|].
  simpl renew_loop. destruct (skip_renewal t threshold c); [apply IH; exact Hnd|].
  unfold bind at 1.
  pose proof (delete_watch_unique (WatchChannel.channel_id c) (WatchChannel.resource_id c)
                w Hnd) as Hd.
  destruct (delete_watch W (WatchChannel.channel_id c) (WatchChannel.resource_id c) w)
    as [[u|e] w1]; simpl in Hd; [|exact Hd].
  unfold bind at 1.
  pose proof (register_changes_watch_unique ttl_seconds w1 Hd) as Hr.
  destruct (register_changes_watch W ttl_seconds w1) as [[record|e] w2]; simpl in Hr;
    [apply IH; exact Hr | exact Hr].
Qed.

(** X20.  Channel ids stay unique: from a table without duplicate ids,
    registering, deleting, recording a delivery and renewing all leave a
    table without duplicate ids, whatever their outcome. *)
Theorem channel_ids_stay_unique w :
  List.NoDup (channel_ids (watch_channels w)) ->
  (forall ttl_seconds,
     List.NoDup (channel_ids (watch_channels
                                (snd (register_changes_watch W ttl_seconds w))))) /\
  (forall channel_id resource_id,
     List.NoDup (channel_ids (watch_channels
                                (snd (delete_watch W channel_id resource_id w))))) /\
  (forall data,
     List.NoDup (channel_ids (watch_channels (snd (upsert_channel W data w))))) /\
  (forall threshold ttl_seconds,
     List.NoDup (channel_ids (watch_channels
                                (snd (renew_channels W threshold ttl_seconds w))))).
Proof.
  intros Hnd.
  split; [intros; apply register_changes_watch_unique; exact Hnd|].
  split; [intros; apply delete_watch_unique; exact Hnd|].
  split.
  - intros data.
    unfold upsert_channel, get_channel, bind, gets, emit, modify, ret, raise.
    destruct (truthy (d_id data)); [|exact Hnd]. simpl.
    destruct (find_channel (default "" (d_id data)) (watch_channels w)) as [r|] eqn:Hfind;
      simpl.
    + rewrite channel_ids_replace; [exact Hnd|].
      simpl. apply (find_channel_id _ _ _ Hfind).
    + unfold channel_ids in *. rewrite map_app. simpl.
      apply List.NoDup_app; [exact Hnd | repeat constructor; intros [] |].
      intros x Hx [Hx1|[]]. subst x.
      apply (find_channel_none _ _ Hfind). exact Hx.
  - intros threshold ttl_seconds. rewrite renew_channels_run.
    apply renew_loop_unique. exact Hnd.
Qed.


(** ** Silent answers and renewal without a webhook address *)

(** X28.  [get_token] answers without any I/O only from a cached token
    that is still valid: whenever it returns a token and has logged
    nothing (no query of the store, no exchange), the cache held that
    token for the account, valid at the clock reading, and the world is
    unchanged.  An expired cached token, or one within 60 seconds of its
    expiry, is thus never handed out again. *)
Theorem get_token_silent_only_when_valid account_id w s w' :
  get_token W account_id w = (Ok s, w') ->
  trace w' = trace w ->
  exists tok,
    tokens w !! resolve_account W account_id = Some tok /\
    is_valid (now w) tok = true /\
    s = AccessToken.token tok /\
    w' = w.
Proof.
  intros Hrun Htrace.
  destruct (tokens w !! resolve_account W account_id) as [tok|] eqn:Hc.
  - destruct (is_valid (now w) tok) eqn:Hv.
    + rewrite (get_token_hit account_id w tok Hc Hv) in Hrun.
      inversion Hrun; subst. exists tok. auto.
    + exfalso. revert Hrun.
      unfold get_token, get_token_service_account, get_token_refresh,
        exchange_refresh_token, _obtain_service_account_token, post_token,
        upsert_credentials, get_credentials, cache_hit, stored_hit, json,
        utcnow, elapse, emit, modify, gets, bind, ret, raise.
      simpl. rewrite Hc. simpl. rewrite Hv. intros H. split_run H.
      all: inversion H; subst; clear H; simpl in Htrace.
      all: apply (f_equal (@length Event)) in Htrace.
      all: rewrite ?length_app in Htrace; simpl in Htrace; lia.
  - exfalso. revert Hrun.
    unfold get_token, get_token_service_account, get_token_refresh,
      exchange_refresh_token, _obtain_service_account_token, post_token,
      upsert_credentials, get_credentials, cache_hit, stored_hit, json,
      utcnow, elapse, emit, modify, gets, bind, ret, raise.
    simpl. rewrite Hc. simpl. intros H. split_run H.
    all: inversion H; subst; clear H; simpl in Htrace.
    all: apply (f_equal (@length Event)) in Htrace.
    all: rewrite ?length_app in Htrace; simpl in Htrace; lia.
Qed.





End Properties.

(** ** The statements on concrete runs *)

(** C1.  The production wiring (refresh-token mode with a repository)
    against a Drive API that answers 401.  The request obtains "abc123" by
    an exchange, presents it five times, is answered 401 each time, and
    leaves the cache without a token for the account.  The next
    [get_token] call nevertheless returns "abc123" again and makes no
    exchange: it reads the token back from the credential store, which
    still deems it valid, although the token endpoint would by now issue
    "def456". *)
Theorem stale_token_after_401 :
  http_log (trace (snd (_request revoked GetStartPageToken (fresh 0))))
    = repeat (GetStartPageToken, Some 401) 5 /\
  bearers (trace (snd (_request revoked GetStartPageToken (fresh 0))))
    = repeat "abc123" 5 /\
  exchanges (trace (snd (_request revoked GetStartPageToken (fresh 0)))) = 1%nat /\
  tokens (snd (_request revoked GetStartPageToken (fresh 0))) !! "default" = None /\
  fst (get_token revoked None (snd (_request revoked GetStartPageToken (fresh 0))))
    = Ok "abc123" /\
  exchanges (trace (snd (get_token revoked None
                           (snd (_request revoked GetStartPageToken (fresh 0))))))
    = 1%nat.
Proof. vm_compute. repeat split. Qed.

(** The same run of a connector built without a repository: the call
    after the 401 does exchange, and returns the new token. *)
Example fresh_token_after_401_without_repository :
  tokens (snd (_request revoked_no_repository GetStartPageToken (fresh 0))) !! "default"
    = None /\
  fst (get_token revoked_no_repository None
         (snd (_request revoked_no_repository GetStartPageToken (fresh 0))))
    = Ok "def456" /\
  exchanges (trace (snd (get_token revoked_no_repository None
                           (snd (_request revoked_no_repository GetStartPageToken
                                          (fresh 0))))))
    = 2%nat.
Proof. vm_compute. repeat split. Qed.

(** C2.  Against a Drive API that answers 503 to everything, the request
    is attempted exactly five times; what it then raises is tenacity's
    [RetryError] around the last [DriveRetriableError], an exception that
    is not a [DriveAPIError] and has no [status_code]; the status 503
    reaches the metrics record only. *)
Theorem retry_exhaustion_raises_RetryError :
  fst (_request outage GetStartPageToken (fresh 0))
    = Raise (RetryError (throttled "backend error")) /\
  http_log (trace (snd (_request outage GetStartPageToken (fresh 0))))
    = repeat (GetStartPageToken, Some 503) 5 /\
  is_DriveAPIError (RetryError (throttled "backend error")) = false /\
  exn_status_code (RetryError (throttled "backend error")) = None /\
  last (trace (snd (_request outage GetStartPageToken (fresh 0))))
    = Some (EvObserve GetStartPageToken 503 (Some "retryable")).
Proof. vm_compute. repeat split. Qed.

(** The general statement behind it, on the same run. *)
Example retry_exhaustion_outage :
  exists text w2,
    _request outage GetStartPageToken (fresh 0) = (Raise (RetryError (throttled text)), w2) /\
    http_log (trace w2) = http_log (trace (fresh 0)) ++ repeat (GetStartPageToken, Some 503) 5 /\
    is_DriveAPIError (RetryError (throttled text)) = false /\
    exn_status_code (RetryError (throttled text)) = None.
Proof.
  apply (request_exhaustion outage GetStartPageToken (fresh 0) "abc123"
           (snd (get_token outage (Some (_account_id outage)) (fresh 0)))).
  - vm_compute. reflexivity.
  - intros tr. eexists. split; reflexivity.
Defined.

(** A fatal 404 is raised at once, as the [DriveAPIError] it is. *)
Example fatal_error_carries_status :
  fst (list_changes demo "gone" 100 (fresh 0))
    = Raise (DriveAPIError "Drive API returned error" 404 (PayDrive no_fields)) /\
  http_log (trace (snd (list_changes demo "gone" 100 (fresh 0))))
    = [(ListChanges "gone" 100, Some 404)].
Proof. vm_compute. repeat split. Qed.

(** C3 on a run: the held cursor is unknown to Drive, the fetch raises the
    404 and the checkpoint stays as it was. *)
Lemma sync_changes_failed_fetch_witness :
  sync_changes demo "files" 100 stuck
    = (Raise (DriveAPIError "Drive API returned error" 404 (PayDrive no_fields)),
       snd (list_changes demo "gone" 100 (selected demo "files" stuck))) /\
  sync_checkpoints (snd (list_changes demo "gone" 100 (selected demo "files" stuck)))
    = sync_checkpoints stuck /\
  held_cursor (sync_checkpoints (snd (list_changes demo "gone" 100 (selected demo "files" stuck)))
                 !! (sync_account_id demo, "files")) = Some "gone".
Proof.
  apply (sync_changes_failed_fetch demo "files" 100 stuck "gone").
  - vm_compute. reflexivity.
  - vm_compute. reflexivity.
Defined.

(** C4 as stated fails on a page that names no token: the specification's
    rule gives no cursor for it, while [sync_changes] persists and returns
    the cursor it held. *)
Lemma sync_changes_cursor_counterexample :
  fst (list_changes demo "cursor-2" 100 (selected demo "files" caught_up)) = Ok empty_page /\
  spec_new_cursor empty_page = None /\
  SyncCheckpoint.cursor
    <$> (sync_checkpoints (snd (sync_changes demo "files" 100 caught_up))
           !! ("default", "files"))
    = Some (Some "cursor-2") /\
  SyncResult.cursor <$> (match fst (sync_changes demo "files" 100 caught_up) with
                         | Ok result => Some result
                         | Raise _ => None
                         end)
    = Some (Some "cursor-2") /\
  Some "cursor-2" <> spec_new_cursor empty_page.
Proof. vm_compute. repeat split. discriminate. Qed.

(** C4 as amended, on the second call of the end-to-end scenario. *)
Lemma sync_changes_advances_witness :
  exists w2 c,
    sync_changes demo "files" 100 started =
      (Ok (SyncResult.mk (default [] (DriveJson.changes first_page))
                         (next_cursor "start-token" first_page) false
                         (truthy (DriveJson.nextPageToken first_page))), w2) /\
    sync_checkpoints w2 = <[(sync_account_id demo, "files") := c]> (sync_checkpoints started) /\
    SyncCheckpoint.cursor c = next_cursor "start-token" first_page /\
    SyncCheckpoint.last_synced_at c
      = Some (now (snd (list_changes demo "start-token" 100 (selected demo "files" started)))) /\
    successful_calls (trace w2) =
      successful_calls (trace started) ++ [ListChanges "start-token" (Z.min (Z.max 100 1) 1000)] /\
    exists log,
      http_log (trace w2) = http_log (trace started) ++ log /\
      Forall (fun x => fst x = ListChanges "start-token" (Z.min (Z.max 100 1) 1000)) log.
Proof.
  apply (sync_changes_advances demo "files" 100 started "start-token" first_page
           (snd (list_changes demo "start-token" 100 (selected demo "files" started)))).
  - vm_compute. reflexivity.
  - vm_compute. reflexivity.
Defined.

(** C5 on the first call of the end-to-end scenario. *)
Lemma sync_changes_initialises_witness :
  exists w2 c,
    sync_changes demo "files" 100 (fresh 0) =
      (Ok (SyncResult.mk [] (Some "start-token") true false), w2) /\
    sync_checkpoints w2 = <[(sync_account_id demo, "files") := c]> (sync_checkpoints (fresh 0)) /\
    SyncCheckpoint.cursor c = Some "start-token" /\
    SyncCheckpoint.last_synced_at c
      = Some (now (snd (get_start_page_token demo (selected demo "files" (fresh 0))))) /\
    successful_calls (trace w2) = successful_calls (trace (fresh 0)) ++ [GetStartPageToken] /\
    exists log,
      http_log (trace w2) = http_log (trace (fresh 0)) ++ log /\
      Forall (fun x => fst x = GetStartPageToken) log.
Proof.
  apply (sync_changes_initialises demo "files" 100 (fresh 0) "start-token"
           (snd (get_start_page_token demo (selected demo "files" (fresh 0))))).
  - vm_compute. reflexivity.
  - vm_compute. reflexivity.
Defined.

(** C6 on a run: one exchange, then three further calls within the hour
    that return the same token and log nothing. *)
Lemma get_token_caching_witness :
  exists w2,
    get_tokens demo None [seconds 10; seconds 600; seconds 3500]
               (snd (get_token demo None (fresh 0)))
      = (Ok (map (fun _ => Ok "abc123") [seconds 10; seconds 600; seconds 3500]), w2) /\
    trace w2 = trace (snd (get_token demo None (fresh 0))) /\
    (exchanges (trace w2) <= exchanges (trace (fresh 0%Z)) + 1)%nat /\
    (forall tok, tokens (fresh 0) !! resolve_account demo None = Some tok ->
                 is_valid (now (fresh 0)) tok = true ->
                 trace (snd (get_token demo None (fresh 0))) = trace (fresh 0) /\
                 "abc123" = AccessToken.token tok).
Proof.
  apply (get_token_caching demo None (fresh 0) "abc123"
           (snd (get_token demo None (fresh 0)))
           [seconds 10; seconds 600; seconds 3500]).
  - vm_compute. reflexivity.
  - intros tok Hc. vm_compute in Hc. inversion Hc; subst tok.
    repeat constructor.
Defined.

(** C7 on a table with a channel that has a secret and one that has
    none. *)
Lemma ensure_valid_channel_witness :
  fst (ensure_valid_channel "a" (Some "sa") three_channels)
    = Ok (channel "a" (Some (hours 9)) (Some "sa")) /\
  fst (ensure_valid_channel "a" (Some "") three_channels)
    = Raise (PermissionError "Invalid channel token") /\
  fst (ensure_valid_channel "a" None three_channels)
    = Raise (PermissionError "Invalid channel token") /\
  fst (ensure_valid_channel "a" (Some "sc") three_channels)
    = Raise (PermissionError "Invalid channel token") /\
  fst (ensure_valid_channel "zz" (Some "sa") three_channels)
    = Raise (PermissionError "Unknown channel") /\
  fst (ensure_valid_channel "b2" (Some "anything") three_channels)
    = Ok (channel "b2" (Some (hours 10 + minutes 30)) None).
Proof.
  assert (Hne : "sa" <> "") by discriminate.
  pose proof (ensure_valid_channel_spec "a" (Some "sa") three_channels) as (_ & Hgood & _).
  pose proof (ensure_valid_channel_spec "a" (Some "") three_channels) as (_ & Hempty & _).
  pose proof (ensure_valid_channel_spec "a" None three_channels) as (_ & Hnull & _).
  pose proof (ensure_valid_channel_spec "a" (Some "sc") three_channels) as (_ & Hother & _).
  pose proof (ensure_valid_channel_spec "zz" (Some "sa") three_channels) as (Hunknown & _).
  pose proof (ensure_valid_channel_spec "b2" (Some "anything") three_channels) as (_ & _ & Hopen).
  specialize (Hgood (channel "a" (Some (hours 9)) (Some "sa")) "sa"
                eq_refl eq_refl Hne).
  specialize (Hempty (channel "a" (Some (hours 9)) (Some "sa")) "sa"
                eq_refl eq_refl Hne).
  specialize (Hnull (channel "a" (Some (hours 9)) (Some "sa")) "sa"
                eq_refl eq_refl Hne).
  specialize (Hother (channel "a" (Some (hours 9)) (Some "sa")) "sa"
                eq_refl eq_refl Hne).
  destruct Hgood as ((_ & Hgood) & _).
  destruct Hempty as (_ & _ & Hempty).
  destruct Hnull as (_ & _ & Hnull).
  destruct Hother as (_ & Hother & _).
  split; [apply Hgood; reflexivity|].
  split; [apply Hempty; right; reflexivity|].
  split; [apply Hnull; left; reflexivity|].
  split; [apply Hother; discriminate|].
  split; [apply Hunknown; reflexivity|].
  apply Hopen; reflexivity.
Defined.


(** The same example, spelled out. *)
Example renew_channels_example :
  channel_ids (List.filter (due_for_renewal (now three_channels) (hours 1))
                           (watch_channels three_channels)) = ["a"; "b2"] /\
  fst (renew_channels demo (hours 1) 86400 three_channels) = Ok ["c0"; "c1"] /\
  channel_ids (watch_channels (snd (renew_channels demo (hours 1) 86400 three_channels)))
    = ["c"; "c0"; "c1"] /\
  stopped (trace (snd (renew_channels demo (hours 1) 86400 three_channels))) = ["a"; "b2"].
Proof. vm_compute. repeat split. Qed.


(** When it is the registration that fails (no webhook address), the
    channel being renewed is already deleted and is not replaced. *)
Example renew_channels_loses_channel :
  fst (renew_channels demo_no_webhook (hours 1) 86400 three_channels)
    = Raise (ValueError "CONNECTOR_WEBHOOK_URL must be configured to register watches") /\
  stopped (trace (snd (renew_channels demo_no_webhook (hours 1) 86400 three_channels)))
    = ["a"] /\
  channel_ids (watch_channels (snd (renew_channels demo_no_webhook (hours 1) 86400
                                                   three_channels)))
    = ["b2"; "c"].
Proof. vm_compute. repeat split. Qed.


(** C10 on a store that holds a refresh token: the upsert of the
    service-account path leaves it in place. *)
Lemma upsert_credentials_keeps_refresh_token_witness :
  exists r' w',
    upsert_credentials "default" "new-access" None 3600 (Some "") true with_credential
      = (Ok r', w') /\
    token_credentials w' = <["default" := r']> (token_credentials with_credential) /\
    (@None string = None -> TokenCredential.refresh_token r' = Some "stored-refresh") /\
    (TokenCredential.refresh_token r' = Some "stored-refresh" \/
     (TokenCredential.refresh_token r' = None /\ truthy None = true)) /\
    TokenCredential.refresh_token r' <> None.
Proof.
  apply (upsert_credentials_keeps_refresh_token "default" "new-access" None 3600 (Some "")
           true with_credential
           (TokenCredential.mk "default" (Some "old-access") (Some "stored-refresh")
                               (Some 0) (Some "scope") false)
           "stored-refresh").
  - vm_compute. reflexivity.
  - reflexivity.
Defined.

(** The service-account path of [get_token] goes through that upsert. *)
Example service_account_keeps_refresh_token :
  TokenCredential.refresh_token
    <$> (token_credentials
           (snd (get_token_service_account
                   (mkWiring (mkEnv demo_token_endpoint
                                    (fun _ => Some ("sa-token", Some (hours 1)))
                                    demo_drive demo_token_hex demo_clock)
                             demo_settings true None None (fun _ => None))
                   "default" with_credential))
           !! "default")
    = Some (Some "stored-refresh").
Proof. vm_compute. reflexivity. Qed.

(** * Parameters, bodies and tables outside the request pipeline *)

(** ** Query parameters of [list_files] *)

Lemma lookup_if_insert_eq {V} (b : bool) (k : string) (v : V) (m : gmap string V) :
  (if b then <[k := v]> m else m) !! k = if b then Some v else m !! k.
Proof. destruct b; [apply lookup_insert_eq | reflexivity]. Qed.

Lemma lookup_if_insert_ne {V} (b : bool) (k k' : string) (v : V) (m : gmap string V) :
  k <> k' -> (if b then <[k := v]> m else m) !! k' = m !! k'.
Proof. intros H. destruct b; [apply lookup_insert_ne, H | reflexivity]. Qed.

Lemma lookup_params_insert_eq {V} (k : string) (v : V) (m : gmap string V) :
  <[k := v]> m !! k = Some v.
Proof. apply lookup_insert_eq. Qed.

Lemma lookup_params_insert_ne {V} (k k' : string) (v : V) (m : gmap string V) :
  k <> k' -> <[k := v]> m !! k' = m !! k'.
Proof. apply lookup_insert_ne. Qed.

Lemma lookup_params_singleton_eq {V} (k : string) (v : V) :
  ({[ k := v ]} : gmap string V) !! k = Some v.
Proof. apply lookup_singleton_eq. Qed.

Lemma lookup_params_singleton_ne {V} (k k' : string) (v : V) :
  k <> k' -> ({[ k := v ]} : gmap string V) !! k' = None.
Proof. apply lookup_singleton_ne. Qed.

Ltac lookup_params :=
  repeat match goal with
         | |- context [ <[?k := ?v]> ?m !! ?k ] =>
             rewrite (lookup_params_insert_eq k v m)
         | |- context [ <[?k := ?v]> ?m !! ?k' ] =>
             rewrite (lookup_params_insert_ne k k' v m) by discriminate
         | |- context [ (if ?b then <[?k := ?v]> ?m else ?m) !! ?k ] =>
             rewrite (lookup_if_insert_eq b k v m)
         | |- context [ (if ?b then <[?k := ?v]> ?m else ?m) !! ?k' ] =>
             rewrite (lookup_if_insert_ne b k k' v m) by discriminate
         | |- context [ {[ ?k := ?v ]} !! ?k ] =>
             rewrite (lookup_params_singleton_eq k v)
         | |- context [ {[ ?k := ?v ]} !! ?k' ] =>
             rewrite (lookup_params_singleton_ne k k' v) by discriminate
         end.

(** X21.  Whatever its arguments, [list_files] sends a page size between 1
    and 1000 (the requested one when it is in that range); it sends
    [supportsAllDrives] and [includeItemsFromAllDrives] always and with
    the same value, which is true whenever a drive id is given or the
    all-drives flag is set; it sends [driveId] exactly when a drive id is
    given, and then a [corpora], "drive" unless the caller named one; with
    [include_folders] off the query is the folder filter, joined by "and"
    to the caller's query if there is one; and a page token is sent
    exactly when a non-empty one is given. *)
Theorem list_files_params_invariants
    page_size page_token q fields include_folders corpora drive_id
    include_items_from_all_drives :
  let params := list_files_params page_size page_token q fields include_folders
                                  corpora drive_id include_items_from_all_drives in
  (exists n, params !! "pageSize" = Some (PInt n) /\ 1 <= n <= 1000 /\
             (1 <= page_size <= 1000 -> n = page_size)) /\
  (exists b, params !! "supportsAllDrives" = Some (PBool b) /\
             params !! "includeItemsFromAllDrives" = Some (PBool b) /\
             (truthy drive_id = true \/ include_items_from_all_drives = true -> b = true)) /\
  params !! "driveId" = (if truthy drive_id then PStr <$> drive_id else None) /\
  (truthy drive_id = true -> params !! "corpora" = Some (PStr (por_str corpora "drive"))) /\
  params !! "q" =
    (if include_folders then (if truthy q then PStr <$> q else None)
     else Some (PStr (folder_filter ++ (if truthy q then " and " ++ default "" q else "")))) /\
  params !! "pageToken" = (if truthy page_token then PStr <$> page_token else None).
Proof.
  intros params. subst params. unfold list_files_params.
  set (flag := bool_decide _ || bool_decide _ || truthy drive_id || include_items_from_all_drives).
  assert (Hflag : truthy drive_id = true \/ include_items_from_all_drives = true -> flag = true).
  { intros [H|H]; unfold flag; rewrite H, ?orb_true_r; reflexivity. }
  clearbody flag.
  cbv zeta. destruct flag.
  all: (split; [|split; [|split; [|split; [|split]]]]).
  all: lookup_params.
  all: try (eexists; split; [reflexivity | split; lia]).
  all: try (eexists; split; [reflexivity|]; split; [reflexivity|];
               first [ reflexivity | intros H; apply Hflag; exact H ]).
  all: clear Hflag; unfold truthy, por_str.
  all: destruct page_token as [pt|]; [destruct (String.eqb pt "")|];
    (destruct q as [q|]; [destruct (String.eqb q "")|]);
    (destruct drive_id as [d|]; [destruct (String.eqb d "")|]);
    (destruct corpora as [c|]; [destruct (String.eqb c "") eqn:Hc|]);
    destruct include_folders; simpl; rewrite ?Hc; simpl.
  all: first [ reflexivity | discriminate ].
Qed.

(** ** Permission requests *)

Lemma unpack_singleton (k : string) (v : pyval) (base : gmap string pyval) :
  unpack {[ k := v ]} base = <[k := v]> base.
Proof. unfold unpack. symmetry. apply insert_union_singleton_l. Qed.

Lemma unpack_empty (base : gmap string pyval) : unpack ∅ base = base.
Proof. unfold unpack. apply (left_id ∅ (∪)). Qed.

(** X22.  The two services build the same request to grant a permission:
    a body with [role] and [type], and [emailAddress], [domain] and
    [allowFileDiscovery] exactly when a non-empty address, a non-empty
    domain and a flag are given.  For an update they build the same body
    too, but when it is empty (no role, no flag) [PermissionService] lists
    the permissions of the file instead, while [DriveFileService] sends
    the update with the empty body. *)
Theorem permission_services_agree
    file_id permission_id role type_ email_address domain allow_file_discovery
    send_notification_email new_role :
  DriveFileService.grant_permission file_id role type_ email_address domain
                                    allow_file_discovery send_notification_email =
  PermissionService.grant_permission file_id role type_ email_address domain
                                     allow_file_discovery send_notification_email /\
  (exists body,
     PermissionService.grant_permission file_id role type_ email_address domain
                                        allow_file_discovery send_notification_email =
     CreatePermission file_id body send_notification_email /\
     body !! "role" = Some (PStr role) /\
     body !! "type" = Some (PStr type_) /\
     body !! "emailAddress" = (if truthy email_address then PStr <$> email_address else None) /\
     body !! "domain" = (if truthy domain then PStr <$> domain else None) /\
     body !! "allowFileDiscovery" = PBool <$> allow_file_discovery) /\
  PermissionService.update_permission file_id permission_id new_role allow_file_discovery =
    (if truthy new_role || is_some allow_file_discovery
     then DriveFileService.update_permission file_id permission_id new_role
                                             allow_file_discovery
     else ListPermissions file_id) /\
  (truthy new_role = false -> allow_file_discovery = None ->
   DriveFileService.update_permission file_id permission_id new_role allow_file_discovery =
   UpdatePermission file_id permission_id ∅).
Proof.
  split; [|split; [|split]].
  - unfold DriveFileService.grant_permission, PermissionService.grant_permission.
    f_equal.
    destruct allow_file_discovery as [b|]; destruct (truthy domain);
      destruct (truthy email_address);
      rewrite ?unpack_singleton, ?unpack_empty; reflexivity.
  - unfold PermissionService.grant_permission. eexists. split; [reflexivity|].
    cbv zeta.
    assert (Hfmap : forall o, truthy o = true -> PStr <$> o = Some (PStr (default "" o))).
    { intros [s|] H; [reflexivity | discriminate]. }
    destruct allow_file_discovery as [b|];
      destruct (truthy domain) eqn:Hd; destruct (truthy email_address) eqn:He;
      rewrite ?(Hfmap _ Hd), ?(Hfmap _ He);
      (split; [|split; [|split; [|split]]]); lookup_params;
      first [ reflexivity | apply lookup_empty ].
  - unfold PermissionService.update_permission, DriveFileService.update_permission.
    destruct (truthy new_role); destruct allow_file_discovery as [b|]; simpl;
      try reflexivity;
      rewrite bool_decide_eq_false_2; try reflexivity;
      intros H; apply (f_equal (fun m => m !! "role")) in H
        || apply (f_equal (fun m => m !! "allowFileDiscovery")) in H.
    all: revert H; lookup_params; rewrite lookup_empty; discriminate.
  - intros Hrole ->. unfold DriveFileService.update_permission. rewrite Hrole. reflexivity.
Qed.

(** ** The download audit *)





Lemma audited_loop_run t audit_id failure : forall remaining consumer bytes_downloaded table,
  audited_loop t audit_id remaining failure consumer bytes_downloaded table =
    if runs_to_end (length remaining) consumer
    then (remaining, failure,
          match failure with
          | Some exc => record_download_failure t audit_id exc table
          | None =>
              record_download_complete t audit_id
                (bytes_downloaded + total_length remaining) table
          end)
    else (received consumer remaining, None, table).
Proof.
  induction remaining as [|chunk rest IH]; intros consumer b table.
  - simpl. rewrite Z.add_0_r. destruct consumer; destruct failure; reflexivity.
  - destruct consumer as [|[|k]].
    + simpl. rewrite IH. simpl. rewrite Z.add_assoc. destruct failure; reflexivity.
    + reflexivity.
    + simpl audited_loop. rewrite IH.
      change (runs_to_end (length (chunk :: rest)) (CloseAt (S k)))
        with (runs_to_end (length rest) (CloseAt k)).
      destruct (runs_to_end (length rest) (CloseAt k)).
      * simpl. rewrite Z.add_assoc. destruct failure; reflexivity.
      * reflexivity.
Qed.

Lemma update_where_id_new audit_id values (rows : list DownloadAudit.t) record next_id :
  Forall (fun r => DownloadAudit.id r < audit_id) rows ->
  DownloadAudit.id record = audit_id ->
  update_where_id audit_id values (mkAuditTable (rows ++ [record]) next_id) =
  mkAuditTable (rows ++ [values record]) next_id.
Proof.
  intros Hold Hid. unfold update_where_id. simpl. f_equal.
  rewrite map_app. simpl. rewrite Hid, Z.eqb_refl. f_equal.
  induction Hold as [|r rows Hr _ IH]; [reflexivity|].
  simpl. rewrite IH. destruct (Z.eqb_spec (DownloadAudit.id r) audit_id); [lia | reflexivity].
Qed.

(** X24.  The audit trail of one download.  [download_file] adds one row,
    under a new key, and touches no other.  When the consumer reads the
    stream to its end the row becomes "completed" with the total number of
    bytes yielded and the time, or "failed" with the text of the exception
    when the stream raised, which the consumer gets re-raised after the
    chunks.  When the consumer closes the iterator before the end, the row
    stays "started" with no completion time and 0 bytes, and so survives
    every [prune_downloads]. *)
Theorem download_audit_lifecycle
    account_id file_id file_name mime_type checksum t response consumer table :
  Forall (fun r => DownloadAudit.id r < audit_next_id table) (audit_rows table) ->
  exists row,
    download_audit account_id file_id file_name mime_type checksum t response consumer table
    = (if runs_to_end (length (chunks response)) consumer then chunks response
       else received consumer (chunks response),
       if runs_to_end (length (chunks response)) consumer then failure response else None,
       mkAuditTable (audit_rows table ++ [row]) (audit_next_id table + 1)) /\
    row =
      (if runs_to_end (length (chunks response)) consumer
       then match failure response with
            | None =>
                DownloadAudit.mk (audit_next_id table) account_id file_id file_name mime_type
                                 (total_length (chunks response)) checksum
                                 "completed" None (Some t)
            | Some exc =>
                DownloadAudit.mk (audit_next_id table) account_id file_id file_name mime_type
                                 0 checksum "failed" (Some exc) (Some t)
            end
       else DownloadAudit.mk (audit_next_id table) account_id file_id file_name mime_type
                             0 checksum "started" None None) /\
    (runs_to_end (length (chunks response)) consumer = false ->
     forall older_than,
       In row (audit_rows
                 (snd (prune_downloads older_than
                         (mkAuditTable (audit_rows table ++ [row])
                                       (audit_next_id table + 1)))))).
Proof.
  intros Hids.
  unfold download_audit, record_download_start, audited_iterator. simpl.
  rewrite audited_loop_run.
  destruct (runs_to_end (length (chunks response)) consumer).
  - destruct (failure response) as [exc|].
    + eexists. split; [|split; [reflexivity | discriminate]].
      unfold record_download_failure.
      rewrite update_where_id_new by (auto; reflexivity). reflexivity.
    + eexists. split; [|split; [reflexivity | discriminate]].
      unfold record_download_complete.
      rewrite update_where_id_new by (auto; reflexivity). reflexivity.
  - eexists. split; [reflexivity|]. split; [reflexivity|].
    intros _ older_than. unfold prune_downloads. simpl.
    apply filter_In. split; [apply in_or_app; right; left; reflexivity | reflexivity].
Qed.

(** ** The drive catalog *)

Lemma fold_upsert_none t entries : forall s id,
  existing s !! id = None ->
  existing (fold_left (upsert_entry t) entries s) !! id = None.
Proof.
  induction entries as [|e entries IH]; intros s id Hnone; [exact Hnone|].
  simpl. apply IH. unfold upsert_entry.
  destruct (existing s !! entry_drive_id e) eqn:He; simpl; [|exact Hnone].
  rewrite lookup_insert_ne; [exact Hnone|]. intros Heq. rewrite Heq in He. congruence.
Qed.

Lemma fold_upsert_other t entries : forall s id r,
  existing s !! id = Some r ->
  ~ In id (map entry_drive_id entries) ->
  existing (fold_left (upsert_entry t) entries s) !! id = Some r.
Proof.
  induction entries as [|e entries IH]; intros s id r Hr Hnotin; [exact Hr|].
  simpl in *. apply IH; [|tauto]. unfold upsert_entry.
  destruct (existing s !! entry_drive_id e) eqn:He; simpl; [|exact Hr].
  rewrite lookup_insert_ne; [exact Hr|]. intros Heq. apply Hnotin. left. exact Heq.
Qed.

Lemma fold_upsert_confirmed t entries : forall s id r,
  existing s !! id = Some r -> confirmed t r ->
  exists r', existing (fold_left (upsert_entry t) entries s) !! id = Some r' /\
             confirmed t r'.
Proof.
  induction entries as [|e entries IH]; intros s id r Hr Hc; [eauto|].
  simpl. unfold upsert_entry at 2.
  destruct (existing s !! entry_drive_id e) as [r0|] eqn:He; simpl.
  - destruct (decide (entry_drive_id e = id)) as [Heq|Hne].
    + eapply IH; [simpl; rewrite Heq; apply lookup_insert_eq | split; reflexivity].
    + eapply IH; [simpl; rewrite lookup_insert_ne by exact Hne; exact Hr | exact Hc].
  - eapply IH; [exact Hr | exact Hc].
Qed.

Lemma fold_upsert_seen t entries : forall s id r,
  existing s !! id = Some r ->
  In id (map entry_drive_id entries) ->
  exists r', existing (fold_left (upsert_entry t) entries s) !! id = Some r' /\
             confirmed t r'.
Proof.
  induction entries as [|e entries IH]; intros s id r Hr Hin; [contradiction|].
  simpl in Hin. simpl. unfold upsert_entry at 2.
  destruct (decide (entry_drive_id e = id)) as [Heq|Hne].
  - rewrite Heq, Hr. simpl.
    eapply fold_upsert_confirmed; [simpl; apply lookup_insert_eq | split; reflexivity].
  - destruct Hin as [Hin|Hin]; [contradiction|].
    destruct (existing s !! entry_drive_id e) as [r0|] eqn:He; simpl.
    + eapply IH; [simpl; rewrite lookup_insert_ne by exact Hne; exact Hr | exact Hin].
    + eapply IH; [exact Hr | exact Hin].
Qed.

Lemma fold_upsert_seen_ids t entries : forall s,
  seen_ids (fold_left (upsert_entry t) entries s)
  = list_to_set (map entry_drive_id entries) ∪ seen_ids s.
Proof.
  induction entries as [|e entries IH]; intros s; simpl.
  - symmetry. apply (left_id_L ∅ (∪)).
  - rewrite IH.
    assert (Hseen : seen_ids (upsert_entry t s e) = {[ entry_drive_id e ]} ∪ seen_ids s)
      by (unfold upsert_entry; destruct (existing s !! entry_drive_id e); reflexivity).
    rewrite Hseen, !(assoc_L (∪)).
    rewrite (comm_L (∪) (list_to_set (map entry_drive_id entries)) {[ entry_drive_id e ]}).
    reflexivity.
Qed.

Lemma upsert_entry_step t s e :
  map DriveCatalog.drive_id (added (upsert_entry t s e)) =
    map DriveCatalog.drive_id (added s)
      ++ (if bool_decide (existing s !! entry_drive_id e = None)
          then [entry_drive_id e] else []) /\
  (Forall (confirmed t) (added s) -> Forall (confirmed t) (added (upsert_entry t s e))) /\
  (forall id, bool_decide (existing (upsert_entry t s e) !! id = None)
              = bool_decide (existing s !! id = None)).
Proof.
  unfold upsert_entry.
  destruct (existing s !! entry_drive_id e) as [r0|] eqn:He; simpl.
  - rewrite app_nil_r.
    split; [reflexivity|]. split; [auto|].
    intros id. destruct (decide (entry_drive_id e = id)) as [<-|Hne].
    + rewrite lookup_insert_eq, He.
      rewrite !bool_decide_eq_false_2 by congruence. reflexivity.
    + rewrite lookup_insert_ne by exact Hne. reflexivity.
  - split; [rewrite map_app; reflexivity|].
    split; [|reflexivity].
    intros H. apply Forall_app. split; [exact H|]. repeat constructor.
Qed.

(** The rows handed to [session.add]: one per entry whose id the table
    did not hold, in order. *)
Lemma fold_upsert_added t entries : forall s,
  map DriveCatalog.drive_id (added (fold_left (upsert_entry t) entries s))
  = map DriveCatalog.drive_id (added s)
    ++ List.filter (fun id => bool_decide (existing s !! id = None))
                   (map entry_drive_id entries) /\
  (Forall (confirmed t) (added s) ->
   Forall (confirmed t) (added (fold_left (upsert_entry t) entries s))).
Proof.
  induction entries as [|e entries IH]; intros s; simpl.
  - rewrite app_nil_r. auto.
  - destruct (IH (upsert_entry t s e)) as [Hids Hconf].
    destruct (upsert_entry_step t s e) as (Hstep & Hcstep & Hfresh).
    rewrite Hids, Hstep. split; [|auto].
    rewrite <- app_assoc. f_equal.
    rewrite (filter_ext _ _ Hfresh).
    destruct (bool_decide (existing s !! entry_drive_id e = None)); reflexivity.
Qed.

Lemma insert_rows_lookup rows : forall table table',
  insert_rows rows table = Ok table' ->
  (forall id r, table !! id = Some r -> table' !! id = Some r) /\
  (forall r, In r rows -> table' !! DriveCatalog.drive_id r = Some r) /\
  (forall id r, table' !! id = Some r ->
                table !! id = Some r \/ (In r rows /\ DriveCatalog.drive_id r = id)).
Proof.
  induction rows as [|x rows IH]; intros table table' Hrun; simpl in Hrun.
  - inversion Hrun; subst. repeat split; auto. intros r [].
  - destruct (table !! DriveCatalog.drive_id x) eqn:Hx; [discriminate|].
    destruct (IH _ _ Hrun) as (Hkeep & Hnew & Hfrom).
    split; [|split].
    + intros id r Hr. apply Hkeep. rewrite lookup_insert_ne; [exact Hr|].
      intros <-. congruence.
    + intros r [<-|Hin]; [|apply Hnew, Hin].
      apply Hkeep. apply lookup_insert_eq.
    + intros id r Hr. destruct (Hfrom id r Hr) as [H|[Hin Hid]].
      * destruct (decide (DriveCatalog.drive_id x = id)) as [Heq|Hne].
        -- rewrite Heq, lookup_insert_eq in H. injection H as Hxr.
           right. split; [left; exact Hxr | rewrite <- Hxr; exact Heq].
        -- rewrite lookup_insert_ne in H by exact Hne. left. exact H.
      * right. split; [right; exact Hin | exact Hid].
Qed.

Lemma insert_rows_outcome rows : forall table,
  (List.NoDup (map DriveCatalog.drive_id rows) /\
   Forall (fun id => table !! id = None) (map DriveCatalog.drive_id rows) ->
   exists table', insert_rows rows table = Ok table') /\
  (~ (List.NoDup (map DriveCatalog.drive_id rows) /\
      Forall (fun id => table !! id = None) (map DriveCatalog.drive_id rows)) ->
   insert_rows rows table = Raise IntegrityError).
Proof.
  induction rows as [|x rows IH]; intros table; simpl.
  - split; [eauto|]. intros H. exfalso. apply H. split; constructor.
  - destruct (table !! DriveCatalog.drive_id x) eqn:Hx.
    + split; [|reflexivity].
      intros [_ Hfresh]. apply Forall_cons in Hfresh. destruct Hfresh as [Hf _].
      congruence.
    + destruct (IH (<[DriveCatalog.drive_id x := x]> table)) as [Hok Hfail].
      split.
      * intros [Hnd Hfresh]. apply Hok.
        apply List.NoDup_cons_iff in Hnd. destruct Hnd as [Hnotin Hnd].
        apply Forall_cons in Hfresh. destruct Hfresh as [_ Hfresh].
        split; [exact Hnd|].
        rewrite List.Forall_forall in Hfresh |- *. intros id Hin.
        rewrite lookup_insert_ne; [apply Hfresh, Hin|].
        intros Heq. apply Hnotin. rewrite Heq. exact Hin.
      * intros Hnot. apply Hfail. intros [Hnd Hfresh]. apply Hnot.
        rewrite List.Forall_forall in Hfresh.
        assert (Hnotin : ~ In (DriveCatalog.drive_id x) (map DriveCatalog.drive_id rows)).
        { intros Hin. specialize (Hfresh _ Hin).
          rewrite lookup_insert_eq in Hfresh. discriminate. }
        split; [apply List.NoDup_cons_iff; split; assumption|].
        apply Forall_cons. split; [exact Hx|].
        rewrite List.Forall_forall. intros id Hin.
        specialize (Hfresh _ Hin).
        rewrite lookup_insert_ne in Hfresh; [exact Hfresh|].
        intros Heq. apply Hnotin. rewrite Heq. exact Hin.
Qed.

Lemma deactivate_unseen_lookup t s id :
  deactivate_unseen t s !! id =
    match existing s !! id with
    | Some record =>
        Some (if bool_decide (id ∈ seen_ids s) then record
              else DriveCatalog.mk (DriveCatalog.drive_id record) (DriveCatalog.name record)
                                   (DriveCatalog.kind record) false (Some t))
    | None => None
    end.
Proof.
  unfold deactivate_unseen. rewrite map_lookup_imap.
  destruct (existing s !! id); reflexivity.
Qed.

Lemma fold_upsert_kept t entries s id r :
  existing s !! id = Some r ->
  exists r', existing (fold_left (upsert_entry t) entries s) !! id = Some r'.
Proof.
  intros Hr.
  destruct (in_dec String.string_dec id (map entry_drive_id entries)) as [Hin|Hnotin].
  - destruct (fold_upsert_seen t entries s id r Hr Hin) as (r' & Hr' & _). eauto.
  - exists r. apply fold_upsert_other; assumption.
Qed.

(** The session at the end of the first loop of [sync]. *)
Lemma sync_unfold t drives catalog :
  sync t (Ok drives) catalog =
    insert_rows
      (added (fold_left (upsert_entry t) (remote_drives drives)
                        (mkSyncSession catalog [] ∅)))
      (deactivate_unseen t (fold_left (upsert_entry t) (remote_drives drives)
                                      (mkSyncSession catalog [] ∅))).
Proof. reflexivity. Qed.

Lemma sync_added_fresh t drives catalog :
  let s := fold_left (upsert_entry t) (remote_drives drives)
                     (mkSyncSession catalog [] ∅) in
  map DriveCatalog.drive_id (added s) =
    List.filter (fun id => bool_decide (catalog !! id = None)) (remote_ids drives) /\
  Forall (confirmed t) (added s) /\
  Forall (fun id => deactivate_unseen t s !! id = None)
         (map DriveCatalog.drive_id (added s)).
Proof.
  intros s. subst s.
  destruct (fold_upsert_added t (remote_drives drives) (mkSyncSession catalog [] ∅))
    as [Hids Hconf].
  cbn [added existing map app] in Hids.
  split; [exact Hids|]. split; [apply Hconf; constructor|].
  rewrite Hids, List.Forall_forall. intros id Hin.
  apply filter_In in Hin. destruct Hin as [_ Hnone].
  apply bool_decide_eq_true_1 in Hnone.
  rewrite deactivate_unseen_lookup, fold_upsert_none; [reflexivity | exact Hnone].
Qed.

Lemma sync_table t drives catalog catalog' :
  sync t (Ok drives) catalog = Ok catalog' ->
  (forall id, In id (remote_ids drives) ->
     exists r, catalog' !! id = Some r /\ confirmed t r) /\
  (forall id r, catalog !! id = Some r -> ~ In id (remote_ids drives) ->
     catalog' !! id =
       Some (DriveCatalog.mk (DriveCatalog.drive_id r) (DriveCatalog.name r)
                             (DriveCatalog.kind r) false (Some t))) /\
  (forall id, is_Some (catalog' !! id) <->
              is_Some (catalog !! id) \/ In id (remote_ids drives)).
Proof.
  rewrite sync_unfold. intros Hrun.
  destruct (sync_added_fresh t drives catalog) as (Hids & Hconf & _).
  assert (Hseen : forall id,
             id ∈ seen_ids (fold_left (upsert_entry t) (remote_drives drives)
                                      (mkSyncSession catalog [] ∅))
             <-> In id (remote_ids drives)).
  { intros id. rewrite fold_upsert_seen_ids. cbn [seen_ids].
    unfold remote_ids.
    rewrite (right_id_L ∅ (∪)), elem_of_list_to_set, list_elem_of_In. reflexivity. }
  assert (Hsome : forall id r, catalog !! id = Some r -> In id (remote_ids drives) ->
             exists r',
               existing (fold_left (upsert_entry t) (remote_drives drives)
                                   (mkSyncSession catalog [] ∅)) !! id = Some r' /\
               confirmed t r').
  { intros id r Hr Hin.
    exact (fold_upsert_seen t (remote_drives drives) (mkSyncSession catalog [] ∅)
                            id r Hr Hin). }
  assert (Hother : forall id r, catalog !! id = Some r -> ~ In id (remote_ids drives) ->
             existing (fold_left (upsert_entry t) (remote_drives drives)
                                 (mkSyncSession catalog [] ∅)) !! id = Some r).
  { intros id r Hr Hnotin.
    exact (fold_upsert_other t (remote_drives drives) (mkSyncSession catalog [] ∅)
                             id r Hr Hnotin). }
  assert (Hnone : forall id, catalog !! id = None ->
             existing (fold_left (upsert_entry t) (remote_drives drives)
                                 (mkSyncSession catalog [] ∅)) !! id = None).
  { intros id Hr.
    exact (fold_upsert_none t (remote_drives drives) (mkSyncSession catalog [] ∅) id Hr). }
  remember (fold_left (upsert_entry t) (remote_drives drives)
                      (mkSyncSession catalog [] ∅)) as s eqn:Hs.
  clear Hs.
  destruct (insert_rows_lookup _ _ _ Hrun) as (Hkeep & Hnew & Hfrom).
  rewrite List.Forall_forall in Hconf.
  assert (Hlisted : forall id, In id (remote_ids drives) ->
                               exists r, catalog' !! id = Some r /\ confirmed t r).
  { intros id Hin. destruct (catalog !! id) as [r|] eqn:Hr.
    - destruct (Hsome id r Hr Hin) as (r' & Hr' & Hc).
      exists r'. split; [|exact Hc]. apply Hkeep.
      rewrite deactivate_unseen_lookup, Hr'.
      rewrite bool_decide_eq_true_2 by (apply Hseen; exact Hin). reflexivity.
    - assert (Hadded : In id (map DriveCatalog.drive_id (added s))).
      { rewrite Hids. apply filter_In. split; [exact Hin|].
        apply bool_decide_eq_true_2. exact Hr. }
      apply in_map_iff in Hadded. destruct Hadded as (row & Hid & Hrow).
      exists row. split; [rewrite <- Hid; apply Hnew; exact Hrow|].
      apply Hconf. exact Hrow. }
  assert (Hunlisted : forall id r, catalog !! id = Some r -> ~ In id (remote_ids drives) ->
            catalog' !! id =
              Some (DriveCatalog.mk (DriveCatalog.drive_id r) (DriveCatalog.name r)
                                    (DriveCatalog.kind r) false (Some t))).
  { intros id r Hr Hnotin. apply Hkeep.
    rewrite deactivate_unseen_lookup, (Hother id r Hr Hnotin).
    rewrite bool_decide_eq_false_2; [reflexivity|].
    intros Hin. apply Hnotin, Hseen, Hin. }
  split; [exact Hlisted|]. split; [exact Hunlisted|].
  intros id. split.
  - intros [r Hr]. destruct (Hfrom id r Hr) as [Ht|[Hrow Hid]].
    + left. rewrite deactivate_unseen_lookup in Ht.
      destruct (catalog !! id) eqn:Hc; [eauto|].
      rewrite (Hnone id Hc) in Ht. discriminate.
    + right.
      assert (Hin : In id (map DriveCatalog.drive_id (added s)))
        by (apply in_map_iff; eauto).
      rewrite Hids in Hin. apply filter_In in Hin. tauto.
  - intros [[r Hr]|Hin].
    + destruct (in_dec String.string_dec id (remote_ids drives)) as [Hin|Hnotin].
      * destruct (Hlisted id Hin) as (r' & Hr' & _). eauto.
      * rewrite (Hunlisted id r Hr Hnotin). eauto.
    + destruct (Hlisted id Hin) as (r' & Hr' & _). eauto.
Qed.

(** Every row of the catalog a [sync] leaves carries its time. *)
Lemma sync_stamps t drives catalog catalog' id r :
  sync t (Ok drives) catalog = Ok catalog' ->
  catalog' !! id = Some r -> DriveCatalog.last_synced_at r = Some t.
Proof.
  intros Hrun Hr.
  destruct (sync_table t drives catalog catalog' Hrun) as (Hlisted & Hunlisted & Hdom).
  destruct (in_dec String.string_dec id (remote_ids drives)) as [Hin|Hnotin].
  - destruct (Hlisted id Hin) as (r' & Hr' & Hc).
    rewrite Hr in Hr'. injection Hr' as <-. apply Hc.
  - destruct (proj1 (Hdom id) (ex_intro _ r Hr)) as [[r0 Hr0]|Hin]; [|contradiction].
    rewrite (Hunlisted id r0 Hr0 Hnotin) in Hr. injection Hr as <-. reflexivity.
Qed.

(** X25.  What a successful [sync] leaves in the catalog: every drive of
    the listing that has an id, and My Drive, is there, active and stamped
    with the time of the sync; every row the catalog held for a drive that
    is no longer listed is still there, with its name and kind, inactive
    and stamped; nothing is deleted, nothing else is added; so every row
    carries the time of the sync. *)
Theorem sync_reconciles t drives catalog catalog' :
  sync t (Ok drives) catalog = Ok catalog' ->
  (forall id, In id (remote_ids drives) ->
     exists r, catalog' !! id = Some r /\ confirmed t r) /\
  (forall id r, catalog !! id = Some r -> ~ In id (remote_ids drives) ->
     catalog' !! id =
       Some (DriveCatalog.mk (DriveCatalog.drive_id r) (DriveCatalog.name r)
                             (DriveCatalog.kind r) false (Some t))) /\
  (forall id, is_Some (catalog' !! id) <->
              is_Some (catalog !! id) \/ In id (remote_ids drives)) /\
  (exists r, catalog' !! "my-drive" = Some r /\ confirmed t r) /\
  (forall id r, catalog' !! id = Some r -> DriveCatalog.last_synced_at r = Some t).
Proof.
  intros Hrun.
  destruct (sync_table t drives catalog catalog' Hrun) as (Hlisted & Hunlisted & Hdom).
  split; [exact Hlisted|]. split; [exact Hunlisted|]. split; [exact Hdom|].
  split.
  - apply Hlisted. left. reflexivity.
  - intros id r Hr. exact (sync_stamps t drives catalog catalog' id r Hrun Hr).
Qed.

(** X26.  [sync] succeeds exactly when no drive id that is new to the
    catalog occurs twice among My Drive and the listed drives; when one
    does, both copies are added to the session and the commit fails with
    [IntegrityError].  A listing that fails makes [sync] fail with the
    same error. *)
Theorem sync_integrity t drives catalog :
  let new_ids :=
    List.filter (fun id => bool_decide (catalog !! id = None)) (remote_ids drives) in
  (List.NoDup new_ids -> exists catalog', sync t (Ok drives) catalog = Ok catalog') /\
  (~ List.NoDup new_ids -> sync t (Ok drives) catalog = Raise IntegrityError) /\
  (forall e, sync t (Raise e) catalog = Raise e).
Proof.
  intros new_ids. subst new_ids. rewrite sync_unfold.
  destruct (sync_added_fresh t drives catalog) as (Hids & _ & Hfresh).
  set (s := fold_left (upsert_entry t) (remote_drives drives)
                      (mkSyncSession catalog [] ∅)) in *.
  destruct (insert_rows_outcome (added s) (deactivate_unseen t s)) as [Hok Hfail].
  rewrite Hids in Hok, Hfail, Hfresh.
  split; [intros Hnd; apply Hok; split; assumption|].
  split; [intros Hdup; apply Hfail; intros [Hnd _]; contradiction|].
  reflexivity.
Qed.

Lemma max_last_synced_at_all t (catalog : gmap string DriveCatalog.t) :
  (forall id r, catalog !! id = Some r -> DriveCatalog.last_synced_at r = Some t) ->
  (catalog = ∅ /\ max_last_synced_at catalog = None) \/
  (catalog <> ∅ /\ max_last_synced_at catalog = Some t).
Proof.
  unfold max_last_synced_at.
  refine (map_fold_weak_ind
            (fun acc (m : gmap string DriveCatalog.t) =>
               (forall id r, m !! id = Some r -> DriveCatalog.last_synced_at r = Some t) ->
               (m = ∅ /\ acc = None) \/ (m <> ∅ /\ acc = Some t))
            _ None _ _ catalog).
  - intros _. left. split; reflexivity.
  - intros id r m acc Hnone IH Hall. right.
    split; [apply insert_non_empty|].
    rewrite (Hall id r) by apply lookup_insert_eq.
    destruct IH as [[_ ->]|[_ ->]].
    + intros id' r' Hr'. apply (Hall id' r').
      rewrite lookup_insert_ne; [exact Hr'|]. intros Heq. rewrite Heq in Hnone. congruence.
    + reflexivity.
    + rewrite Z.max_id. reflexivity.
Qed.

(** X27.  After a successful [sync] at time [t] the latest sync time of
    the catalog is [t], so [ensure_synced] without [force] leaves the
    catalog alone, and asks Drive for nothing, for as long as no more than
    [max_age_seconds] have passed, and syncs again once more have. *)
Theorem ensure_synced_after_sync
    t drives catalog catalog' max_age_seconds t2 t_sync listing :
  sync t (Ok drives) catalog = Ok catalog' ->
  max_last_synced_at catalog' = Some t /\
  ensure_synced false max_age_seconds t2 t_sync listing catalog' =
    (if seconds max_age_seconds <? t2 - t
     then sync t_sync listing catalog' else Ok catalog').
Proof.
  intros Hrun.
  destruct (sync_table t drives catalog catalog' Hrun) as (Hlisted & _ & _).
  destruct (Hlisted "my-drive" (or_introl eq_refl)) as (r & Hr & _).
  assert (Hmax : max_last_synced_at catalog' = Some t).
  { destruct (max_last_synced_at_all t catalog'
                (fun id r0 => sync_stamps t drives catalog catalog' id r0 Hrun))
      as [[Hempty _]|[_ Hmax]]; [|exact Hmax].
    rewrite Hempty, lookup_empty in Hr. discriminate. }
  split; [exact Hmax|].
  unfold ensure_synced. rewrite Hmax. reflexivity.
Qed.


(** * The further properties on concrete runs *)

(** X1 on a run: no refresh token in the settings, empty store. *)
Lemma get_token_no_refresh_token_witness :
  exists w',
    get_token demo_no_refresh_token None (fresh 0) =
      (Raise (DriveAPIError "No refresh token configured for Google Drive connector" 401
                            PayNone), w') /\
    tokens w' = tokens (fresh 0) /\
    token_credentials w' = token_credentials (fresh 0) /\
    token_posts (trace w') = token_posts (trace (fresh 0)) /\
    exchanges (trace w') = exchanges (trace (fresh 0)).
Proof.
  apply (get_token_no_refresh_token demo_no_refresh_token None (fresh 0)).
  - reflexivity.
  - vm_compute. reflexivity.
  - vm_compute. reflexivity.
  - vm_compute. reflexivity.
Defined.

(** X2 on a run: the token endpoint answers 400, invalid_grant. *)
Lemma get_token_exchange_rejected_witness :
  exists message w',
    get_token rejecting None (fresh 0) =
      (Raise (DriveAPIError message 400 (PayToken invalid_grant)), w') /\
    tokens w' = tokens (fresh 0) /\
    token_credentials w' = token_credentials (fresh 0) /\
    token_posts (trace w') =
      token_posts (trace (fresh 0))
        ++ [(refresh_form rejecting
               (stored_record rejecting (resolve_account rejecting None) (fresh 0)) "refresh",
             Some 400)].
Proof.
  apply (get_token_exchange_rejected rejecting None (fresh 0) "refresh"
           (HttpResponse.mk 400 "" (Some invalid_grant)) invalid_grant).
  - reflexivity.
  - vm_compute. reflexivity.
  - vm_compute. reflexivity.
  - vm_compute. reflexivity.
  - discriminate.
  - reflexivity.
  - simpl. lia.
  - reflexivity.
Defined.


(** X4 on a run: an exchange for the default account leaves the account
    "other" alone. *)
Lemma get_token_other_accounts_witness :
  tokens (snd (get_token demo None with_credential)) !! "other"
    = tokens with_credential !! "other" /\
  token_credentials (snd (get_token demo None with_credential)) !! "other"
    = token_credentials with_credential !! "other".
Proof.
  apply (get_token_other_accounts demo None with_credential "other").
  vm_compute. discriminate.
Defined.

(** X5 on a run: without a repository, the call after [invalidate]
    exchanges. *)
Lemma get_token_after_invalidate_exchanges_witness :
  exchanges (trace (snd (get_token demo_no_repository None
                           (snd (invalidate demo_no_repository None (fresh 0))))))
    = S (exchanges (trace (fresh 0))) /\
  exists form response data,
    token_posts (trace (snd (get_token demo_no_repository None
                               (snd (invalidate demo_no_repository None (fresh 0))))))
      = token_posts (trace (fresh 0)) ++ [(form, Some (HttpResponse.status_code response))] /\
    token_endpoint (wiring_env demo_no_repository) (trace (fresh 0)) form = Some response /\
    HttpResponse.json response = Some data /\
    TokenJson.access_token data = Some "abc123".
Proof.
  apply (get_token_after_invalidate_exchanges demo_no_repository None (fresh 0) "abc123"
           (snd (get_token demo_no_repository None
                   (snd (invalidate demo_no_repository None (fresh 0)))))).
  - reflexivity.
  - reflexivity.
  - vm_compute. reflexivity.
Defined.

(** X6 on a run: service-account mode with a stored refresh token. *)
Lemma get_token_service_account_mode_witness :
  token_posts (trace (snd (get_token service_account_wiring None with_credential)))
    = token_posts (trace with_credential) /\
  exchanges (trace (snd (get_token service_account_wiring None with_credential)))
    = S (exchanges (trace with_credential)) /\
  (forall token expiry,
     service_account (wiring_env service_account_wiring) (trace with_credential)
       = Some (token, expiry) ->
     fst (get_token service_account_wiring None with_credential) = Ok token /\
     tokens (snd (get_token service_account_wiring None with_credential)) =
       <[resolve_account service_account_wiring None := AccessToken.mk token expiry]>
         (tokens with_credential)) /\
  (service_account (wiring_env service_account_wiring) (trace with_credential) = None ->
   fst (get_token service_account_wiring None with_credential) = Raise RefreshError /\
   tokens (snd (get_token service_account_wiring None with_credential))
     = tokens with_credential) /\
  (forall a r,
     token_credentials with_credential !! a = Some r ->
     exists r',
       token_credentials (snd (get_token service_account_wiring None with_credential)) !! a
         = Some r' /\
       TokenCredential.refresh_token r' = TokenCredential.refresh_token r).
Proof.
  apply (get_token_service_account_mode service_account_wiring None with_credential).
  - reflexivity.
  - vm_compute. reflexivity.
Defined.

(** X8 on a run: the refresh token stored by the bootstrap is the one
    posted, not the one of the settings. *)
Lemma stored_refresh_token_is_used_witness :
  exists status,
    token_posts (trace (snd (get_token demo None
                               (snd (store_refresh_token (resolve_account demo None)
                                                         "bootstrap-refresh" (Some "scope")
                                                         (fresh 0))))))
    = token_posts (trace (fresh 0))
        ++ [(TokenForm.mk (Settings.googledrive_client_id (wiring_settings demo))
                          (Settings.googledrive_client_secret (wiring_settings demo))
                          "refresh_token" "bootstrap-refresh"
                          (if truthy (Some "scope") then Some "scope" else None), status)].
Proof.
  apply (stored_refresh_token_is_used demo None "bootstrap-refresh" (Some "scope") (fresh 0)).
  - reflexivity.
  - reflexivity.
  - vm_compute. reflexivity.
  - vm_compute. reflexivity.
  - discriminate.
Defined.


(** X11 on a run: Drive does not know the page token. *)
Lemma request_client_error_not_retried_witness :
  exists w',
    _request demo (ListChanges "gone" 100) (fresh 0) =
      (Raise (DriveAPIError "Drive API returned error" 404 (PayDrive no_fields)), w') /\
    trace w' =
      trace (snd (get_token demo (Some (_account_id demo)) (fresh 0)))
        ++ [EvHttp "abc123" (ListChanges "gone" 100) (Some 404);
            EvObserve (ListChanges "gone" 100) 404 (Some "client_error")] /\
    http_log (trace w') =
      http_log (trace (fresh 0)) ++ [(ListChanges "gone" 100, Some 404)] /\
    tokens w' = tokens (snd (get_token demo (Some (_account_id demo)) (fresh 0))).
Proof.
  apply (request_client_error_not_retried demo (ListChanges "gone" 100) (fresh 0) "abc123"
           (snd (get_token demo (Some (_account_id demo)) (fresh 0)))
           (HttpResponse.mk 404 "not found" (Some no_fields))).
  - vm_compute. reflexivity.
  - vm_compute. reflexivity.
  - simpl. lia.
  - simpl. lia.
  - simpl. lia.
Defined.

(** X12 on a run: 503, then the start token. *)
Lemma request_success_after_retry_keeps_label_witness :
  exists w',
    _request flaky GetStartPageToken (fresh 0) =
      (Ok (HttpResponse.mk 200 ""
             (Some (DriveJson.mk (Some "start-token") None None None None None None))), w') /\
    http_log (trace w') =
      http_log (trace (fresh 0))
        ++ [(GetStartPageToken, Some 503); (GetStartPageToken, Some 200)] /\
    observations (trace w') =
      observations (trace (fresh 0)) ++ [(GetStartPageToken, 200, Some "retryable")].
Proof.
  apply (request_success_after_retry_keeps_label flaky GetStartPageToken (fresh 0) "abc123"
           (snd (get_token flaky (Some (_account_id flaky)) (fresh 0)))
           (HttpResponse.mk 503 "backend error" None)
           (HttpResponse.mk 200 ""
              (Some (DriveJson.mk (Some "start-token") None None None None None None)))).
  - vm_compute. reflexivity.
  - vm_compute. reflexivity.
  - right. simpl. lia.
  - vm_compute. reflexivity.
  - simpl. lia.
Defined.

(** X13 on a run: the resource at the start token moves to "cursor-2". *)
Lemma sync_changes_persists_returned_cursor_witness :
  exists c,
    sync_checkpoints (snd (sync_changes demo "files" 100 started)) =
      <[(sync_account_id demo, "files") := c]> (sync_checkpoints started) /\
    SyncCheckpoint.cursor c =
      SyncResult.cursor (SyncResult.mk [{| fileId := "abc" |}] (Some "cursor-2") false false) /\
    SyncResult.initialised
      (SyncResult.mk [{| fileId := "abc" |}] (Some "cursor-2") false false) =
      negb (is_some (held_cursor (sync_checkpoints started !! (sync_account_id demo, "files")))) /\
    held_cursor (sync_checkpoints (snd (sync_changes demo "files" 100 started))
                   !! (sync_account_id demo, "files")) =
      (if truthy (SyncResult.cursor
                    (SyncResult.mk [{| fileId := "abc" |}] (Some "cursor-2") false false))
       then SyncResult.cursor
              (SyncResult.mk [{| fileId := "abc" |}] (Some "cursor-2") false false)
       else None) /\
    (SyncResult.initialised
       (SyncResult.mk [{| fileId := "abc" |}] (Some "cursor-2") false false) = false ->
     truthy (SyncResult.cursor
               (SyncResult.mk [{| fileId := "abc" |}] (Some "cursor-2") false false)) = true).
Proof.
  apply (sync_changes_persists_returned_cursor demo "files" 100 started
           (SyncResult.mk [{| fileId := "abc" |}] (Some "cursor-2") false false)
           (snd (sync_changes demo "files" 100 started))).
  vm_compute. reflexivity.
Defined.

(** X16 on a run: the first channel of the production wiring. *)
Lemma registered_channel_validates_witness :
  fst (ensure_valid_channel (WatchChannel.channel_id first_channel)
         (WatchChannel.token first_channel)
         (snd (register_changes_watch demo 3600 (fresh 0))))
    = Ok first_channel /\
  WatchChannel.channel_id first_channel
    = token_hex (wiring_env demo) (entropy_drawn (fresh 0)) 16 /\
  WatchChannel.token first_channel
    = Some (token_hex (wiring_env demo) (S (entropy_drawn (fresh 0))) 12) /\
  (exists page_token body,
     last (successful_calls (trace (snd (register_changes_watch demo 3600 (fresh 0)))))
       = Some (ChangesWatch page_token body) /\
     WatchBody.id body = WatchChannel.channel_id first_channel /\
     Some (WatchBody.token body) = WatchChannel.token first_channel) /\
  (forall presented,
     truthy (WatchChannel.token first_channel) = true ->
     presented <> WatchChannel.token first_channel ->
     fst (ensure_valid_channel (WatchChannel.channel_id first_channel) presented
            (snd (register_changes_watch demo 3600 (fresh 0))))
       = Raise (PermissionError "Invalid channel token")).
Proof.
  apply (registered_channel_validates demo 3600 (fresh 0) first_channel
           (snd (register_changes_watch demo 3600 (fresh 0)))).
  vm_compute. reflexivity.
Defined.

(** X17 on a run: a delivery for channel "a" with its secret. *)
Lemma googledrive_webhook_spec_witness :
  let run := googledrive_webhook demo "https://example.com/webhook" (Some "a") "update"
                                 (Some "resource-7") (Some "sa") None three_channels in
  http_log (trace (snd run)) = http_log (trace three_channels) /\
  channel_ids (watch_channels (snd run)) = channel_ids (watch_channels three_channels) /\
  match find_channel "a" (watch_channels three_channels) with
  | None =>
      fst run = Ok (HTTPException 403 "Unknown channel") /\
      watch_channels (snd run) = watch_channels three_channels
  | Some r =>
      if truthy (WatchChannel.token r)
         && negb (bool_decide (Some "sa" = WatchChannel.token r))
      then fst run = Ok (HTTPException 403 "Invalid channel token") /\
           watch_channels (snd run) = watch_channels three_channels
      else fst run = Ok (Response 204) /\
           find_channel "a" (watch_channels (snd run)) =
             Some (delivered demo r "https://example.com/webhook" (Some "resource-7") None) /\
           (forall other, other <> "a" ->
              find_channel other (watch_channels (snd run)) =
              find_channel other (watch_channels three_channels))
  end.
Proof.
  apply (googledrive_webhook_spec demo "https://example.com/webhook" "a" "update"
           (Some "resource-7") (Some "sa") None three_channels).
  discriminate.
Defined.

(** X18 on a run: a delivery recorded for a channel the table does not
    know. *)
Lemma upsert_channel_secret_witness :
  exists record w',
    upsert_channel demo unknown_delivery three_channels = (Ok record, w') /\
    find_channel "zz" (watch_channels w') = Some record /\
    WatchChannel.channel_id record = "zz" /\
    (forall other, other <> "zz" ->
       find_channel other (watch_channels w') =
       find_channel other (watch_channels three_channels)) /\
    match find_channel "zz" (watch_channels three_channels) with
    | Some r =>
        WatchChannel.token record = WatchChannel.token r /\
        WatchChannel.account_id record = WatchChannel.account_id r /\
        WatchChannel.kind record = WatchChannel.kind r /\
        channel_ids (watch_channels w') = channel_ids (watch_channels three_channels)
    | None =>
        WatchChannel.token record = None /\
        watch_channels w' = watch_channels three_channels ++ [record] /\
        forall presented, fst (ensure_valid_channel "zz" presented w') = Ok record
    end.
Proof.
  apply (upsert_channel_secret demo unknown_delivery "zz" three_channels).
  - reflexivity.
  - discriminate.
Defined.

(** X20 on a run: the three channels. *)
Lemma channel_ids_stay_unique_witness :
  (forall ttl_seconds,
     List.NoDup (channel_ids (watch_channels
                                (snd (register_changes_watch demo ttl_seconds
                                                             three_channels))))) /\
  (forall channel_id resource_id,
     List.NoDup (channel_ids (watch_channels
                                (snd (delete_watch demo channel_id resource_id
                                                   three_channels))))) /\
  (forall data,
     List.NoDup (channel_ids (watch_channels (snd (upsert_channel demo data three_channels))))) /\
  (forall threshold ttl_seconds,
     List.NoDup (channel_ids (watch_channels
                                (snd (renew_channels demo threshold ttl_seconds
                                                     three_channels))))).
Proof.
  apply (channel_ids_stay_unique demo three_channels).
  vm_compute. repeat constructor; simpl; intuition discriminate.
Defined.

(** X24 on a run: a consumer that closes the iterator after the first of
    three chunks. *)
Lemma download_audit_lifecycle_witness :
  exists row,
    download_audit "default" "file-2" (Some "b.bin") None None (hours 2) three_chunks
                   (CloseAt 0) one_download
    = (if runs_to_end (length (chunks three_chunks)) (CloseAt 0) then chunks three_chunks
       else received (CloseAt 0) (chunks three_chunks),
       if runs_to_end (length (chunks three_chunks)) (CloseAt 0)
       then failure three_chunks else None,
       mkAuditTable (audit_rows one_download ++ [row]) (audit_next_id one_download + 1)) /\
    row =
      (if runs_to_end (length (chunks three_chunks)) (CloseAt 0)
       then match failure three_chunks with
            | None =>
                DownloadAudit.mk (audit_next_id one_download) "default" "file-2"
                                 (Some "b.bin") None (total_length (chunks three_chunks))
                                 None "completed" None (Some (hours 2))
            | Some exc =>
                DownloadAudit.mk (audit_next_id one_download) "default" "file-2"
                                 (Some "b.bin") None 0 None "failed" (Some exc)
                                 (Some (hours 2))
            end
       else DownloadAudit.mk (audit_next_id one_download) "default" "file-2"
                             (Some "b.bin") None 0 None "started" None None) /\
    (runs_to_end (length (chunks three_chunks)) (CloseAt 0) = false ->
     forall older_than,
       In row (audit_rows
                 (snd (prune_downloads older_than
                         (mkAuditTable (audit_rows one_download ++ [row])
                                       (audit_next_id one_download + 1)))))).
Proof.
  apply (download_audit_lifecycle "default" "file-2" (Some "b.bin") None None (hours 2)
           three_chunks (CloseAt 0) one_download).
  repeat constructor.
Defined.

(** X25 on a run: one drive listed, one no longer listed. *)
Lemma sync_reconciles_witness :
  (forall id, In id (remote_ids two_drives) ->
     exists r, new_catalog !! id = Some r /\ confirmed (hours 3) r) /\
  (forall id r, old_catalog !! id = Some r -> ~ In id (remote_ids two_drives) ->
     new_catalog !! id =
       Some (DriveCatalog.mk (DriveCatalog.drive_id r) (DriveCatalog.name r)
                             (DriveCatalog.kind r) false (Some (hours 3)))) /\
  (forall id, is_Some (new_catalog !! id) <->
              is_Some (old_catalog !! id) \/ In id (remote_ids two_drives)) /\
  (exists r, new_catalog !! "my-drive" = Some r /\ confirmed (hours 3) r) /\
  (forall id r, new_catalog !! id = Some r ->
                DriveCatalog.last_synced_at r = Some (hours 3)).
Proof.
  apply (sync_reconciles (hours 3) two_drives old_catalog new_catalog).
  vm_compute. reflexivity.
Defined.

(** X27 on a run: half an hour after that sync, with an hour allowed. *)
Lemma ensure_synced_after_sync_witness :
  max_last_synced_at new_catalog = Some (hours 3) /\
  ensure_synced false 3600 (hours 3 + minutes 30) (hours 3 + minutes 31)
                (Raise TransportError) new_catalog =
    (if seconds 3600 <? hours 3 + minutes 30 - hours 3
     then sync (hours 3 + minutes 31) (Raise TransportError) new_catalog
     else Ok new_catalog).
Proof.
  apply (ensure_synced_after_sync (hours 3) two_drives old_catalog new_catalog 3600
           (hours 3 + minutes 30) (hours 3 + minutes 31) (Raise TransportError)).
  vm_compute. reflexivity.
Defined.


(** X28 on a run: a cached token valid for the next hour. *)
Lemma get_token_silent_only_when_valid_witness :
  exists tok,
    tokens (snd (get_token demo None (fresh 0))) !! resolve_account demo None = Some tok /\
    is_valid (now (snd (get_token demo None (fresh 0)))) tok = true /\
    "abc123" = AccessToken.token tok /\
    snd (get_token demo None (fresh 0)) = snd (get_token demo None (fresh 0)).
Proof.
  apply (get_token_silent_only_when_valid demo None (snd (get_token demo None (fresh 0)))
           "abc123" (snd (get_token demo None (fresh 0)))).
  - vm_compute. reflexivity.
  - reflexivity.
Defined.

